(** * Neato SDK (Beehive sessions and Nucleo signed commands)

    A shallow embedding of [beehive.go], [nucleo.go], [neato.go] and the
    credential helper, together with the parts of the Go standard library
    that decide the behaviour of the code: [encoding/hex],
    [encoding/base64], [encoding/json] (encoder side, for the [request]
    struct), [unicode/utf8], [strings.ToLower], [path.Join], [net/url]
    escaping, [net/textproto] header canonicalisation, [crypto/sha256] and
    [crypto/hmac].

    Go [string] and [[]byte] are both sequences of bytes; they are modelled
    as [list byte].  A Go slice that may be [nil] is an [option (list _)].
    Everything outside the process (entropy, credential store, network,
    clock, JSON decoding of response bodies, Unicode tables) is a field of
    the record [Env]. *)

From Stdlib Require Import ZArith List Lia Bool DecimalPos.
From Stdlib Require Import Init.Byte Strings.Byte.
From stdpp Require Import gmap list.
Import ListNotations.

Local Open Scope Z_scope.

(** ** Bytes and byte strings *)

Definition bytes := list byte.

Inductive bytes_literal : Set :=
| LitEnd
| LitByte (b : byte) (rest : bytes_literal).

Fixpoint literal_of_bytes (l : list byte) : bytes_literal :=
  match l with
  | [] => LitEnd
  | b :: r => LitByte b (literal_of_bytes r)
  end.

Fixpoint bytes_of_literal (l : bytes_literal) : list byte :=
  match l with
  | LitEnd => []
  | LitByte b r => b :: bytes_of_literal r
  end.

Declare Scope bytes_scope.
Delimit Scope bytes_scope with bs.
#[warnings="-via-type-remapping,-via-type-mismatch"]
String Notation bytes literal_of_bytes bytes_of_literal
  (via bytes_literal mapping [[nil] => LitEnd, [cons] => LitByte]) : bytes_scope.

#[global] Instance byte_eq_dec : EqDecision byte := Byte.byte_eq_dec.
#[global] Instance byte_countable : Countable byte :=
  inj_countable Byte.to_N Byte.of_N Byte.of_to_N.

(** The numeric value of a byte, and Go's truncating conversion [byte(x)]. *)
Definition byte_to_Z (b : byte) : Z := Z.of_N (Byte.to_N b).

Definition byte_of_Z (z : Z) : byte :=
  match Byte.of_N (Z.to_N (z mod 256)) with
  | Some b => b
  | None => x00
  end.

(** [s[i]] for an index known to be in range (Go panics otherwise; every
    use below indexes a fixed table with a masked value). *)
Definition index (s : bytes) (i : Z) : byte := nth (Z.to_nat i) s x00.

Definition byte_in (lo hi : Z) (b : byte) : bool :=
  (lo <=? byte_to_Z b) && (byte_to_Z b <=? hi).

(** ** encoding/hex *)

Definition hextable : bytes := "0123456789abcdef"%bs.

Definition hex_EncodedLen (n : nat) : nat := (n * 2)%nat.

(** [hex.Encode(dst, src)]: [dst] has length [EncodedLen(len(src))] and is
    overwritten entirely, so the model returns its final content. *)
Definition hex_Encode (src : bytes) : bytes :=
  flat_map (fun v => [ index hextable (Z.shiftr (byte_to_Z v) 4);
                       index hextable (Z.land (byte_to_Z v) 15) ]) src.

Definition is_lower_hex (b : byte) : bool :=
  byte_in 48 57 b || byte_in 97 102 b.

(** [hex.Decode]'s digit table ([reverseHexTable]) and loop; [None] stands
    for [InvalidByteError] and [ErrLength]. *)
Definition fromHexChar (b : byte) : option Z :=
  if byte_in 48 57 b then Some (byte_to_Z b - 48)
  else if byte_in 97 102 b then Some (byte_to_Z b - 97 + 10)
  else if byte_in 65 70 b then Some (byte_to_Z b - 65 + 10)
  else None.

Fixpoint hex_Decode (src : bytes) : option bytes :=
  match src with
  | [] => Some []
  | p :: q :: rest =>
      match fromHexChar p, fromHexChar q, hex_Decode rest with
      | Some a, Some b, Some r => Some (byte_of_Z (Z.lor (Z.shiftl a 4) b) :: r)
      | _, _, _ => None
      end
  | [_] => None
  end.

(** ** Results *)

(** A Go [error] value is identified by its message.  A call returns its
    value, returns an error, or panics (nil pointer dereference). *)
Definition error := bytes.

Inductive result (A : Type) : Type :=
| Ok (a : A)
| Err (e : error)
| Panic.
Arguments Ok {A} a.
Arguments Err {A} e.
Arguments Panic {A}.

(** ** crypto/rand *)

(** The state of the system's entropy source at the time of a call:
    either the read fails, or it delivers as many bytes as asked for
    ([rand.Read] reads with [io.ReadFull]: [n == len(b)] iff [err == nil]). *)
Inductive entropy : Type :=
| EntropyFails (e : error)
| EntropyStream (next : nat -> byte).

Definition rand_Read (src : entropy) (n : nat) : result bytes :=
  match src with
  | EntropyFails e => Err e
  | EntropyStream next => Ok (map next (seq 0 n))
  end.

(** ** crypto/sha256

    [uint32] arithmetic is arithmetic on [Z] reduced modulo [2^32]. *)

Module sha256.

Definition Size : nat := 32.
Definition BlockSize : nat := 64.

Definition u32 (x : Z) : Z := x mod 4294967296.
Definition add32 (x y : Z) : Z := u32 (x + y).
Definition not32 (x : Z) : Z := Z.lxor x 4294967295.

(** [bits.RotateLeft32(x, -k)] *)
Definition rotr (k x : Z) : Z :=
  Z.lor (Z.shiftr x k) (u32 (Z.shiftl x (32 - k))).

Definition init : list Z :=
  [ 1779033703; 3144134277; 1013904242; 2773480762;
    1359893119; 2600822924; 528734635; 1541459225 ].

Definition _K : list Z :=
  [ 1116352408; 1899447441; 3049323471; 3921009573;
    961987163; 1508970993; 2453635748; 2870763221;
    3624381080; 310598401; 607225278; 1426881987;
    1925078388; 2162078206; 2614888103; 3248222580;
    3835390401; 4022224774; 264347078; 604807628;
    770255983; 1249150122; 1555081692; 1996064986;
    2554220882; 2821834349; 2952996808; 3210313671;
    3336571891; 3584528711; 113926993; 338241895;
    666307205; 773529912; 1294757372; 1396182291;
    1695183700; 1986661051; 2177026350; 2456956037;
    2730485921; 2820302411; 3259730800; 3345764771;
    3516065817; 3600352804; 4094571909; 275423344;
    430227734; 506948616; 659060556; 883997877;
    958139571; 1322822218; 1537002063; 1747873779;
    1955562222; 2024104815; 2227730452; 2361852424;
    2428436474; 2756734187; 3204031479; 3329325298 ].

(** Big-endian packing of the sixteen message words of one chunk. *)
Fixpoint words_of_chunk (p : bytes) : list Z :=
  match p with
  | b0 :: b1 :: b2 :: b3 :: rest =>
      Z.lor (Z.lor (Z.lor (Z.shiftl (byte_to_Z b0) 24)
                          (Z.shiftl (byte_to_Z b1) 16))
                   (Z.shiftl (byte_to_Z b2) 8))
            (byte_to_Z b3)
      :: words_of_chunk rest
  | _ => []
  end.

(** The second loop of [blockGeneric]: [w] holds [w[0..i-1]] and is
    extended by [k] more entries. *)
Fixpoint extend (k : nat) (w : list Z) : list Z :=
  match k with
  | O => w
  | S k' =>
      let i := length w in
      let v1 := nth (i - 2) w 0 in
      let t1 := Z.lxor (Z.lxor (rotr 17 v1) (rotr 19 v1)) (Z.shiftr v1 10) in
      let v2 := nth (i - 15) w 0 in
      let t2 := Z.lxor (Z.lxor (rotr 7 v2) (rotr 18 v2)) (Z.shiftr v2 3) in
      extend k' (w ++ [add32 (add32 (add32 t1 (nth (i - 7) w 0)) t2)
                              (nth (i - 16) w 0)])
  end.

Record regs := Regs { ra : Z; rb : Z; rc : Z; rd : Z;
                      re : Z; rf : Z; rg : Z; rh : Z }.

Definition round (s : regs) (kw : Z * Z) : regs :=
  let '(Regs a b c d e f g h) := s in
  let t1 := add32 (add32 (add32 (add32 h
              (Z.lxor (Z.lxor (rotr 6 e) (rotr 11 e)) (rotr 25 e)))
              (Z.lxor (Z.land e f) (Z.land (not32 e) g)))
              (fst kw)) (snd kw) in
  let t2 := add32 (Z.lxor (Z.lxor (rotr 2 a) (rotr 13 a)) (rotr 22 a))
                  (Z.lxor (Z.lxor (Z.land a b) (Z.land a c)) (Z.land b c)) in
  Regs (add32 t1 t2) a b c (add32 d t1) e f g.

Definition regs_of (h : list Z) : regs :=
  Regs (nth 0 h 0) (nth 1 h 0) (nth 2 h 0) (nth 3 h 0)
       (nth 4 h 0) (nth 5 h 0) (nth 6 h 0) (nth 7 h 0).

(** One iteration of the outer loop of [blockGeneric] on a 64-byte chunk. *)
Definition block (h : list Z) (chunk : bytes) : list Z :=
  let w := extend 48 (words_of_chunk chunk) in
  let '(Regs a b c d e f g hh) := fold_left round (combine _K w) (regs_of h) in
  let '(Regs h0 h1 h2 h3 h4 h5 h6 h7) := regs_of h in
  [ add32 h0 a; add32 h1 b; add32 h2 c; add32 h3 d;
    add32 h4 e; add32 h5 f; add32 h6 g; add32 h7 hh ].

Fixpoint blocks (n : nat) (h : list Z) (p : bytes) : list Z :=
  match n with
  | O => h
  | S n' => blocks n' (block h (firstn 64 p)) (skipn 64 p)
  end.

(** [binary.BigEndian.PutUint64] and [PutUint32]. *)
Definition be_bytes (width : nat) (v : Z) : bytes :=
  map (fun i => byte_of_Z (Z.shiftr v (8 * Z.of_nat (width - 1 - i))))
      (seq 0 width).

(** The padding written by [checkSum]: the byte 128, zero bytes up to
    56 modulo 64, and the bit length as a [uint64]. *)
Definition padding (len : Z) : bytes :=
  let t := if len mod 64 <? 56 then 56 - len mod 64
           else 64 + 56 - len mod 64 in
  (x80 :: repeat x00 (Z.to_nat t - 1))
    ++ be_bytes 8 ((len * 8) mod 18446744073709551616).

(** [sha256.Sum256], which is also what [New()], [Write]s and
    [Sum(nil)] compute over the concatenation of the written data. *)
Definition Sum256 (data : bytes) : bytes :=
  let padded := data ++ padding (Z.of_nat (length data)) in
  flat_map (be_bytes 4) (blocks (length padded / 64) init padded).

End sha256.

(** ** crypto/hmac over crypto/sha256 *)

Module hash.

(** A [hash.Hash] obtained from [sha256.New]: the digest depends only on
    the data written since creation or the last [Reset]. *)
Record Hash := { written : bytes }.

Definition New : Hash := {| written := [] |}.
Definition BlockSize (_ : Hash) : nat := sha256.BlockSize.
Definition Write (h : Hash) (p : bytes) : Hash :=
  {| written := written h ++ p |}.
Definition Reset (_ : Hash) : Hash := New.
(** [Sum(b)] appends the digest to [b] and leaves the state alone. *)
Definition Sum (h : Hash) (b : bytes) : bytes :=
  b ++ sha256.Sum256 (written h).

End hash.

Module hmac.

Record hmac := { opad : bytes; ipad : bytes;
                 outer : hash.Hash; inner : hash.Hash }.

(** The builtin [copy(dst, src)]. *)
Definition copy (dst src : bytes) : bytes :=
  firstn (length dst) src ++ skipn (length src) dst.

Definition xor_with (c : Z) (p : bytes) : bytes :=
  map (fun b => byte_of_Z (Z.lxor (byte_to_Z b) c)) p.

(** [hmac.New(sha256.New, key)] *)
Definition New (key : bytes) : hmac :=
  let outer0 := hash.New in
  let inner0 := hash.New in
  let blocksize := hash.BlockSize inner0 in
  let '(outer1, key1) :=
    if (blocksize <? length key)%nat
    then (hash.Write outer0 key, hash.Sum (hash.Write outer0 key) [])
    else (outer0, key) in
  let ipad := xor_with 54 (copy (repeat x00 blocksize) key1) in
  let opad := xor_with 92 (copy (repeat x00 blocksize) key1) in
  {| opad := opad; ipad := ipad;
     outer := outer1; inner := hash.Write inner0 ipad |}.

Definition Write (h : hmac) (p : bytes) : hmac :=
  {| opad := opad h; ipad := ipad h;
     outer := outer h; inner := hash.Write (inner h) p |}.

Definition Sum (h : hmac) (b : bytes) : bytes :=
  let origLen := length b in
  let b1 := hash.Sum (inner h) b in
  let o := hash.Write (hash.Write (hash.Reset (outer h)) (opad h))
                      (skipn origLen b1) in
  hash.Sum o (firstn origLen b1).

End hmac.

(** The keyed-hash construction as RFC 2104 words it, instantiated with
    SHA-256: [H((K0 xor opad) || H((K0 xor ipad) || text))], where [K0] is
    the key brought to the block size [B = 64] (hashed first when longer,
    then padded with zero bytes). *)
Definition HMAC_SHA256_K0 (key : bytes) : bytes :=
  let k := if (64 <? length key)%nat then sha256.Sum256 key else key in
  k ++ repeat x00 (64 - length k).

Definition HMAC_SHA256 (key text : bytes) : bytes :=
  let k0 := HMAC_SHA256_K0 key in
  sha256.Sum256
    (map (fun b => byte_of_Z (Z.lxor (byte_to_Z b) 0x5c)) k0
     ++ sha256.Sum256
          (map (fun b => byte_of_Z (Z.lxor (byte_to_Z b) 0x36)) k0 ++ text)).

(** ** strings.ToLower *)

Definition isASCII (s : bytes) : bool :=
  forallb (fun c => byte_to_Z c <? 128) s.

Definition hasUpper (s : bytes) : bool := existsb (byte_in 65 90) s.

Definition lower_byte (c : byte) : byte :=
  if byte_in 65 90 c then byte_of_Z (byte_to_Z c + (97 - 65)) else c.

(** [strings.ToLower]: the ASCII fast path is computed here; a string with
    a byte [>= utf8.RuneSelf] goes through [strings.Map(unicode.ToLower, s)],
    whose Unicode tables are supplied from outside as [unicode_lower]. *)
Definition strings_ToLower (unicode_lower : bytes -> bytes) (s : bytes) : bytes :=
  if isASCII s then
    if hasUpper s then map lower_byte s else s
  else unicode_lower s.

(** ** unicode/utf8 *)

Module utf8.

Definition RuneError : Z := 0xFFFD.
Definition RuneSelf : Z := 0x80.

(** The table [first]: [0xF0] for ASCII, [0xF1] for an invalid lead byte,
    otherwise size in the low three bits and the index into
    [acceptRanges] in the high four. *)
Definition first (b : Z) : Z :=
  if b <? 0x80 then 0xF0
  else if b <? 0xC2 then 0xF1
  else if b <? 0xE0 then 0x02
  else if b =? 0xE0 then 0x13
  else if b <? 0xED then 0x03
  else if b =? 0xED then 0x23
  else if b <? 0xF0 then 0x03
  else if b =? 0xF0 then 0x34
  else if b <? 0xF4 then 0x04
  else if b =? 0xF4 then 0x44
  else 0xF1.

Definition acceptRanges (i : Z) : Z * Z :=
  if i =? 0 then (0x80, 0xBF)
  else if i =? 1 then (0xA0, 0xBF)
  else if i =? 2 then (0x80, 0x9F)
  else if i =? 3 then (0x90, 0xBF)
  else if i =? 4 then (0x80, 0x8F)
  else (0, 0).

Definition cont (b : byte) : bool := byte_in 0x80 0xBF b.

(** [utf8.DecodeRuneInString]: the rune and its width in bytes. *)
Definition DecodeRune (s : bytes) : Z * nat :=
  match s with
  | [] => (RuneError, 0%nat)
  | s0 :: t =>
      let x := first (byte_to_Z s0) in
      if 0xF0 <=? x then
        ((if x =? 0xF0 then byte_to_Z s0 else RuneError), 1%nat)
      else
        let sz := Z.to_nat (Z.land x 7) in
        let '(lo, hi) := acceptRanges (Z.shiftr x 4) in
        if (length s <? sz)%nat then (RuneError, 1%nat) else
        match t with
        | [] => (RuneError, 1%nat)
        | s1 :: t1 =>
            if negb (byte_in lo hi s1) then (RuneError, 1%nat) else
            if (sz <=? 2)%nat then
              (Z.lor (Z.shiftl (Z.land (byte_to_Z s0) 0x1F) 6)
                     (Z.land (byte_to_Z s1) 0x3F), 2%nat)
            else
            match t1 with
            | [] => (RuneError, 1%nat)
            | s2 :: t2 =>
                if negb (cont s2) then (RuneError, 1%nat) else
                if (sz <=? 3)%nat then
                  (Z.lor (Z.lor (Z.shiftl (Z.land (byte_to_Z s0) 0x0F) 12)
                                (Z.shiftl (Z.land (byte_to_Z s1) 0x3F) 6))
                         (Z.land (byte_to_Z s2) 0x3F), 3%nat)
                else
                match t2 with
                | [] => (RuneError, 1%nat)
                | s3 :: _ =>
                    if negb (cont s3) then (RuneError, 1%nat) else
                    (Z.lor (Z.lor (Z.lor
                       (Z.shiftl (Z.land (byte_to_Z s0) 0x07) 18)
                       (Z.shiftl (Z.land (byte_to_Z s1) 0x3F) 12))
                       (Z.shiftl (Z.land (byte_to_Z s2) 0x3F) 6))
                       (Z.land (byte_to_Z s3) 0x3F), 4%nat)
                end
            end
        end
  end.

(** [utf8.Valid]: every position starts a well-formed encoding. *)
Fixpoint valid_fuel (fuel : nat) (s : bytes) : bool :=
  match fuel with
  | O => match s with [] => true | _ => false end
  | S f =>
      match s with
      | [] => true
      | _ =>
          let '(c, size) := DecodeRune s in
          if (c =? RuneError) && (size =? 1)%nat then false
          else valid_fuel f (skipn size s)
      end
  end.

Definition Valid (s : bytes) : bool := valid_fuel (length s) s.

End utf8.

(** ** encoding/base64 ([StdEncoding], padded) *)

Module base64.

Definition encodeStd : bytes :=
  "ABCDEFGHIJKLMNOPQRSTUVWXYZabcdefghijklmnopqrstuvwxyz0123456789+/"%bs.

Definition StdPadding : byte := "="%byte.

Definition enc (v : Z) : byte := index encodeStd (Z.land v 0x3F).

(** [Encoding.Encode]: three source bytes make four characters; a
    remainder of one or two bytes is padded. *)
Fixpoint Encode (src : bytes) : bytes :=
  match src with
  | [] => []
  | [a] =>
      let val := Z.shiftl (byte_to_Z a) 16 in
      [ enc (Z.shiftr val 18); enc (Z.shiftr val 12); StdPadding; StdPadding ]
  | [a; b] =>
      let val := Z.lor (Z.shiftl (byte_to_Z a) 16) (Z.shiftl (byte_to_Z b) 8) in
      [ enc (Z.shiftr val 18); enc (Z.shiftr val 12); enc (Z.shiftr val 6);
        StdPadding ]
  | a :: b :: c :: rest =>
      let val := Z.lor (Z.lor (Z.shiftl (byte_to_Z a) 16)
                              (Z.shiftl (byte_to_Z b) 8)) (byte_to_Z c) in
      enc (Z.shiftr val 18) :: enc (Z.shiftr val 12) :: enc (Z.shiftr val 6)
        :: enc val :: Encode rest
  end.

End base64.

(** ** strconv *)

Module strconv.

Fixpoint digits (d : Decimal.uint) : bytes :=
  match d with
  | Decimal.Nil => []
  | Decimal.D0 r => "0"%byte :: digits r
  | Decimal.D1 r => "1"%byte :: digits r
  | Decimal.D2 r => "2"%byte :: digits r
  | Decimal.D3 r => "3"%byte :: digits r
  | Decimal.D4 r => "4"%byte :: digits r
  | Decimal.D5 r => "5"%byte :: digits r
  | Decimal.D6 r => "6"%byte :: digits r
  | Decimal.D7 r => "7"%byte :: digits r
  | Decimal.D8 r => "8"%byte :: digits r
  | Decimal.D9 r => "9"%byte :: digits r
  end.

(** [strconv.AppendInt(nil, v, 10)]: the canonical decimal numeral. *)
Definition FormatInt (v : Z) : bytes :=
  match v with
  | Z0 => "0"%bs
  | Zpos p => digits (Pos.to_uint p)
  | Zneg p => "-"%byte :: digits (Pos.to_uint p)
  end.

End strconv.

(** ** encoding/json, encoder *)

Module json.

Definition quote : byte := x22.
Definition backslash : byte := x5c.

Definition hex : bytes := "0123456789abcdef"%bs.

(** [htmlSafeSet]: the ASCII characters written as they are. *)
Definition htmlSafe (b : byte) : bool :=
  (0x20 <=? byte_to_Z b) && (byte_to_Z b <? 0x80)
  && negb (Byte.eqb b quote) && negb (Byte.eqb b backslash)
  && negb (Byte.eqb b "&"%byte) && negb (Byte.eqb b "<"%byte)
  && negb (Byte.eqb b ">"%byte).

(** The [switch] of [appendString] for an ASCII byte outside
    [htmlSafeSet] (with the short forms of backspace and form feed, as
    the encoder writes them since Go 1.22). *)
Definition escape_ascii (b : byte) : bytes :=
  if Byte.eqb b backslash || Byte.eqb b quote then [backslash; b]
  else if Byte.eqb b x08 then [backslash; "b"%byte]
  else if Byte.eqb b x0c then [backslash; "f"%byte]
  else if Byte.eqb b x0a then [backslash; "n"%byte]
  else if Byte.eqb b x0d then [backslash; "r"%byte]
  else if Byte.eqb b x09 then [backslash; "t"%byte]
  else backslash :: "u00"%bs
         ++ [ index hex (Z.shiftr (byte_to_Z b) 4);
              index hex (Z.land (byte_to_Z b) 0xF) ].

(** One iteration of the loop of [appendString] with [escapeHTML] set:
    what is appended for the character at the head of [src], and how
    many bytes of [src] it takes. *)
Definition step (src : bytes) : bytes * nat :=
  match src with
  | [] => ([], 0%nat)
  | b :: _ =>
      if byte_to_Z b <? utf8.RuneSelf then
        ((if htmlSafe b then [b] else escape_ascii b), 1%nat)
      else
        let '(c, size) := utf8.DecodeRune (firstn 4 src) in
        if (c =? utf8.RuneError) && (size =? 1)%nat then
          (backslash :: "ufffd"%bs, 1%nat)
        else if (c =? 0x2028) || (c =? 0x2029) then
          (backslash :: "u202"%bs ++ [index hex (Z.land c 0xF)], size)
        else (firstn size src, size)
  end.

Fixpoint loop (fuel : nat) (src : bytes) : bytes :=
  match fuel with
  | O => []
  | S f =>
      match src with
      | [] => []
      | _ => let '(out, n) := step src in out ++ loop f (skipn n src)
      end
  end.

(** [appendString(nil, src, true)]: a string value. *)
Definition appendString (src : bytes) : bytes :=
  quote :: loop (length src) src ++ [quote].

(** [encodeByteSlice]: a [[]byte] value is [null] when nil and its
    base64 text between quotes otherwise. *)
Definition encodeByteSlice (v : option bytes) : bytes :=
  match v with
  | None => "null"%bs
  | Some s => quote :: base64.Encode s ++ [quote]
  end.

Definition encodeInt (v : Z) : bytes := strconv.FormatInt v.

Definition encodeBool (v : bool) : bytes :=
  if v then "true"%bs else "false"%bs.

Fixpoint join (sep : bytes) (parts : list bytes) : bytes :=
  match parts with
  | [] => []
  | [p] => p
  | p :: rest => p ++ sep ++ join sep rest
  end.

(** [arrayEncoder] under [sliceEncoder]: [null] for a nil slice. *)
Definition encodeSlice {A} (elem : A -> bytes) (v : option (list A)) : bytes :=
  match v with
  | None => "null"%bs
  | Some l => "["%bs ++ join ","%bs (map elem l) ++ "]"%bs
  end.

(** [structEncoder]: the fields that are not omitted, each as
    ["name":value], separated by commas, between braces. *)
Definition field (name value : bytes) : bytes :=
  quote :: name ++ quote :: ":"%byte :: value.

Definition encodeStruct (fields : list bytes) : bytes :=
  "{"%bs ++ join ","%bs fields ++ "}"%bs.

End json.

(** ** path *)

Module path.

Definition slash : byte := "/"%byte.
Definition dot : byte := "."%byte.

Definition at_separator (p : bytes) : bool :=
  match p with
  | [] => true
  | c :: _ => Byte.eqb c slash
  end.

(** The run of bytes up to the next separator, and what follows it. *)
Fixpoint element (p : bytes) : bytes * bytes :=
  match p with
  | [] => ([], [])
  | c :: r =>
      if Byte.eqb c slash then ([], p)
      else let '(e, rest) := element r in (c :: e, rest)
  end.

(** The backward scan of the [..] case, started after [out.w--]:
    [for out.w > dotdot && out.index(out.w) != '/' { out.w-- }]. *)
Fixpoint back (out : bytes) (dotdot : nat) (k w : nat) : nat :=
  match k with
  | O => w
  | S k' =>
      if (dotdot <? w)%nat && negb (Byte.eqb (nth w out x00) slash)
      then back out dotdot k' (w - 1)%nat
      else w
  end.

(** The loop of [Clean]: [p] is [path[r:]], [out] the logical content of
    the output buffer ([out.w] is its length). *)
Fixpoint clean_loop (fuel : nat) (rooted : bool) (p out : bytes)
         (dotdot : nat) : bytes :=
  match fuel with
  | O => out
  | S f =>
      match p with
      | [] => out
      | c :: p1 =>
          if Byte.eqb c slash then clean_loop f rooted p1 out dotdot
          else if Byte.eqb c dot && at_separator p1 then
            clean_loop f rooted p1 out dotdot
          else if Byte.eqb c dot
                  && match p1 with
                     | c1 :: p2 => Byte.eqb c1 dot && at_separator p2
                     | [] => false
                     end then
            let p2 := tl p1 in
            if (dotdot <? length out)%nat then
              let w := back out dotdot (length out) (length out - 1)%nat in
              clean_loop f rooted p2 (firstn w out) dotdot
            else if negb rooted then
              let out1 := if (0 <? length out)%nat then out ++ [slash] else out in
              let out2 := out1 ++ [dot; dot] in
              clean_loop f rooted p2 out2 (length out2)
            else clean_loop f rooted p2 out dotdot
          else
            let out1 :=
              if (rooted && negb (length out =? 1)%nat)
                 || (negb rooted && negb (length out =? 0)%nat)
              then out ++ [slash] else out in
            let '(e, rest) := element p in
            clean_loop f rooted rest (out1 ++ e) dotdot
      end
  end.

Definition Clean (path : bytes) : bytes :=
  match path with
  | [] => "."%bs
  | c :: rest =>
      let out :=
        if Byte.eqb c slash
        then clean_loop (length path) true rest [slash] 1%nat
        else clean_loop (length path) false path [] 0%nat in
      match out with
      | [] => "."%bs
      | _ => out
      end
  end.

(** The buffer [Join] builds before cleaning it: the elements from the
    first non-empty one on, separated by slashes. *)
Definition join_step (buf e : bytes) : bytes :=
  if (0 <? length buf)%nat then buf ++ slash :: e
  else match e with
       | [] => buf
       | _ => buf ++ e
       end.

Definition Join (elem : list bytes) : bytes :=
  if (0 =? fold_left (fun n e => (n + length e)%nat) elem 0)%nat then []
  else Clean (fold_left join_step elem []).

End path.

(** ** net/url *)

Module url.

Inductive encoding := encodePath | encodeHost | encodeQueryComponent.

Definition alnum (c : byte) : bool :=
  byte_in 97 122 c || byte_in 65 90 c || byte_in 48 57 c.

Definition is_one_of (set : bytes) (c : byte) : bool :=
  existsb (Byte.eqb c) set.

Definition shouldEscape (c : byte) (mode : encoding) : bool :=
  if alnum c then false
  else if match mode with
          | encodeHost => is_one_of ("!$&'()*+,;=:[]<>"%bs ++ [x22]) c
          | _ => false
          end then false
  else if is_one_of "-_.~"%bs c then false
  else if is_one_of "$&+,/:;=?@"%bs c then
    match mode with
    | encodePath => Byte.eqb c "?"%byte
    | encodeQueryComponent => true
    | encodeHost => true
    end
  else true.

Definition upperhex : bytes := "0123456789ABCDEF"%bs.

Definition escape_byte (mode : encoding) (c : byte) : bytes :=
  if Byte.eqb c " "%byte
     && match mode with encodeQueryComponent => true | _ => false end
  then ["+"%byte]
  else if shouldEscape c mode then
    [ "%"%byte; index upperhex (Z.shiftr (byte_to_Z c) 4);
      index upperhex (Z.land (byte_to_Z c) 15) ]
  else [c].

Definition escape (s : bytes) (mode : encoding) : bytes :=
  flat_map (escape_byte mode) s.

Definition QueryEscape (s : bytes) : bytes := escape s encodeQueryComponent.

(** The fields of [url.URL] that the package sets; [Opaque], [User],
    [RawPath], [ForceQuery], [OmitHost] and [Fragment] keep their zero
    values. *)
Record URL := { Scheme : bytes; Host : bytes; Path : bytes; RawQuery : bytes }.

Definition EscapedPath (u : URL) : bytes :=
  if decide (Path u = "*"%bs) then "*"%bs else escape (Path u) encodePath.

Definition nonempty (s : bytes) : bool :=
  match s with [] => false | _ => true end.

Definition String (u : URL) : bytes :=
  let b1 := if nonempty (Scheme u) then Scheme u ++ ":"%bs else [] in
  let b2 :=
    if nonempty (Scheme u) || nonempty (Host u) then
      b1 ++ (if nonempty (Host u) || nonempty (Path u) then "//"%bs else [])
         ++ (if nonempty (Host u) then escape (Host u) encodeHost else [])
    else b1 in
  let p := EscapedPath u in
  let b3 :=
    match p with
    | c :: _ =>
        if negb (Byte.eqb c "/"%byte) && nonempty (Host u)
        then b2 ++ "/"%bs else b2
    | [] => b2
    end in
  let b4 :=
    if negb (nonempty b3) && is_one_of (fst (path.element p)) ":"%byte
    then "./"%bs else b3 in
  let b5 := b4 ++ p in
  if nonempty (RawQuery u) then b5 ++ "?"%bs ++ RawQuery u else b5.

(** Lexicographic order on byte strings, the order of [slices.Sort] on
    Go strings. *)
Fixpoint leb (a b : bytes) : bool :=
  match a, b with
  | [], _ => true
  | _ :: _, [] => false
  | x :: a', y :: b' =>
      if byte_to_Z x <? byte_to_Z y then true
      else if byte_to_Z y <? byte_to_Z x then false
      else leb a' b'
  end.

Fixpoint insert_sorted (k : bytes * list bytes) (l : list (bytes * list bytes))
  : list (bytes * list bytes) :=
  match l with
  | [] => [k]
  | h :: t => if leb (fst k) (fst h) then k :: l else h :: insert_sorted k t
  end.

Definition sorted_entries (v : gmap bytes (list bytes))
  : list (bytes * list bytes) :=
  fold_right insert_sorted [] (map_to_list v).

(** [Values.Encode]: [key=value] pairs in key order, joined by [&]. *)
Definition Encode (v : gmap bytes (list bytes)) : bytes :=
  json.join "&"%bs
    (flat_map (fun kv => map (fun x => QueryEscape (fst kv) ++ "="%bs ++ QueryEscape x)
                             (snd kv))
              (sorted_entries v)).

End url.

(** ** net/textproto and net/http headers *)

Module textproto.

(** [validHeaderFieldByte]: the token characters of RFC 7230. *)
Definition validHeaderFieldByte (c : byte) : bool :=
  url.alnum c || url.is_one_of "!#$%&'*+-.^_`|~"%bs c.

Fixpoint canon (upper : bool) (a : bytes) : bytes :=
  match a with
  | [] => []
  | c :: r =>
      let c' :=
        if upper && byte_in 97 122 c then byte_of_Z (byte_to_Z c - 32)
        else if negb upper && byte_in 65 90 c then byte_of_Z (byte_to_Z c + 32)
        else c in
      c' :: canon (Byte.eqb c' "-"%byte) r
  end.

(** [CanonicalMIMEHeaderKey]: a key made of token characters gets an
    upper-case letter first and after each dash, lower-case elsewhere;
    any other key is left as it is. *)
Definition CanonicalMIMEHeaderKey (s : bytes) : bytes :=
  if forallb validHeaderFieldByte s then canon true s else s.

End textproto.

Module http.

Definition MethodPost : bytes := "POST"%bs.

(** [Header.Set] and [Header.Get] on [map[string][]string]. *)
Definition Header_Set (h : gmap bytes (list bytes)) (key value : bytes)
  : gmap bytes (list bytes) :=
  <[ textproto.CanonicalMIMEHeaderKey key := [value] ]> h.

Definition Header_Get (h : gmap bytes (list bytes)) (key : bytes) : bytes :=
  match h !! textproto.CanonicalMIMEHeaderKey key with
  | Some (v :: _) => v
  | _ => []
  end.

(** [http.Client]: its interface- and function-valued fields are nil or
    an opaque handle. *)
Record Client := { Transport : option nat; CheckRedirect : option nat;
                   Jar : option nat; Timeout : Z }.

Definition zero_Client : Client :=
  {| Transport := None; CheckRedirect := None; Jar := None; Timeout := 0 |}.

(** What [http.NewRequest] is given and what the code sets afterwards. *)
Record Request := { Method : bytes; URL : bytes;
                    Header : gmap bytes (list bytes);
                    Body : option bytes }.

Record Response := { StatusCode : Z; ResponseBody : bytes }.

End http.

(** * The package [neato] *)

(** ** Constants ([neato.go], [beehive.go], [nucleo.go], credentials) *)

Definition scheme : bytes := "https"%bs.

Definition beehiveAcceptHeader : bytes := "application/vnd.neato.beehive.v1+json"%bs.
Definition beehiveHost : bytes := "beehive.neatocloud.com"%bs.
Definition platform : bytes := "ios"%bs.
Definition tokenLength : nat := 32.

Definition nucleoAcceptHeader : bytes := "application/vnd.neato.nucleo.v1"%bs.
Definition nucleoHost : bytes := "nucleo.neatocloud.com:4443"%bs.
Definition timeFormat : bytes := "Mon, 02 Jan 2006 15:04:05 MST"%bs.
Definition idLength : nat := 16.

Definition credentialsPassRE : bytes := ".*neatorobotics.*/.*"%bs.

(** ** Data *)

(** An instant; only its formatted text is ever used. *)
Definition Time := Z.
Definition zero_Time : Time := 0.

(** [type reqID []byte]; [None] is the nil slice. *)
Definition reqID := option bytes.

(** The conversion [string(b)] of a possibly nil byte slice. *)
Definition string_of (b : option bytes) : bytes :=
  match b with
  | Some s => s
  | None => []
  end.

Record event := {
  event_Mode : Z;
  event_Day : Z;
  event_StartTime : bytes;
  event_BoundaryID : bytes
}.

Record Params := {
  Category : Z;
  Mode : Z;
  Modifier : Z;
  RobotSounds : bool;
  DirtbinAlert : bool;
  AllAlerts : bool;
  Leds : bool;
  ButtonClicks : bool;
  DirtbinAlertReminderInterval : Z;
  FilterChangeReminderInterval : Z;
  BrushChangeReminderInterval : Z;
  Clock24H : bool;
  Locale : bytes;
  AvailableLocales : option (list bytes);
  NavigationMode : Z;
  BoundaryID : bytes;
  SpotWidth : Z;
  SpotHeight : Z;
  Events : option (list event)
}.

(** [Params *Params] is [None] for a nil pointer. *)
Record request := {
  ReqID : reqID;
  Cmd : bytes;
  request_Params : option Params
}.

(** [Response]: the fields read by the package, and the decoded state and
    telemetry ([Data], [State], [Action], [Error], [Alert], [Cleaning],
    [Details], [AvailableCommands], [AvailableServices], [Meta]) as one
    value of a type [T] that carries no behaviour. *)
Record Response (T : Type) := {
  Version : Z;
  Response_ReqID : reqID;
  Result : bytes;
  Telemetry : T
}.
Arguments Version {T} _.
Arguments Response_ReqID {T} _.
Arguments Result {T} _.
Arguments Telemetry {T} _.

Record Robot := {
  Serial : bytes;
  Prefix : bytes;
  Name : bytes;
  Model : bytes;
  SecretKey : bytes;
  PurchasedAt : Time;
  LinkedAt : Time;
  Traits : option (list bytes)
}.

Record Session := {
  AccessToken : bytes;
  CurrentTime : Time;
  client : http.Client
}.

Definition zero_Session : Session :=
  {| AccessToken := []; CurrentTime := zero_Time; client := http.zero_Client |}.

Record token := { value : bytes }.

Record credentials := { Username : bytes; Password : bytes }.

(** ** The world around the package *)

(** The receiver of a [Do] call: the [client] field of the [Session] at a
    heap address, or a [http.Client] local to the calling function. *)
Inductive client_ref :=
| SessionClient (addr : nat)
| LocalClient.

Record sent_request := {
  through : client_ref;
  client_value : http.Client;
  sent_req : http.Request
}.

(** Go heap cells holding [Session] values (a [*Session] is an address;
    an address outside the heap behaves as the nil pointer), the requests
    handed to the transport so far, and the number of reads from the
    entropy source. *)
Record State := {
  heap : gmap nat Session;
  sent : list sent_request;
  reads : nat
}.

(** What [json.Decoder.Decode] does to a [Session]: the exported fields it
    assigns before it either finishes or stops with an error.  The
    unexported [client] field is out of its reach. *)
Record SessionDecode := {
  dec_access_token : option bytes;
  dec_current_time : option Time;
  dec_error : option error
}.

Definition apply_decode (d : SessionDecode) (s : Session) : Session :=
  {| AccessToken := default (AccessToken s) (dec_access_token d);
     CurrentTime := default (CurrentTime s) (dec_current_time d);
     client := client s |}.

(** Everything outside the process. *)
Record Env := {
  User : Type;
  Map : Type;
  MapsResult : Type;
  ResponseData : Type;
  (** [strings.Map(unicode.ToLower, s)] for non-ASCII [s] *)
  unicode_lower : bytes -> bytes;
  (** [crypto/rand.Reader] *)
  rand_Reader : State -> entropy;
  (** [pass.Get] of [github.com/richlj/passlib] *)
  pass_Get : State -> bytes -> result credentials;
  (** [time.Now()] and [Time.Format] *)
  time_Now : State -> Time;
  time_Format : Time -> bytes -> bytes;
  (** the error of [url.Parse] inside [http.NewRequest], if any *)
  url_Parse_error : bytes -> option error;
  (** the network, as seen through [Client.Do] *)
  client_Do : State -> http.Client -> http.Request -> result http.Response;
  (** [encoding/json] decoding of response bodies *)
  decode_Session : bytes -> SessionDecode;
  decode_Response : bytes -> result (Response ResponseData);
  decode_User : bytes -> result User;
  decode_Map : bytes -> result Map;
  decode_MapsResult : bytes -> result MapsResult;
  decode_Robots : bytes -> result (option (list Robot));
  decode_Maps : bytes -> result (option (list Map))
}.

(** ** Effects: state passing with early exit on error or panic *)

Definition M (A : Type) : Type := State -> result A * State.

Definition ret {A} (a : A) : M A := fun s => (Ok a, s).

Definition bind {A B} (m : M A) (k : A -> M B) : M B :=
  fun s =>
    match m s with
    | (Ok a, s') => k a s'
    | (Err e, s') => (Err e, s')
    | (Panic, s') => (Panic, s')
    end.

Notation "x <- m ;; k" := (bind m (fun x => k))
  (at level 100, m at next level, right associativity).

Definition lift {A} (r : result A) : M A := fun s => (r, s).

(** Dereferencing a [*Session]. *)
Definition load (p : nat) : M Session :=
  fun s => match heap s !! p with
           | Some v => (Ok v, s)
           | None => (Panic, s)
           end.

Definition store (p : nat) (v : Session) : M unit :=
  fun s => (Ok tt, {| heap := <[p := v]> (heap s); sent := sent s;
                      reads := reads s |}).

(** [&result] for a local [result] that escapes. *)
Definition alloc (v : Session) : M nat :=
  fun s => let p := fresh (dom (heap s)) in
           (Ok p, {| heap := <[p := v]> (heap s); sent := sent s;
                     reads := reads s |}).

Section Package.

Context (E : Env).

(** *** Primitive interactions *)

Definition crypto_rand_Read (n : nat) : M bytes :=
  fun s => (rand_Read (rand_Reader E s) n,
            {| heap := heap s; sent := sent s; reads := S (reads s) |}).

(** [http.NewRequest] with one of the method constants used here: it
    fails only if [net/url] rejects the URL text. *)
Definition http_NewRequest (method urlStr : bytes) (body : option bytes)
  : result http.Request :=
  match url_Parse_error E urlStr with
  | Some e => Err e
  | None => Ok {| http.Method := method; http.URL := urlStr;
                  http.Header := ∅; http.Body := body |}
  end.

Definition Header_Set (req : http.Request) (key v : bytes) : http.Request :=
  {| http.Method := http.Method req; http.URL := http.URL req;
     http.Header := http.Header_Set (http.Header req) key v;
     http.Body := http.Body req |}.

(** [c.Do(req)]: the request is handed to the transport, which answers
    or fails. *)
Definition Do (r : client_ref) (c : http.Client) (req : http.Request)
  : M http.Response :=
  fun s => (client_Do E s c req,
            {| heap := heap s;
               sent := sent s ++ [ {| through := r; client_value := c;
                                      sent_req := req |} ];
               reads := reads s |}).

Definition now_Format (layout : bytes) : M bytes :=
  fun s => (Ok (time_Format E (time_Now E s) layout), s).

(** *** Credentials *)

Definition getCredentialsPass : M credentials :=
  fun s => match pass_Get E s credentialsPassRE with
           | Ok a => (Ok {| Username := Username a; Password := Password a |}, s)
           | Err e => (Err e, s)
           | Panic => (Panic, s)
           end.

Definition getCredentials : M credentials := getCredentialsPass.

(** *** beehive.go *)

(** [hex.Encode] into a buffer made by [make]. *)
Definition hex_Encode_into (dst src : bytes) : bytes :=
  hex_Encode src ++ skipn (length (hex_Encode src)) dst.

Definition newToken : M token :=
  key <- crypto_rand_Read tokenLength ;;
  let hexKey := repeat x00 (hex_EncodedLen (length key)) in
  ret {| value := hex_Encode_into hexKey key |}.

(** [String] on [*token]; [None] is the nil receiver. *)
Definition token_String (t : option token) : bytes :=
  match t with
  | Some t => value t
  | None => []
  end.

Definition queryValues (t : token) : M (gmap bytes (list bytes)) :=
  c <- getCredentials ;;
  ret (<[ "platform"%bs := [platform] ]>
      (<[ "token"%bs := [token_String (Some t)] ]>
      (<[ "email"%bs := [Username c] ]>
      (<[ "password"%bs := [Password c] ]> ∅)))).

Definition sessions_URL (v : gmap bytes (list bytes)) : bytes :=
  url.String {| url.Scheme := scheme; url.Host := beehiveHost;
                url.Path := "sessions"%bs; url.RawQuery := url.Encode v |}.

(** [NewSession]; the result is the address of the new [Session]. *)
Definition NewSession : M nat :=
  t <- newToken ;;
  v <- queryValues t ;;
  req <- lift (http_NewRequest http.MethodPost (sessions_URL v) None) ;;
  let req := Header_Set req "Accept"%bs nucleoAcceptHeader in
  let client := http.zero_Client in
  resp <- Do LocalClient client req ;;
  let d := decode_Session E (http.ResponseBody resp) in
  let result := apply_decode d zero_Session in
  match dec_error d with
  | Some e => lift (Err e)
  | None => alloc result
  end.

(** [Refresh] on [*Session]; [s] is the receiver's address. *)
Definition Refresh (s : nat) : M unit :=
  t <- newToken ;;
  v <- queryValues t ;;
  req <- lift (http_NewRequest http.MethodPost (sessions_URL v) None) ;;
  let req := Header_Set req "Accept"%bs nucleoAcceptHeader in
  cur <- load s ;;
  resp <- Do (SessionClient s) (client cur) req ;;
  let d := decode_Session E (http.ResponseBody resp) in
  cur' <- load s ;;
  _ <- store s (apply_decode d cur') ;;
  match dec_error d with
  | Some e => lift (Err e)
  | None => ret tt
  end.

Definition bearer (s : Session) : bytes := "Bearer "%bs ++ AccessToken s.

Definition setHeaders (s : nat) (req : http.Request) : M http.Request :=
  let req := Header_Set req "Accept"%bs beehiveAcceptHeader in
  cur <- load s ;;
  ret (Header_Set req "Authorization"%bs (bearer cur)).

(** [exec] on [*Session] *)
Definition Session_exec (s : nat) (method path : bytes) : M http.Response :=
  req <- lift (http_NewRequest method
           (url.String {| url.Scheme := "https"%bs; url.Host := beehiveHost;
                          url.Path := path; url.RawQuery := [] |}) None) ;;
  req <- setHeaders s req ;;
  cur <- load s ;;
  Do (SessionClient s) (client cur) req.

Definition GetRobotMap (s : nat) (robot id : bytes) : M (Map E) :=
  r <- Session_exec s "GET"%bs
         (path.Join ["users/me/robots"%bs; robot; "maps"%bs; id]) ;;
  lift (decode_Map E (http.ResponseBody r)).

Definition GetUser (s : nat) : M (User E) :=
  r <- Session_exec s "GET"%bs "users/me"%bs ;;
  lift (decode_User E (http.ResponseBody r)).

Definition ListRobots (s : nat) : M (option (list Robot)) :=
  r <- Session_exec s "GET"%bs "users/me/robots"%bs ;;
  lift (decode_Robots E (http.ResponseBody r)).

Definition ListRobotMaps (s : nat) (robot : bytes) : M (MapsResult E) :=
  r <- Session_exec s "GET"%bs
         (path.Join ["users/me/robots"%bs; robot; "maps"%bs]) ;;
  lift (decode_MapsResult E (http.ResponseBody r)).

Definition ListRobotPersistentMaps (s : nat) (robot : bytes)
  : M (option (list (Map E))) :=
  r <- Session_exec s "GET"%bs
         (path.Join ["users/me/robots"%bs; robot; "persistent_maps"%bs]) ;;
  lift (decode_Maps E (http.ResponseBody r)).

End Package.

(** *** nucleo.go *)

(** [json.Marshal] at the struct types of a request, following the field
    tags.  None of the field types can make the encoder fail, so the
    error that [signingString] drops and [exec] checks never occurs. *)
Definition marshal_event (e : event) : bytes :=
  json.encodeStruct
    [ json.field "mode"%bs (json.encodeInt (event_Mode e));
      json.field "day"%bs (json.encodeInt (event_Day e));
      json.field "startTime"%bs (json.appendString (event_StartTime e));
      json.field "boundaryId"%bs (json.appendString (event_BoundaryID e)) ].

Definition marshal_Params (p : Params) : bytes :=
  json.encodeStruct
    [ json.field "category"%bs (json.encodeInt (Category p));
      json.field "mode"%bs (json.encodeInt (Mode p));
      json.field "modifier"%bs (json.encodeInt (Modifier p));
      json.field "robotSounds"%bs (json.encodeBool (RobotSounds p));
      json.field "dirtbinAlert"%bs (json.encodeBool (DirtbinAlert p));
      json.field "allAlerts"%bs (json.encodeBool (AllAlerts p));
      json.field "leds"%bs (json.encodeBool (Leds p));
      json.field "buttonClicks"%bs (json.encodeBool (ButtonClicks p));
      json.field "dirtbinAlertReminderInterval"%bs
        (json.encodeInt (DirtbinAlertReminderInterval p));
      json.field "filterChangeReminderInterval"%bs
        (json.encodeInt (FilterChangeReminderInterval p));
      json.field "brushChangeReminderInterval"%bs
        (json.encodeInt (BrushChangeReminderInterval p));
      json.field "clock24h"%bs (json.encodeBool (Clock24H p));
      json.field "locale"%bs (json.appendString (Locale p));
      json.field "availableLocales"%bs
        (json.encodeSlice json.appendString (AvailableLocales p));
      json.field "navigationMode"%bs (json.encodeInt (NavigationMode p));
      json.field "boundaryId"%bs (json.appendString (BoundaryID p));
      json.field "spotWidth"%bs (json.encodeInt (SpotWidth p));
      json.field "spotHeight"%bs (json.encodeInt (SpotHeight p));
      json.field "events"%bs (json.encodeSlice marshal_event (Events p)) ].

Definition marshal_request (a : request) : bytes :=
  json.encodeStruct
    ([ json.field "reqId"%bs (json.encodeByteSlice (ReqID a));
       json.field "cmd"%bs (json.appendString (Cmd a)) ]
     ++ match request_Params a with
        | Some p => [ json.field "params"%bs (marshal_Params p) ]
        | None => []
        end).

Definition newline : bytes := [x0a].

Section Nucleo.

Context (E : Env).

(** [fmt.Sprintf] with the verbs [%s\n%s\n%s]. *)
Definition signingString (r : Robot) (req : request) (ts : bytes) : bytes :=
  let a := marshal_request req in
  strings_ToLower (unicode_lower E) (Serial r) ++ newline ++ ts ++ newline ++ a.

Definition sign (r : Robot) (req : request) (ts : bytes) : bytes :=
  let h := hmac.New (SecretKey r) in
  let h := hmac.Write h (signingString r req ts) in
  hmac.Sum h [].

(** [fmt.Sprintf] with the verb [%x] prints a byte slice in lower-case
    hexadecimal. *)
Definition authorization (r : request) (o : Robot) (req : http.Request)
           (ts : bytes) : http.Request :=
  Header_Set req "Authorization"%bs ("NEATOAPP "%bs ++ hex_Encode (sign o r ts)).

Definition addHeaders (r : request) (req : http.Request) (o : Robot)
  : M http.Request :=
  ts <- now_Format E timeFormat ;;
  let req := Header_Set req "Accept"%bs nucleoAcceptHeader in
  let req := Header_Set req "Date"%bs ts in
  ret (authorization r o req ts).

Definition checkID (resp : Response (ResponseData E)) (a : request)
  : result (Response (ResponseData E)) :=
  if decide (string_of (Response_ReqID resp) = string_of (ReqID a))
  then Ok resp
  else Err "conflicting ReqID value"%bs.

Definition messages_URL (r : Robot) : bytes :=
  url.String {| url.Scheme := scheme; url.Host := nucleoHost;
                url.Path := path.Join [ "vendors/neato/robots"%bs; Serial r;
                                        "messages"%bs ];
                url.RawQuery := [] |}.

(** [exec] on [*Robot] *)
Definition Robot_exec (r : Robot) (a : request)
  : M (Response (ResponseData E)) :=
  let b := marshal_request a in
  req <- lift (http_NewRequest E http.MethodPost (messages_URL r) (Some b)) ;;
  req <- addHeaders a req r ;;
  let client := http.zero_Client in
  resp <- Do E LocalClient client req ;;
  result <- lift (decode_Response E (http.ResponseBody resp)) ;;
  lift (checkID result a).

Definition newID : M reqID :=
  raw <- crypto_rand_Read E idLength ;;
  let result := repeat x00 (hex_EncodedLen (length raw)) in
  ret (Some (hex_Encode_into result raw)).

Definition newRequest (cmd : bytes) (p : option Params) : M request :=
  id <- newID ;;
  ret {| ReqID := id; Cmd := cmd; request_Params := p |}.

Definition FindMe (r : Robot) (a : option Params)
  : M (Response (ResponseData E)) :=
  req <- newRequest "findMe"%bs a ;;
  Robot_exec r req.

Definition GetGeneralInfo (r : Robot) (a : option Params)
  : M (Response (ResponseData E)) :=
  req <- newRequest "getGeneralInfo"%bs a ;;
  Robot_exec r req.

Definition StartCleaning (r : Robot) (a : option Params)
  : M (Response (ResponseData E)) :=
  req <- newRequest "startCleaning"%bs a ;;
  Robot_exec r req.

Definition StopCleaning (r : Robot) (a : option Params)
  : M (Response (ResponseData E)) :=
  req <- newRequest "stopCleaning"%bs a ;;
  Robot_exec r req.

Definition PauseCleaning (r : Robot) (a : option Params)
  : M (Response (ResponseData E)) :=
  req <- newRequest "pauseCleaning"%bs a ;;
  Robot_exec r req.

Definition ResumeCleaning (r : Robot) (a : option Params)
  : M (Response (ResponseData E)) :=
  req <- newRequest "resumeCleaning"%bs a ;;
  Robot_exec r req.

Definition SendToBase (r : Robot) (a : option Params)
  : M (Response (ResponseData E)) :=
  req <- newRequest "sendToBase"%bs a ;;
  Robot_exec r req.

Definition GetLocalStats (r : Robot) (a : option Params)
  : M (Response (ResponseData E)) :=
  req <- newRequest "getLocalStats"%bs a ;;
  Robot_exec r req.

Definition GetRobotManualCleaningInfo (r : Robot) (a : option Params)
  : M (Response (ResponseData E)) :=
  req <- newRequest "getRobotManualCleaningInfo"%bs a ;;
  Robot_exec r req.

Definition SetMapBoundaries (r : Robot) (a : option Params)
  : M (Response (ResponseData E)) :=
  req <- newRequest "setMapBoundaries"%bs a ;;
  Robot_exec r req.

Definition GetMapBoundaries (r : Robot) (a : option Params)
  : M (Response (ResponseData E)) :=
  req <- newRequest "getMapBoundaries"%bs a ;;
  Robot_exec r req.

Definition StartPersistentMapExploration (r : Robot) (a : option Params)
  : M (Response (ResponseData E)) :=
  req <- newRequest "startPersistentMapExploration"%bs a ;;
  Robot_exec r req.

Definition GetPreferences (r : Robot) (a : option Params)
  : M (Response (ResponseData E)) :=
  req <- newRequest "getPreferences"%bs a ;;
  Robot_exec r req.

Definition SetPreferences (r : Robot) (a : option Params)
  : M (Response (ResponseData E)) :=
  req <- newRequest "setPreferences"%bs a ;;
  Robot_exec r req.

Definition GetSchedule (r : Robot) (a : option Params)
  : M (Response (ResponseData E)) :=
  req <- newRequest "getSchedule"%bs a ;;
  Robot_exec r req.

Definition SetSchedule (r : Robot) (a : option Params)
  : M (Response (ResponseData E)) :=
  req <- newRequest "setSchedule"%bs a ;;
  Robot_exec r req.

Definition EnableSchedule (r : Robot) (a : option Params)
  : M (Response (ResponseData E)) :=
  req <- newRequest "enableSchedule"%bs a ;;
  Robot_exec r req.

Definition DisableSchedule (r : Robot) (a : option Params)
  : M (Response (ResponseData E)) :=
  req <- newRequest "disableSchedule"%bs a ;;
  Robot_exec r req.

Definition GetRobotInfo (r : Robot) (a : option Params)
  : M (Response (ResponseData E)) :=
  req <- newRequest "getRobotInfo"%bs a ;;
  Robot_exec r req.

End Nucleo.

(** ** Derived notions used to state the properties *)

(** The request that [exec] on [*Robot] has built when it reaches
    [client.Do]: lines 153 to 167 of [nucleo.go]. *)
Definition Robot_exec_request (E : Env) (r : Robot) (a : request)
  : M http.Request :=
  req <- lift (http_NewRequest E http.MethodPost (messages_URL r)
                 (Some (marshal_request a))) ;;
  addHeaders E a req r.

(** The shape shared by the nineteen command methods of [*Robot]. *)
Definition command (E : Env) (name : bytes) (r : Robot) (a : option Params)
  : M (Response (ResponseData E)) :=
  req <- newRequest E name a ;;
  Robot_exec E r req.

(** The request that [NewSession] and [Refresh] have built when they reach
    [Do]. *)
Definition sessions_request (E : Env) : M http.Request :=
  t <- newToken E ;;
  v <- queryValues E t ;;
  req <- lift (http_NewRequest E http.MethodPost (sessions_URL v) None) ;;
  ret (Header_Set req "Accept"%bs nucleoAcceptHeader).

(** A world for closed examples: fixed entropy, credentials, transport
    answer and decoders; the clock shows [ts]. *)
Definition stub_Env (rnd : entropy) (creds : result credentials)
           (ts : bytes) (answer : result http.Response)
           (decS : SessionDecode) (decR : result (Response unit)) : Env :=
  {| User := unit; Map := unit; MapsResult := unit; ResponseData := unit;
     unicode_lower := fun s => s;
     rand_Reader := fun _ => rnd;
     pass_Get := fun _ _ => creds;
     time_Now := fun _ => 0;
     time_Format := fun _ _ => ts;
     url_Parse_error := fun _ => None;
     client_Do := fun _ _ _ => answer;
     decode_Session := fun _ => decS;
     decode_Response := fun _ => decR;
     decode_User := fun _ => Ok tt;
     decode_Map := fun _ => Ok tt;
     decode_MapsResult := fun _ => Ok tt;
     decode_Robots := fun _ => Ok None;
     decode_Maps := fun _ => Ok None |}.

Definition empty_State : State := {| heap := ∅; sent := []; reads := 0 |}.

Definition zero_entropy : entropy := EntropyStream (fun _ => x00).

Definition golden_Robot : Robot :=
  {| Serial := "ABC123"%bs; Prefix := []; Name := []; Model := [];
     SecretKey := "deadbeef"%bs; PurchasedAt := 0; LinkedAt := 0;
     Traits := None |}.

Definition golden_request : request :=
  {| ReqID := Some (hex_Encode (repeat x00 16)); Cmd := "findMe"%bs;
     request_Params := None |}.

(** A transport stub whose answer decodes to a response carrying the
    identifier [id]. *)
Definition answering_Env (id : reqID) : Env :=
  stub_Env zero_entropy (Err []) timeFormat
    (Ok {| http.StatusCode := 200; http.ResponseBody := [] |})
    {| dec_access_token := None; dec_current_time := None; dec_error := None |}
    (Ok {| Version := 1; Response_ReqID := id; Result := "ok"%bs;
           Telemetry := tt |}).

Definition request_of {A} (r : result A * State) (d : A) : A :=
  match fst r with
  | Ok a => a
  | _ => d
  end.

Definition blank_Request : http.Request :=
  {| http.Method := []; http.URL := []; http.Header := ∅; http.Body := None |}.

(** The URL of a Beehive resource, as [exec] on [*Session] builds it. *)
Definition beehive_URL (p : bytes) : bytes :=
  url.String {| url.Scheme := "https"%bs; url.Host := beehiveHost;
                url.Path := p; url.RawQuery := [] |}.

(** What a Beehive data call leaves in the log: nothing when the request
    could not be built, otherwise one request, through the client of the
    session at [p], to the resource at [rpath], with the [Accept] header of
    Beehive and the bearer token of the session. *)
Definition one_bearer_request (E : Env) (p : nat) (cur : Session)
           (rpath : bytes) (s s' : State) : Prop :=
  match url_Parse_error E (beehive_URL rpath) with
  | Some _ => sent s' = sent s
  | None =>
      exists req,
        sent s' = sent s ++ [ {| through := SessionClient p;
                                 client_value := client cur;
                                 sent_req := req |} ]
        /\ http.Method req = "GET"%bs
        /\ http.URL req = beehive_URL rpath
        /\ http.Header req !! "Authorization"%bs
           = Some [ "Bearer "%bs ++ AccessToken cur ]
        /\ http.Header req !! "Accept"%bs = Some [ beehiveAcceptHeader ]
  end.

(** The state after one read from the entropy source. *)
Definition after_read (s : State) : State :=
  {| heap := heap s; sent := sent s; reads := S (reads s) |}.

(** The log entry of a request. *)
Definition entry (r : client_ref) (c : http.Client) (req : http.Request)
  : sent_request :=
  {| through := r; client_value := c; sent_req := req |}.

(** The log after a request has gone out. *)
Definition after_send (s : State) (x : sent_request) : State :=
  {| heap := heap s; sent := sent s ++ [x]; reads := reads s |}.

Definition some_Session : Session :=
  {| AccessToken := "0a1b2c"%bs; CurrentTime := 7;
     client := {| http.Transport := Some 1%nat; http.CheckRedirect := None;
                  http.Jar := None; http.Timeout := 30 |} |}.

Definition one_session_State : State :=
  {| heap := {[ 1%nat := some_Session ]}; sent := []; reads := 0 |}.

Definition stub_credentials : credentials :=
  {| Username := "a@b.com"%bs; Password := "secret"%bs |}.

(** A Beehive stub: the provider answers [stub_credentials] and the
    session endpoint a body that decodes to a new token and time. *)
Definition session_Env : Env :=
  stub_Env zero_entropy (Ok stub_credentials) timeFormat
    (Ok {| http.StatusCode := 200; http.ResponseBody := [] |})
    {| dec_access_token := Some "ffee"%bs; dec_current_time := Some 9;
       dec_error := None |}
    (Err []).

(** The body that a reading of [reqId] as the identifier's own text would
    put on the wire: the envelope's identifier as a JSON string. *)
Definition body_with_plain_reqId (a : request) : bytes :=
  json.encodeStruct
    ([ json.field "reqId"%bs (json.appendString (string_of (ReqID a)));
       json.field "cmd"%bs (json.appendString (Cmd a)) ]
     ++ match request_Params a with
        | Some p => [ json.field "params"%bs (marshal_Params p) ]
        | None => []
        end).

(** The path that a serial used as it is would give. *)
Definition path_with_serial (serial : bytes) : bytes :=
  "vendors/neato/robots/"%bs ++ serial ++ "/messages"%bs.

(** The elements of a slash-separated path, empty ones included. *)
Fixpoint split_slash (s : bytes) : list bytes :=
  match s with
  | [] => [[]]
  | c :: r =>
      if Byte.eqb c path.slash then [] :: split_slash r
      else match split_slash r with
           | e :: es => (c :: e) :: es
           | [] => [[c]]
           end
  end.

(** A path element that [path.Clean] keeps: not empty, not [.], not [..]. *)
Definition plain_element (e : bytes) : bool :=
  url.nonempty e
  && forallb (fun c => negb (Byte.eqb c path.slash)) e
  && negb (bool_decide (e = "."%bs))
  && negb (bool_decide (e = ".."%bs)).

(** A serial that is a relative path in clean form: one element, or
    several separated by single slashes, each of them plain. *)
Definition clean_relative (s : bytes) : bool :=
  forallb plain_element (split_slash s).

Definition dotdot_Robot : Robot :=
  {| Serial := ".."%bs; Prefix := []; Name := []; Model := [];
     SecretKey := "deadbeef"%bs; PurchasedAt := 0; LinkedAt := 0;
     Traits := None |}.

Definition lowercase_Robot : Robot :=
  {| Serial := "abc123"%bs; Prefix := []; Name := []; Model := [];
     SecretKey := "deadbeef"%bs; PurchasedAt := 0; LinkedAt := 0;
     Traits := None |}.

Definition other_request : request :=
  {| ReqID := Some (hex_Encode (repeat x01 16)); Cmd := "getRobotInfo"%bs;
     request_Params := None |}.

(** ** Reading the encoder's output back *)

Definition is_digit (c : byte) : bool := byte_in 48 57 c.

(** What may follow a number in the encoder's output: anything but a
    digit. *)
Definition number_stop (r : bytes) : Prop :=
  match r with
  | [] => True
  | c :: _ => is_digit c = false
  end.

(** The position of a character in the base64 alphabet. *)
Fixpoint position (c : byte) (table : bytes) : Z :=
  match table with
  | [] => 0
  | x :: t => if Byte.eqb c x then 0 else 1 + position c t
  end.

(** The source character behind the first character written by
    [json.step], and the output that follows it; [None] at the closing
    quote and on text the encoder never writes. *)
Definition untoken (o : bytes) : option (bytes * bytes) :=
  match o with
  | [] => None
  | c :: o1 =>
      if Byte.eqb c json.quote then None
      else if Byte.eqb c json.backslash then
        match o1 with
        | [] => None
        | k :: o2 =>
            if Byte.eqb k json.backslash || Byte.eqb k json.quote
            then Some ([k], o2)
            else if Byte.eqb k "b"%byte then Some ([x08], o2)
            else if Byte.eqb k "f"%byte then Some ([x0c], o2)
            else if Byte.eqb k "n"%byte then Some ([x0a], o2)
            else if Byte.eqb k "r"%byte then Some ([x0d], o2)
            else if Byte.eqb k "t"%byte then Some ([x09], o2)
            else if Byte.eqb k "u"%byte then
              match o2 with
              | h1 :: h2 :: h3 :: h4 :: o3 =>
                  if Byte.eqb h1 "0"%byte && Byte.eqb h2 "0"%byte then
                    match fromHexChar h3, fromHexChar h4 with
                    | Some x, Some y => Some ([byte_of_Z (16 * x + y)], o3)
                    | _, _ => None
                    end
                  else if Byte.eqb h1 "2"%byte && Byte.eqb h2 "0"%byte
                          && Byte.eqb h3 "2"%byte then
                    if Byte.eqb h4 "8"%byte then Some ([xe2; x80; xa8], o3)
                    else if Byte.eqb h4 "9"%byte then Some ([xe2; x80; xa9], o3)
                    else None
                  else None
              | _ => None
              end
            else None
        end
      else if byte_to_Z c <? 128 then Some ([c], o1)
      else
        let n := Z.to_nat (Z.land (utf8.first (byte_to_Z c)) 7) in
        Some (firstn n o, skipn n o)
  end.

(** The string behind the encoder's output up to the closing quote, and
    what follows that quote. *)
Fixpoint unloop (fuel : nat) (o : bytes) : option (bytes * bytes) :=
  match fuel with
  | O => None
  | S f =>
      match untoken o with
      | Some (tok, rest) =>
          match unloop f rest with
          | Some (s, r) => Some (tok ++ s, r)
          | None => None
          end
      | None =>
          match o with
          | c :: o1 => if Byte.eqb c json.quote then Some ([], o1) else None
          | [] => None
          end
      end
  end.

(** The strings of an envelope are well-formed UTF-8. *)
Definition valid_event (e : event) : bool :=
  utf8.Valid (event_StartTime e) && utf8.Valid (event_BoundaryID e).

Definition valid_Params (p : Params) : bool :=
  utf8.Valid (Locale p)
  && match AvailableLocales p with
     | Some l => forallb utf8.Valid l
     | None => true
     end
  && utf8.Valid (BoundaryID p)
  && match Events p with
     | Some l => forallb valid_event l
     | None => true
     end.

Definition valid_request (a : request) : bool :=
  utf8.Valid (Cmd a)
  && match request_Params a with
     | Some p => valid_Params p
     | None => true
     end.

(** The text of a member name in an object: ["name":]. *)
Definition member (name : bytes) : bytes :=
  json.quote :: name ++ [json.quote; ":"%byte].

(** ** Further notions used to state properties *)

Definition failing_transport_Env : Env :=
  stub_Env zero_entropy (Ok stub_credentials) timeFormat
    (Err "connection refused"%bs)
    {| dec_access_token := None; dec_current_time := None; dec_error := None |}
    (Err []).

(** The outcome of a call that stopped before anything was sent: its
    result, with the request log and the sessions as they were. *)
Definition stopped {A} (r : result A * State) (out : result A) (s : State)
  : Prop :=
  fst r = out /\ sent (snd r) = sent s /\ heap (snd r) = heap s.


(** What a Beehive data call on a nil session comes to: the state is as
    it was, and the result is the error of [http.NewRequest] if the URL of
    the resource is rejected, the nil dereference otherwise. *)
Definition refused (E : Env) {A} (r : result A * State) (rpath : bytes)
           (s : State) : Prop :=
  snd r = s
  /\ fst r = match url_Parse_error E (beehive_URL rpath) with
             | Some e => Err e
             | None => Panic
             end.

(** The characters that [net/url] leaves or writes in an escaped path,
    and in an escaped query component. *)
Definition path_text (c : byte) : bool :=
  url.alnum c || url.is_one_of "-_.~$&+,/:;=@%*"%bs c.

Definition query_text (c : byte) : bool :=
  url.alnum c || url.is_one_of "-_.~%+"%bs c.

(** A call that sent nothing, or one request whose URL is [prefix]
    followed by path characters only. *)
Definition sends_only_to (prefix : bytes) (s s' : State) : Prop :=
  sent s' = sent s
  \/ exists x rest,
       sent s' = sent s ++ [x]
       /\ http.URL (sent_req x) = prefix ++ rest
       /\ forallb path_text rest = true.

(** A call that sent nothing because [net/url] rejected [u], or else
    exactly one request, through the client [c], with the given method
    and URL. *)
Definition one_request_to (E : Env) (r : client_ref) (c : http.Client)
           (method u : bytes) (s s' : State) : Prop :=
  match url_Parse_error E u with
  | Some _ => sent s' = sent s
  | None =>
      exists req,
        sent s' = sent s ++ [entry r c req]
        /\ http.Method req = method
        /\ http.URL req = u
  end.

(** The nineteen command methods of [*Robot], each with the name it is
    expected to put in the [cmd] member of the envelope. *)
Definition methods (E : Env)
  : list (bytes * (Robot -> option Params -> M (Response (ResponseData E)))) :=
  [ ("findMe"%bs, FindMe E);
    ("getGeneralInfo"%bs, GetGeneralInfo E);
    ("startCleaning"%bs, StartCleaning E);
    ("stopCleaning"%bs, StopCleaning E);
    ("pauseCleaning"%bs, PauseCleaning E);
    ("resumeCleaning"%bs, ResumeCleaning E);
    ("sendToBase"%bs, SendToBase E);
    ("getLocalStats"%bs, GetLocalStats E);
    ("getRobotManualCleaningInfo"%bs, GetRobotManualCleaningInfo E);
    ("setMapBoundaries"%bs, SetMapBoundaries E);
    ("getMapBoundaries"%bs, GetMapBoundaries E);
    ("startPersistentMapExploration"%bs, StartPersistentMapExploration E);
    ("getPreferences"%bs, GetPreferences E);
    ("setPreferences"%bs, SetPreferences E);
    ("getSchedule"%bs, GetSchedule E);
    ("setSchedule"%bs, SetSchedule E);
    ("enableSchedule"%bs, EnableSchedule E);
    ("disableSchedule"%bs, DisableSchedule E);
    ("getRobotInfo"%bs, GetRobotInfo E) ].

(** A call that sent nothing because [net/url] rejected the URL of the
    robot's messages, or else posted exactly one request there, through a
    zero-valued client, with the JSON text of the envelope [a] as body. *)
Definition posts_envelope (E : Env) (r : Robot) (a : request) (s s' : State)
  : Prop :=
  match url_Parse_error E (messages_URL r) with
  | Some _ => sent s' = sent s
  | None =>
      exists req,
        sent s' = sent s ++ [entry LocalClient http.zero_Client req]
        /\ http.Method req = "POST"%bs
        /\ http.URL req = messages_URL r
        /\ http.Body req = Some (marshal_request a)
  end.

(** The envelope of a command: the identifier is the hexadecimal text of
    the sixteen bytes read from the entropy source. *)
Definition envelope (next : nat -> byte) (name : bytes) (a : option Params)
  : request :=
  {| ReqID := Some (hex_Encode (map next (seq 0 16)));
     Cmd := name; request_Params := a |}.

Definition empty_serial_Robot : Robot :=
  {| Serial := []; Prefix := []; Name := []; Model := [];
     SecretKey := "deadbeef"%bs; PurchasedAt := 0; LinkedAt := 0;
     Traits := None |}.

Definition trailing_slash_Robot : Robot :=
  {| Serial := "ABC123/"%bs; Prefix := []; Name := []; Model := [];
     SecretKey := "deadbeef"%bs; PurchasedAt := 0; LinkedAt := 0;
     Traits := None |}.

(** A byte that is neither a control character nor one of the three
    characters that the encoder escapes for HTML. *)
Definition body_byte (b : byte) : bool :=
  (0x20 <=? byte_to_Z b) && negb (url.is_one_of "<>&"%bs b).

(** A Beehive stub whose session endpoint answers a body that the
    decoder rejects after it has read the token. *)
Definition half_decoded_Env : Env :=
  stub_Env zero_entropy (Ok stub_credentials) timeFormat
    (Ok {| http.StatusCode := 200; http.ResponseBody := [] |})
    {| dec_access_token := Some "ffee"%bs; dec_current_time := None;
       dec_error := Some "parsing time"%bs |}
    (Err []).

(** A Nucleo stub that echoes the identifier drawn from [zero_entropy]. *)
Definition echoing_Env : Env :=
  answering_Env (Some (hex_Encode (repeat x00 16))).

(** The robot of the golden example under another name, model and
    prefix, and with traits. *)
Definition renamed_Robot : Robot :=
  {| Serial := "ABC123"%bs; Prefix := "bot"%bs; Name := "Hoover"%bs;
     Model := "BotVacD7Connected"%bs; SecretKey := "deadbeef"%bs;
     PurchasedAt := 5; LinkedAt := 6; Traits := Some ["maps"%bs] |}.

(** * Properties *)

(** ** Library models: sanity and basic facts *)

Example sha256_abc :
  hex_Encode (sha256.Sum256 "abc"%bs)
  = "ba7816bf8f01cfea414140de5dae2223b00361a396177a9cb410ff61f20015ad"%bs.
Proof. vm_compute. reflexivity. Qed.

Example sha256_empty :
  hex_Encode (sha256.Sum256 [])
  = "e3b0c44298fc1c149afbf4c8996fb92427ae41e4649b934ca495991b7852b855"%bs.
Proof. vm_compute. reflexivity. Qed.

(** RFC 4231, test case 2. *)
Example hmac_sha256_rfc4231_2 :
  hex_Encode (HMAC_SHA256 "Jefe"%bs "what do ya want for nothing?"%bs)
  = "5bdcc146bf60754e6a042426089575c75a003f089d2739839dec58b964ec3843"%bs.
Proof. vm_compute. reflexivity. Qed.

Lemma hex_byte_spec (b : byte) :
  let hi := index hextable (Z.shiftr (byte_to_Z b) 4) in
  let lo := index hextable (Z.land (byte_to_Z b) 15) in
  is_lower_hex hi = true /\ is_lower_hex lo = true
  /\ match fromHexChar hi, fromHexChar lo with
     | Some x, Some y => byte_of_Z (Z.lor (Z.shiftl x 4) y) = b
     | _, _ => False
     end.
Proof. destruct b; vm_compute; auto. Qed.

Lemma hex_Encode_cons (b : byte) (l : bytes) :
  hex_Encode (b :: l)
  = index hextable (Z.shiftr (byte_to_Z b) 4)
      :: index hextable (Z.land (byte_to_Z b) 15) :: hex_Encode l.
Proof. reflexivity. Qed.

Lemma hex_Encode_length (l : bytes) :
  length (hex_Encode l) = (2 * length l)%nat.
Proof.
  induction l as [|b l IH]; [reflexivity|].
  rewrite hex_Encode_cons. cbn [length]. lia.
Qed.

Lemma hex_Encode_lower (l : bytes) :
  forallb is_lower_hex (hex_Encode l) = true.
Proof.
  induction l as [|b l IH]; [reflexivity|].
  rewrite hex_Encode_cons. cbn [forallb].
  destruct (hex_byte_spec b) as (Hhi & Hlo & _).
  rewrite Hhi, Hlo, IH. reflexivity.
Qed.

Lemma hex_Decode_Encode (l : bytes) :
  hex_Decode (hex_Encode l) = Some l.
Proof.
  induction l as [|b l IH]; [reflexivity|].
  rewrite hex_Encode_cons. cbn [hex_Decode].
  destruct (hex_byte_spec b) as (_ & _ & Hd).
  destruct (fromHexChar _); [|contradiction].
  destruct (fromHexChar _); [|contradiction].
  rewrite IH, Hd. reflexivity.
Qed.

Lemma hex_Encode_into_make (src : bytes) :
  hex_Encode_into (repeat x00 (hex_EncodedLen (length src))) src
  = hex_Encode src.
Proof.
  unfold hex_Encode_into, hex_EncodedLen.
  rewrite skipn_all2, app_nil_r; [reflexivity|].
  rewrite repeat_length, hex_Encode_length. lia.
Qed.

Lemma map_seq_length {A} (f : nat -> A) (n : nat) :
  length (map f (seq 0 n)) = n.
Proof. rewrite length_map, length_seq. reflexivity. Qed.

(** ** Digest sizes and the keyed hash *)

Lemma be_bytes_length (w : nat) (v : Z) : length (sha256.be_bytes w v) = w.
Proof. unfold sha256.be_bytes. apply map_seq_length. Qed.

Lemma block_length (h : list Z) (chunk : bytes) :
  length (sha256.block h chunk) = 8%nat.
Proof.
  unfold sha256.block.
  destruct (fold_left _ _ _). destruct (sha256.regs_of h). reflexivity.
Qed.

Lemma blocks_length (n : nat) (h : list Z) (p : bytes) :
  length h = 8%nat -> length (sha256.blocks n h p) = 8%nat.
Proof.
  revert h p. induction n as [|n IH]; intros h p Hh; cbn [sha256.blocks].
  - exact Hh.
  - apply IH, block_length.
Qed.

Lemma flat_map_fixed_length {A B} (f : A -> list B) (k : nat) (l : list A) :
  (forall a, length (f a) = k) -> length (flat_map f l) = (length l * k)%nat.
Proof.
  intros Hf. induction l as [|a l IH]; [reflexivity|].
  cbn [flat_map length]. rewrite length_app, Hf, IH. lia.
Qed.

Lemma Sum256_length (data : bytes) :
  length (sha256.Sum256 data) = sha256.Size.
Proof.
  unfold sha256.Sum256.
  rewrite (flat_map_fixed_length _ 4) by apply be_bytes_length.
  rewrite blocks_length by reflexivity. reflexivity.
Qed.

Lemma skipn_repeat {A} (x : A) (n k : nat) :
  skipn k (repeat x n) = repeat x (n - k).
Proof.
  revert k. induction n as [|n IH]; intros [|k]; cbn; auto.
Qed.

Lemma copy_into_zero_block (key : bytes) :
  (length key <= 64)%nat ->
  hmac.copy (repeat x00 64) key = key ++ repeat x00 (64 - length key).
Proof.
  intros Hk. unfold hmac.copy.
  rewrite repeat_length, firstn_all2 by exact Hk.
  rewrite skipn_repeat. reflexivity.
Qed.

Lemma hmac_New_pads (key : bytes) :
  hmac.ipad (hmac.New key) = hmac.xor_with 0x36 (HMAC_SHA256_K0 key)
  /\ hmac.opad (hmac.New key) = hmac.xor_with 0x5c (HMAC_SHA256_K0 key)
  /\ hash.written (hmac.inner (hmac.New key))
     = hmac.xor_with 0x36 (HMAC_SHA256_K0 key).
Proof.
  unfold hmac.New, HMAC_SHA256_K0, hash.BlockSize, sha256.BlockSize.
  destruct (64 <? length key)%nat eqn:Hlen; cbn [hmac.ipad hmac.opad hmac.inner].
  - unfold hash.Sum, hash.Write, hash.New. cbn [hash.written app].
    rewrite copy_into_zero_block by (rewrite Sum256_length; cbv; lia).
    auto.
  - apply Nat.ltb_ge in Hlen.
    rewrite copy_into_zero_block by exact Hlen.
    auto.
Qed.

(** The object built by [New], fed by [Write] and closed by [Sum(nil)]
    computes the RFC 2104 function. *)
Lemma hmac_object_spec (key text : bytes) :
  hmac.Sum (hmac.Write (hmac.New key) text) [] = HMAC_SHA256 key text.
Proof.
  destruct (hmac_New_pads key) as (_ & Ho & Hi).
  unfold hmac.Sum, hmac.Write. cbn [hmac.inner hmac.opad hmac.outer length].
  unfold hash.Sum, hash.Write, hash.Reset, hash.New.
  cbn [hash.written app firstn skipn].
  rewrite Hi, Ho. reflexivity.
Qed.

(** ** Running the monad *)

Lemma bind_Ok {A B} (m : M A) (k : A -> M B) (s s' : State) (a : A) :
  m s = (Ok a, s') -> bind m k s = k a s'.
Proof. intros H. unfold bind. rewrite H. reflexivity. Qed.

Lemma bind_Err {A B} (m : M A) (k : A -> M B) (s s' : State) (e : error) :
  m s = (Err e, s') -> bind m k s = (Err e, s').
Proof. intros H. unfold bind. rewrite H. reflexivity. Qed.

Lemma bind_Panic {A B} (m : M A) (k : A -> M B) (s s' : State) :
  m s = (Panic, s') -> bind m k s = (Panic, s').
Proof. intros H. unfold bind. rewrite H. reflexivity. Qed.

(** ** C5: tokens and request identifiers *)

(** C5. With a working entropy source, [newToken] returns the lower-case
    hexadecimal text, exactly 64 characters long, of the 32 bytes read,
    and [newID] the 32-character text of the 16 bytes read; when the
    source reports an error, each returns that error and nothing else. *)
Theorem C5_newToken_newID (E : Env) (s : State) :
  match rand_Reader E s with
  | EntropyStream next =>
      let key := map next (seq 0 32) in
      let raw := map next (seq 0 16) in
      fst (newToken E s) = Ok {| value := hex_Encode key |}
      /\ length key = 32%nat
      /\ length (hex_Encode key) = 64%nat
      /\ forallb is_lower_hex (hex_Encode key) = true
      /\ hex_Decode (hex_Encode key) = Some key
      /\ fst (newID E s) = Ok (Some (hex_Encode raw))
      /\ length raw = 16%nat
      /\ length (hex_Encode raw) = 32%nat
      /\ forallb is_lower_hex (hex_Encode raw) = true
      /\ hex_Decode (hex_Encode raw) = Some raw
  | EntropyFails e =>
      fst (newToken E s) = Err e /\ fst (newID E s) = Err e
  end.
Proof.
  unfold newToken, newID, bind, crypto_rand_Read, rand_Read, ret,
    tokenLength, idLength.
  destruct (rand_Reader E s) as [e|next]; cbn [fst].
  - split; reflexivity.
  - rewrite !hex_Encode_into_make.
    rewrite !hex_Encode_length, !hex_Encode_lower, !hex_Decode_Encode,
      !map_seq_length.
    repeat split; reflexivity.
Qed.

(** ** C1: the signature *)

(** C1. For every robot, command envelope and timestamp, [sign] returns
    HMAC-SHA256, keyed with the robot's [SecretKey], of the lower-cased
    serial, a newline, the timestamp, a newline and the JSON text of the
    envelope. *)
Theorem C1_sign_is_HMAC_SHA256 (E : Env) (r : Robot) (req : request) (ts : bytes) :
  sign E r req ts
  = HMAC_SHA256 (SecretKey r)
      (strings_ToLower (unicode_lower E) (Serial r)
         ++ [x0a] ++ ts ++ [x0a] ++ marshal_request req)
  /\ signingString E r req ts
     = strings_ToLower (unicode_lower E) (Serial r)
         ++ [x0a] ++ ts ++ [x0a] ++ marshal_request req.
Proof.
  split; [|reflexivity].
  unfold sign. rewrite hmac_object_spec. reflexivity.
Qed.

(** The golden inputs of the specification: the model's signing string
    and signature, the latter cross-checked against an independent
    HMAC-SHA256 implementation. *)
Example golden_signature :
  let E := stub_Env zero_entropy (Err []) [] (Err []) 
             {| dec_access_token := None; dec_current_time := None;
                dec_error := None |} (Err []) in
  hex_Encode (sign E golden_Robot golden_request timeFormat)
  = "08c364a3ddc144a468fc721b627d3092a3844ed446337127dfb995bf7d326352"%bs.
Proof. vm_compute. reflexivity. Qed.

(** ** C2: request and response identifiers *)

Lemma Robot_exec_run (E : Env) (r : Robot) (a : request) (s : State) :
  Robot_exec E r a s =
  match Robot_exec_request E r a s with
  | (Ok req, s1) =>
      match Do E LocalClient http.zero_Client req s1 with
      | (Ok resp, s2) =>
          match decode_Response E (http.ResponseBody resp) with
          | Ok result => (checkID E result a, s2)
          | Err e => (Err e, s2)
          | Panic => (Panic, s2)
          end
      | (Err e, s2) => (Err e, s2)
      | (Panic, s2) => (Panic, s2)
      end
  | (Err e, s1) => (Err e, s1)
  | (Panic, s1) => (Panic, s1)
  end.
Proof.
  unfold Robot_exec, Robot_exec_request, bind, lift, addHeaders, now_Format, ret.
  destruct (http_NewRequest E _ _ _) as [req| |]; reflexivity.
Qed.

Lemma checkID_spec (E : Env) (resp : Response (ResponseData E)) (a : request) :
  (checkID E resp a = Ok resp
   <-> string_of (Response_ReqID resp) = string_of (ReqID a))
  /\ (string_of (Response_ReqID resp) <> string_of (ReqID a)
      -> checkID E resp a = Err "conflicting ReqID value"%bs).
Proof.
  unfold checkID. destruct (decide _) as [Heq|Hne]; split.
  - tauto.
  - intros Hne. contradiction.
  - split; [discriminate | intros Heq; contradiction].
  - reflexivity.
Qed.

(** C2. When the request was built, the transport answered and the body
    decoded to [result], [exec] returns [result] exactly when its [ReqID]
    has the same content as the envelope's; when they differ, the outcome
    is the error "conflicting ReqID value", which carries no response. *)
Theorem C2_exec_checks_reqId (E : Env) (r : Robot) (a : request)
        (s s1 : State) (req : http.Request) (resp : http.Response)
        (result : Response (ResponseData E)) :
  Robot_exec_request E r a s = (Ok req, s1) ->
  client_Do E s1 http.zero_Client req = Ok resp ->
  decode_Response E (http.ResponseBody resp) = Ok result ->
  (fst (Robot_exec E r a s) = Ok result
   <-> string_of (Response_ReqID result) = string_of (ReqID a))
  /\ (string_of (Response_ReqID result) <> string_of (ReqID a)
      -> fst (Robot_exec E r a s) = Err "conflicting ReqID value"%bs).
Proof.
  intros Hreq Hdo Hdec.
  rewrite Robot_exec_run, Hreq. unfold Do. rewrite Hdo, Hdec. cbn [fst].
  apply checkID_spec.
Qed.

(** ** Headers *)

Lemma canonical_Accept :
  textproto.CanonicalMIMEHeaderKey "Accept"%bs = "Accept"%bs.
Proof. reflexivity. Qed.

Lemma canonical_Authorization :
  textproto.CanonicalMIMEHeaderKey "Authorization"%bs = "Authorization"%bs.
Proof. reflexivity. Qed.

Lemma canonical_Date :
  textproto.CanonicalMIMEHeaderKey "Date"%bs = "Date"%bs.
Proof. reflexivity. Qed.

Lemma Header_Set_same (req : http.Request) (k v : bytes) :
  textproto.CanonicalMIMEHeaderKey k = k ->
  http.Header (Header_Set req k v) !! k = Some [v].
Proof.
  intros Hk. unfold Header_Set, http.Header_Set. cbn [http.Header].
  rewrite Hk. apply lookup_insert_eq.
Qed.

Lemma Header_Set_other (req : http.Request) (k k' v : bytes) :
  textproto.CanonicalMIMEHeaderKey k = k -> k <> k' ->
  http.Header (Header_Set req k v) !! k' = http.Header req !! k'.
Proof.
  intros Hk Hne. unfold Header_Set, http.Header_Set. cbn [http.Header].
  rewrite Hk. apply lookup_insert_ne. exact Hne.
Qed.

Lemma Header_Set_frame (req : http.Request) (k v : bytes) :
  http.Method (Header_Set req k v) = http.Method req
  /\ http.URL (Header_Set req k v) = http.URL req
  /\ http.Body (Header_Set req k v) = http.Body req.
Proof. repeat split. Qed.

(** ** Beehive data calls *)

Lemma Session_exec_run (E : Env) (p : nat) (cur : Session)
      (method rpath : bytes) (s : State) :
  heap s !! p = Some cur ->
  Session_exec E p method rpath s =
  match url_Parse_error E (beehive_URL rpath) with
  | Some e => (Err e, s)
  | None =>
      let req :=
        Header_Set
          (Header_Set {| http.Method := method; http.URL := beehive_URL rpath;
                         http.Header := ∅; http.Body := None |}
                      "Accept"%bs beehiveAcceptHeader)
          "Authorization"%bs (bearer cur) in
      Do E (SessionClient p) (client cur) req s
  end.
Proof.
  intros Hp.
  unfold Session_exec, setHeaders, bind, lift, http_NewRequest, load, ret.
  fold (beehive_URL rpath).
  destruct (url_Parse_error E (beehive_URL rpath)); [reflexivity|].
  cbv beta iota. rewrite Hp. cbv beta iota. rewrite Hp. reflexivity.
Qed.

Lemma Session_exec_sends (E : Env) (p : nat) (cur : Session)
      (rpath : bytes) (s : State) :
  heap s !! p = Some cur ->
  one_bearer_request E p cur rpath s (snd (Session_exec E p "GET"%bs rpath s))
  /\ heap (snd (Session_exec E p "GET"%bs rpath s)) = heap s.
Proof.
  intros Hp. rewrite (Session_exec_run E p cur) by exact Hp.
  unfold one_bearer_request.
  destruct (url_Parse_error E (beehive_URL rpath)); [split; reflexivity|].
  cbn [Do snd sent heap]. split; [|reflexivity].
  eexists. split; [reflexivity|].
  split; [reflexivity|]. split; [reflexivity|]. split.
  - apply Header_Set_same, canonical_Authorization.
  - rewrite Header_Set_other by (exact canonical_Authorization || discriminate).
    apply Header_Set_same, canonical_Accept.
Qed.

Lemma bind_lift_state {A B} (m : M A) (f : A -> result B) (s : State) :
  snd ((x <- m ;; lift (f x)) s) = snd (m s).
Proof.
  unfold bind, lift. destruct (m s) as [[a| |] s']; reflexivity.
Qed.

(** C7. Given a session stored at [p], each of the five data-retrieval
    calls hands at most one request to the transport, none only when the
    request could not be built; that request carries the header
    [Authorization] with the single value made of "Bearer " followed by
    the session's [AccessToken].  This holds for every [AccessToken], the
    non-empty ones included. *)
Theorem C7_bearer_on_every_call (E : Env) (p : nat) (cur : Session)
        (s : State) (robot id : bytes) :
  heap s !! p = Some cur ->
  one_bearer_request E p cur "users/me"%bs s (snd (GetUser E p s))
  /\ one_bearer_request E p cur "users/me/robots"%bs s (snd (ListRobots E p s))
  /\ one_bearer_request E p cur
       (path.Join ["users/me/robots"%bs; robot; "maps"%bs; id])
       s (snd (GetRobotMap E p robot id s))
  /\ one_bearer_request E p cur
       (path.Join ["users/me/robots"%bs; robot; "maps"%bs])
       s (snd (ListRobotMaps E p robot s))
  /\ one_bearer_request E p cur
       (path.Join ["users/me/robots"%bs; robot; "persistent_maps"%bs])
       s (snd (ListRobotPersistentMaps E p robot s))
  /\ bearer cur = "Bearer "%bs ++ AccessToken cur.
Proof.
  intros Hp.
  unfold GetUser, ListRobots, GetRobotMap, ListRobotMaps,
    ListRobotPersistentMaps.
  rewrite !bind_lift_state.
  repeat split; try apply Session_exec_sends; exact Hp.
Qed.

(** ** Session creation and refresh *)

Lemma sessions_request_run (E : Env) (s : State) :
  sessions_request E s =
  match rand_Reader E s with
  | EntropyFails e => (Err e, after_read s)
  | EntropyStream next =>
      let t := {| value := hex_Encode (map next (seq 0 tokenLength)) |} in
      match pass_Get E (after_read s) credentialsPassRE with
      | Err e => (Err e, after_read s)
      | Panic => (Panic, after_read s)
      | Ok c =>
          let v := <[ "platform"%bs := [platform] ]>
                  (<[ "token"%bs := [value t] ]>
                  (<[ "email"%bs := [Username c] ]>
                  (<[ "password"%bs := [Password c] ]> ∅))) in
          match url_Parse_error E (sessions_URL v) with
          | Some e => (Err e, after_read s)
          | None =>
              (Ok (Header_Set {| http.Method := http.MethodPost;
                                 http.URL := sessions_URL v;
                                 http.Header := ∅; http.Body := None |}
                              "Accept"%bs nucleoAcceptHeader),
               after_read s)
          end
      end
  end.
Proof.
  unfold sessions_request, newToken, queryValues, getCredentials,
    getCredentialsPass, bind, crypto_rand_Read, rand_Read, lift, ret,
    http_NewRequest.
  fold (after_read s).
  destruct (rand_Reader E s) as [e|next]; [reflexivity|].
  cbv beta iota. rewrite hex_Encode_into_make.
  destruct (pass_Get E (after_read s) credentialsPassRE) as [[u pw]| |];
    try reflexivity.
  cbv beta iota. cbn [Username Password token_String value].
  destruct (url_Parse_error E _); reflexivity.
Qed.

Lemma sessions_request_state (E : Env) (s : State) :
  snd (sessions_request E s) = after_read s.
Proof.
  rewrite sessions_request_run.
  destruct (rand_Reader E s); [reflexivity|].
  cbv zeta. destruct (pass_Get E _ _); try reflexivity.
  destruct (url_Parse_error E _); reflexivity.
Qed.

Lemma sessions_request_Accept (E : Env) (s s1 : State) (req : http.Request) :
  sessions_request E s = (Ok req, s1) ->
  http.Header req !! "Accept"%bs = Some [nucleoAcceptHeader]
  /\ http.Method req = "POST"%bs /\ http.Body req = None.
Proof.
  rewrite sessions_request_run.
  destruct (rand_Reader E s); [discriminate|].
  cbv zeta. destruct (pass_Get E _ _); try discriminate.
  destruct (url_Parse_error E _); [discriminate|].
  intros [= <- _]. split; [|split; reflexivity].
  apply Header_Set_same, canonical_Accept.
Qed.

Lemma NewSession_run (E : Env) (s : State) :
  NewSession E s =
  match sessions_request E s with
  | (Ok req, s1) =>
      match client_Do E s1 http.zero_Client req with
      | Ok resp =>
          let d := decode_Session E (http.ResponseBody resp) in
          let s2 := after_send s1 (entry LocalClient http.zero_Client req) in
          match dec_error d with
          | Some e => (Err e, s2)
          | None => alloc (apply_decode d zero_Session) s2
          end
      | Err e => (Err e, after_send s1 (entry LocalClient http.zero_Client req))
      | Panic => (Panic, after_send s1 (entry LocalClient http.zero_Client req))
      end
  | (Err e, s1) => (Err e, s1)
  | (Panic, s1) => (Panic, s1)
  end.
Proof.
  rewrite sessions_request_run.
  unfold NewSession, newToken, queryValues, getCredentials,
    getCredentialsPass, bind, crypto_rand_Read, rand_Read, lift, ret,
    http_NewRequest, Do.
  fold (after_read s).
  destruct (rand_Reader E s) as [e|next]; [reflexivity|].
  cbv beta iota zeta. rewrite hex_Encode_into_make.
  destruct (pass_Get E (after_read s) credentialsPassRE) as [[u pw]| |];
    try reflexivity.
  cbv beta iota. cbn [Username Password token_String value].
  destruct (url_Parse_error E _); [reflexivity|].
  cbv beta iota.
  destruct (client_Do E _ _ _); try reflexivity.
  destruct (dec_error _); reflexivity.
Qed.

Lemma Refresh_run (E : Env) (p : nat) (s : State) :
  Refresh E p s =
  match sessions_request E s with
  | (Ok req, s1) =>
      match heap s !! p with
      | None => (Panic, s1)
      | Some cur =>
          let s2 := after_send s1 (entry (SessionClient p) (client cur) req) in
          match client_Do E s1 (client cur) req with
          | Ok resp =>
              let d := decode_Session E (http.ResponseBody resp) in
              let s3 := {| heap := <[p := apply_decode d cur]> (heap s2);
                           sent := sent s2; reads := reads s2 |} in
              match dec_error d with
              | Some e => (Err e, s3)
              | None => (Ok tt, s3)
              end
          | Err e => (Err e, s2)
          | Panic => (Panic, s2)
          end
      end
  | (Err e, s1) => (Err e, s1)
  | (Panic, s1) => (Panic, s1)
  end.
Proof.
  rewrite sessions_request_run.
  unfold Refresh, newToken, queryValues, getCredentials,
    getCredentialsPass, bind, crypto_rand_Read, rand_Read, lift, ret,
    http_NewRequest, Do, load, store.
  fold (after_read s).
  destruct (rand_Reader E s) as [e|next]; [reflexivity|].
  cbv beta iota zeta. rewrite hex_Encode_into_make.
  destruct (pass_Get E (after_read s) credentialsPassRE) as [[u pw]| |];
    try reflexivity.
  cbv beta iota. cbn [Username Password token_String value].
  destruct (url_Parse_error E _); [reflexivity|].
  cbv beta iota. cbn [heap after_read].
  destruct (heap s !! p) as [cur|] eqn:Hp; [|reflexivity].
  cbv beta iota.
  destruct (client_Do E _ _ _); try reflexivity.
  cbv beta iota. cbn [heap after_read]. rewrite Hp.
  destruct (dec_error _); reflexivity.
Qed.

(** C10. The request built by [NewSession] and by [Refresh] carries the
    [Accept] header "application/vnd.neato.nucleo.v1", the Nucleo media
    type, which differs from the Beehive media type that [exec] on a
    session puts on every other Beehive call. *)
Theorem C10_sessions_Accept_is_nucleo (E : Env) (p : nat) (s : State)
        (rpath : bytes) :
  match sessions_request E s with
  | (Ok req, s1) =>
      http.Header req !! "Accept"%bs = Some [nucleoAcceptHeader]
      /\ sent (snd (NewSession E s))
         = sent s ++ [entry LocalClient http.zero_Client req]
      /\ match heap s !! p with
         | Some cur =>
             sent (snd (Refresh E p s))
             = sent s ++ [entry (SessionClient p) (client cur) req]
         | None => sent (snd (Refresh E p s)) = sent s
         end
  | _ =>
      sent (snd (NewSession E s)) = sent s
      /\ sent (snd (Refresh E p s)) = sent s
  end
  /\ nucleoAcceptHeader = "application/vnd.neato.nucleo.v1"%bs
  /\ nucleoAcceptHeader <> beehiveAcceptHeader
  /\ match heap s !! p with
     | Some cur =>
         one_bearer_request E p cur rpath s
           (snd (Session_exec E p "GET"%bs rpath s))
     | None => True
     end.
Proof.
  split; [|split; [reflexivity|split; [discriminate|]]].
  - rewrite NewSession_run, Refresh_run.
    pose proof (sessions_request_state E s) as Hst.
    destruct (sessions_request E s) as [[req| |] s1] eqn:Hreq;
      cbn [snd] in Hst; subst s1; try (split; reflexivity).
    split; [exact (proj1 (sessions_request_Accept E s _ req Hreq))|].
    split.
    + destruct (client_Do E _ _ _); try reflexivity.
      cbv zeta. destruct (dec_error _); reflexivity.
    + destruct (heap s !! p) as [cur|]; [|reflexivity].
      destruct (client_Do E _ _ _); try reflexivity.
      cbv zeta. destruct (dec_error _); reflexivity.
  - destruct (heap s !! p) as [cur|] eqn:Hp; [|exact I].
    apply Session_exec_sends, Hp.
Qed.

(** C6. [Refresh] on the session stored at [p] writes the decoded fields
    into that same cell: when the response supplies both fields and
    decoding succeeds, the cell holds the new [AccessToken] and
    [CurrentTime]; in every case its [client] field is what it was, no
    other cell changes, and the request, when one is issued, goes out
    through the [client] field of that very cell. *)
Theorem C6_Refresh_in_place (E : Env) (p : nat) (cur : Session) (s : State) :
  heap s !! p = Some cur ->
  let s' := snd (Refresh E p s) in
  (exists cur', heap s' !! p = Some cur' /\ client cur' = client cur)
  /\ (forall q, q <> p -> heap s' !! q = heap s !! q)
  /\ match sessions_request E s with
     | (Ok req, s1) =>
         sent s' = sent s ++ [entry (SessionClient p) (client cur) req]
         /\ match client_Do E s1 (client cur) req with
            | Ok resp =>
                let d := decode_Session E (http.ResponseBody resp) in
                heap s' !! p = Some (apply_decode d cur)
                /\ match dec_access_token d, dec_current_time d, dec_error d with
                   | Some tok, Some t, None =>
                       fst (Refresh E p s) = Ok tt
                       /\ heap s' !! p
                          = Some {| AccessToken := tok; CurrentTime := t;
                                    client := client cur |}
                   | _, _, _ => True
                   end
            | _ => heap s' = heap s
            end
     | _ => sent s' = sent s /\ heap s' = heap s
     end.
Proof.
  intros Hp. cbv zeta. rewrite Refresh_run, Hp.
  pose proof (sessions_request_state E s) as Hst.
  destruct (sessions_request E s) as [[req| |] s1] eqn:Hreq;
    cbn [snd] in Hst; subst s1; cbn [snd heap after_read].
  2,3: split; [eauto|split; [reflexivity|split; reflexivity]].
  destruct (client_Do E _ _ _) as [resp| |].
  2,3: cbn [snd heap sent after_send after_read];
       split; [eauto|split; [reflexivity|split; reflexivity]].
  cbv zeta.
  destruct (dec_error (decode_Session E (http.ResponseBody resp))) as [e|] eqn:He;
    cbn [snd fst heap sent after_send after_read].
  all: split; [eexists; split; [apply lookup_insert_eq|reflexivity]|].
  all: split; [intros q Hq; apply lookup_insert_ne; congruence|].
  all: split; [reflexivity|].
  all: split; [apply lookup_insert_eq|].
  all: destruct (dec_access_token _) as [tok|] eqn:Ha; [|exact I].
  all: destruct (dec_current_time _) as [t|] eqn:Ht; [|exact I].
  - exact I.
  - split; [reflexivity|].
    rewrite lookup_insert_eq. unfold apply_decode. rewrite Ha, Ht. reflexivity.
Qed.

(** ** The session-creation query *)

Lemma escape_byte_lower_hex (mode : url.encoding) (c : byte) :
  is_lower_hex c = true -> url.escape_byte mode c = [c].
Proof. destruct mode; destruct c; intros H; try discriminate H; reflexivity. Qed.

Lemma escape_lower_hex (mode : url.encoding) (s : bytes) :
  forallb is_lower_hex s = true -> url.escape s mode = s.
Proof.
  unfold url.escape. induction s as [|c s IH]; [reflexivity|].
  cbn [forallb flat_map]. intros [Hc Hs]%andb_prop.
  rewrite escape_byte_lower_hex, IH by assumption. reflexivity.
Qed.

Lemma Encode_session_query (t : bytes) :
  forallb is_lower_hex t = true ->
  url.Encode (<[ "platform"%bs := [platform] ]>
             (<[ "token"%bs := [t] ]>
             (<[ "email"%bs := ["a@b.com"%bs] ]>
             (<[ "password"%bs := ["secret"%bs] ]> ∅))))
  = "email=a%40b.com&password=secret&platform=ios&token="%bs ++ t.
Proof.
  intros Ht. unfold url.Encode.
  replace (url.sorted_entries _)
    with [ ("email"%bs, ["a@b.com"%bs]); ("password"%bs, ["secret"%bs]);
           ("platform"%bs, [platform]); ("token"%bs, [t]) ]
    by (vm_compute; reflexivity).
  cbn [flat_map map fst snd app json.join].
  unfold url.QueryEscape at 8. rewrite escape_lower_hex by exact Ht.
  reflexivity.
Qed.

Lemma sessions_URL_text (v : gmap bytes (list bytes)) (q : bytes) :
  url.Encode v = "email="%bs ++ q ->
  sessions_URL v = "https://beehive.neatocloud.com/sessions?email="%bs ++ q.
Proof.
  intros Hq. unfold sessions_URL, url.String. cbn [url.RawQuery].
  rewrite Hq. reflexivity.
Qed.

(** C8. With a credential provider answering user name "a@b.com" and
    password "secret", the values built for the session request are
    exactly [platform=ios], [email=a@b.com], [password=secret] and
    [token] bound to the 64-character hexadecimal text of the 32 bytes
    read; they travel as the query of the one request [NewSession] sends. *)
Theorem C8_NewSession_query (E : Env) (s : State) (next : nat -> byte) :
  rand_Reader E s = EntropyStream next ->
  pass_Get E (after_read s) credentialsPassRE
  = Ok {| Username := "a@b.com"%bs; Password := "secret"%bs |} ->
  let tok := hex_Encode (map next (seq 0 32)) in
  let v : gmap bytes (list bytes) :=
    <[ "platform"%bs := ["ios"%bs] ]>
    (<[ "token"%bs := [tok] ]>
    (<[ "email"%bs := ["a@b.com"%bs] ]>
    (<[ "password"%bs := ["secret"%bs] ]> ∅))) in
  fst (queryValues E {| value := tok |} (after_read s)) = Ok v
  /\ size v = 4%nat
  /\ length tok = 64%nat
  /\ forallb is_lower_hex tok = true
  /\ url.Encode v
     = "email=a%40b.com&password=secret&platform=ios&token="%bs ++ tok
  /\ match url_Parse_error E (sessions_URL v) with
     | Some _ => sent (snd (NewSession E s)) = sent s
     | None =>
         exists req,
           sent (snd (NewSession E s))
           = sent s ++ [entry LocalClient http.zero_Client req]
           /\ http.Method req = "POST"%bs
           /\ http.URL req
              = "https://beehive.neatocloud.com/sessions?email=a%40b.com&password=secret&platform=ios&token="%bs
                ++ tok
     end.
Proof.
  intros Hrand Hpass tok v.
  assert (Hlen : length tok = 64%nat).
  { unfold tok. rewrite hex_Encode_length, map_seq_length. reflexivity. }
  assert (Hhex : forallb is_lower_hex tok = true) by apply hex_Encode_lower.
  assert (Henc : url.Encode v
                 = "email=a%40b.com&password=secret&platform=ios&token="%bs ++ tok)
    by (apply Encode_session_query, Hhex).
  split.
  { unfold queryValues, getCredentials, getCredentialsPass, bind, ret.
    rewrite Hpass. reflexivity. }
  split.
  { unfold v. rewrite !map_size_insert_None; [reflexivity|..];
      repeat (rewrite lookup_insert_ne by discriminate); apply lookup_empty. }
  split; [exact Hlen|]. split; [exact Hhex|]. split; [exact Henc|].
  rewrite NewSession_run, sessions_request_run, Hrand. cbv zeta.
  rewrite Hpass. cbn [Username Password value].
  change (hex_Encode (map next (seq 0 tokenLength))) with tok.
  repeat match goal with
         | |- context [sessions_URL ?m] => progress change m with v
         end.
  destruct (url_Parse_error E (sessions_URL v)); [reflexivity|].
  eexists. split; [|split].
  - destruct (client_Do E _ _ _); [|reflexivity|reflexivity].
    cbv zeta. destruct (dec_error _); reflexivity.
  - reflexivity.
  - cbn [Header_Set http.URL].
    apply (sessions_URL_text v
             ("a%40b.com&password=secret&platform=ios&token="%bs ++ tok)).
    exact Henc.
Qed.

(** ** The request body *)

Lemma list_ind3 {A} (P : list A -> Prop) :
  P [] -> (forall a, P [a]) -> (forall a b, P [a; b]) ->
  (forall a b c l, P l -> P (a :: b :: c :: l)) ->
  forall l, P l.
Proof.
  intros H0 H1 H2 H3.
  fix IH 1.
  intros [|a [|b [|c l]]]; [exact H0|apply H1|apply H2|apply H3, IH].
Qed.

Lemma base64_Encode_length (s : bytes) :
  length (base64.Encode s) = (4 * ((length s + 2) / 3))%nat.
Proof.
  induction s as [|a|a b|a b c l IH] using list_ind3; try reflexivity.
  change (base64.Encode (a :: b :: c :: l))
    with (base64.enc (Z.shiftr (Z.lor (Z.lor (Z.shiftl (byte_to_Z a) 16)
                                  (Z.shiftl (byte_to_Z b) 8)) (byte_to_Z c)) 18)
          :: base64.enc (Z.shiftr (Z.lor (Z.lor (Z.shiftl (byte_to_Z a) 16)
                                  (Z.shiftl (byte_to_Z b) 8)) (byte_to_Z c)) 12)
          :: base64.enc (Z.shiftr (Z.lor (Z.lor (Z.shiftl (byte_to_Z a) 16)
                                  (Z.shiftl (byte_to_Z b) 8)) (byte_to_Z c)) 6)
          :: base64.enc (Z.lor (Z.lor (Z.shiftl (byte_to_Z a) 16)
                                  (Z.shiftl (byte_to_Z b) 8)) (byte_to_Z c))
          :: base64.Encode l).
  cbn [length]. rewrite IH.
  replace (S (S (S (length l))) + 2)%nat with (1 * 3 + (length l + 2))%nat by lia.
  rewrite Nat.div_add_l by lia. lia.
Qed.

Lemma json_step_safe (b : byte) (rest : bytes) :
  json.htmlSafe b = true -> json.step (b :: rest) = ([b], 1%nat).
Proof.
  intros Hb. unfold json.step. rewrite Hb.
  unfold json.htmlSafe in Hb.
  destruct (byte_to_Z b <? utf8.RuneSelf) eqn:Hlt; [reflexivity|].
  unfold utf8.RuneSelf in Hlt. rewrite Hlt in Hb.
  rewrite !andb_false_r in Hb. discriminate Hb.
Qed.

Lemma json_loop_safe (s : bytes) (fuel : nat) :
  forallb json.htmlSafe s = true -> (length s <= fuel)%nat ->
  json.loop fuel s = s.
Proof.
  revert fuel. induction s as [|b s IH]; intros fuel Hs Hf.
  - destruct fuel; reflexivity.
  - destruct fuel as [|fuel]; [cbn in Hf; lia|].
    cbn [forallb] in Hs. apply andb_prop in Hs as [Hb Hs].
    cbn [json.loop]. rewrite json_step_safe by exact Hb.
    cbn [skipn app]. rewrite IH; [reflexivity|exact Hs|cbn in Hf; lia].
Qed.

(** A string of JSON-safe ASCII characters is written between quotes as
    it is. *)
Lemma appendString_safe (s : bytes) :
  forallb json.htmlSafe s = true ->
  json.appendString s = json.quote :: s ++ [json.quote].
Proof.
  intros Hs. unfold json.appendString.
  rewrite json_loop_safe by (exact Hs || lia). reflexivity.
Qed.

Lemma marshal_request_text (a : request) :
  marshal_request a
  = "{"%bs ++ json.quote :: "reqId"%bs ++ json.quote :: ":"%bs
      ++ json.encodeByteSlice (ReqID a)
      ++ ","%bs ++ json.quote :: "cmd"%bs ++ json.quote :: ":"%bs
      ++ json.appendString (Cmd a)
      ++ match request_Params a with
         | Some p => ","%bs ++ json.quote :: "params"%bs ++ json.quote :: ":"%bs
                       ++ marshal_Params p
         | None => []
         end
      ++ "}"%bs.
Proof.
  unfold marshal_request, json.encodeStruct, json.field.
  destruct (request_Params a) as [p|]; cbn [app json.join];
    repeat rewrite <- app_assoc; cbn [app]; repeat rewrite <- app_assoc;
    reflexivity.
Qed.

Lemma methods_are_commands (E : Env) :
  FindMe E = command E "findMe"%bs
  /\ GetGeneralInfo E = command E "getGeneralInfo"%bs
  /\ StartCleaning E = command E "startCleaning"%bs
  /\ StopCleaning E = command E "stopCleaning"%bs
  /\ PauseCleaning E = command E "pauseCleaning"%bs
  /\ ResumeCleaning E = command E "resumeCleaning"%bs
  /\ SendToBase E = command E "sendToBase"%bs
  /\ GetLocalStats E = command E "getLocalStats"%bs
  /\ GetRobotManualCleaningInfo E = command E "getRobotManualCleaningInfo"%bs
  /\ SetMapBoundaries E = command E "setMapBoundaries"%bs
  /\ GetMapBoundaries E = command E "getMapBoundaries"%bs
  /\ StartPersistentMapExploration E
     = command E "startPersistentMapExploration"%bs
  /\ GetPreferences E = command E "getPreferences"%bs
  /\ SetPreferences E = command E "setPreferences"%bs
  /\ GetSchedule E = command E "getSchedule"%bs
  /\ SetSchedule E = command E "setSchedule"%bs
  /\ EnableSchedule E = command E "enableSchedule"%bs
  /\ DisableSchedule E = command E "disableSchedule"%bs
  /\ GetRobotInfo E = command E "getRobotInfo"%bs.
Proof. repeat split. Qed.

Lemma command_run (E : Env) (name : bytes) (r : Robot) (p : option Params)
      (s : State) :
  command E name r p s =
  match rand_Reader E s with
  | EntropyFails e => (Err e, after_read s)
  | EntropyStream next =>
      Robot_exec E r {| ReqID := Some (hex_Encode (map next (seq 0 idLength)));
                        Cmd := name; request_Params := p |} (after_read s)
  end.
Proof.
  unfold command, newRequest, newID, bind, crypto_rand_Read, rand_Read, ret.
  fold (after_read s).
  destruct (rand_Reader E s) as [e|next]; [reflexivity|].
  cbv beta iota. rewrite hex_Encode_into_make. reflexivity.
Qed.

Lemma Robot_exec_request_run (E : Env) (r : Robot) (a : request) (s : State) :
  Robot_exec_request E r a s =
  match url_Parse_error E (messages_URL r) with
  | Some e => (Err e, s)
  | None =>
      let ts := time_Format E (time_Now E s) timeFormat in
      (Ok (authorization E a r
             (Header_Set
                (Header_Set {| http.Method := http.MethodPost;
                               http.URL := messages_URL r;
                               http.Header := ∅;
                               http.Body := Some (marshal_request a) |}
                            "Accept"%bs nucleoAcceptHeader)
                "Date"%bs ts) ts), s)
  end.
Proof.
  unfold Robot_exec_request, addHeaders, bind, lift, http_NewRequest,
    now_Format, ret.
  destruct (url_Parse_error E (messages_URL r)); reflexivity.
Qed.

Lemma Robot_exec_sent (E : Env) (r : Robot) (a : request) (s : State) :
  sent (snd (Robot_exec E r a s)) =
  match Robot_exec_request E r a s with
  | (Ok req, _) => sent s ++ [entry LocalClient http.zero_Client req]
  | _ => sent s
  end.
Proof.
  rewrite Robot_exec_run, Robot_exec_request_run.
  destruct (url_Parse_error E (messages_URL r)); [reflexivity|].
  cbv zeta. unfold Do.
  destruct (client_Do E _ _ _); try reflexivity.
  destruct (decode_Response E _); reflexivity.
Qed.

(** The body of every dispatched command: a JSON object whose [reqId]
    member is a JSON string holding the padded base64 text (44 characters)
    of the envelope's 32-character hexadecimal identifier, whose [cmd]
    member is the command name as a JSON string, and which has a [params]
    member exactly when parameters were supplied. *)
Theorem C4_dispatched_body (E : Env) (name : bytes) (r : Robot)
        (p : option Params) (s : State) :
  match rand_Reader E s with
  | EntropyFails e =>
      fst (command E name r p s) = Err e
      /\ sent (snd (command E name r p s)) = sent s
  | EntropyStream next =>
      let id := hex_Encode (map next (seq 0 16)) in
      let body :=
        "{"%bs ++ json.quote :: "reqId"%bs ++ json.quote :: ":"%bs
          ++ (json.quote :: base64.Encode id ++ [json.quote])
          ++ ","%bs ++ json.quote :: "cmd"%bs ++ json.quote :: ":"%bs
          ++ json.appendString name
          ++ match p with
             | Some q => ","%bs ++ json.quote :: "params"%bs
                           ++ json.quote :: ":"%bs ++ marshal_Params q
             | None => []
             end
          ++ "}"%bs in
      length id = 32%nat
      /\ forallb is_lower_hex id = true
      /\ length (base64.Encode id) = 44%nat
      /\ (if forallb json.htmlSafe name
          then json.appendString name = json.quote :: name ++ [json.quote]
          else True)
      /\ match url_Parse_error E (messages_URL r) with
         | Some _ => sent (snd (command E name r p s)) = sent s
         | None =>
             exists req,
               sent (snd (command E name r p s))
               = sent s ++ [entry LocalClient http.zero_Client req]
               /\ http.Method req = "POST"%bs
               /\ http.Body req = Some body
         end
  end.
Proof.
  rewrite command_run.
  destruct (rand_Reader E s) as [e|next]; [split; reflexivity|].
  cbv zeta.
  assert (Hid : length (hex_Encode (map next (seq 0 16))) = 32%nat).
  { rewrite hex_Encode_length, map_seq_length. reflexivity. }
  split; [exact Hid|]. split; [apply hex_Encode_lower|].
  split; [rewrite base64_Encode_length, Hid; reflexivity|].
  split.
  { destruct (forallb json.htmlSafe name) eqn:Hs; [|exact I].
    apply appendString_safe, Hs. }
  rewrite Robot_exec_sent, Robot_exec_request_run.
  destruct (url_Parse_error E (messages_URL r)); [reflexivity|].
  cbv zeta. eexists. split; [reflexivity|]. split; [reflexivity|].
  unfold authorization. cbn [Header_Set http.Body].
  rewrite marshal_request_text. reflexivity.
Qed.

(** ** Paths *)

Lemma split_slash_nonempty (s : bytes) : split_slash s <> [].
Proof.
  induction s as [|c s IH]; cbn; [discriminate|].
  destruct (Byte.eqb c path.slash); [discriminate|].
  destruct (split_slash s); [contradiction|discriminate].
Qed.

Lemma join_cons (sep e : bytes) (es : list bytes) :
  es <> [] -> json.join sep (e :: es) = e ++ sep ++ json.join sep es.
Proof. destruct es; [contradiction|reflexivity]. Qed.

Lemma join_split_slash (s : bytes) :
  json.join [path.slash] (split_slash s) = s.
Proof.
  induction s as [|c s IH]; [reflexivity|].
  cbn [split_slash]. destruct (Byte.eqb c path.slash) eqn:Hc.
  - apply Byte.byte_dec_bl in Hc. subst c.
    rewrite join_cons by apply split_slash_nonempty.
    rewrite IH. reflexivity.
  - pose proof (split_slash_nonempty s) as Hne.
    destruct (split_slash s) as [|e es]; [contradiction|].
    destruct es as [|e' es].
    + cbn in IH |- *. rewrite IH. reflexivity.
    + rewrite join_cons in IH by discriminate.
      rewrite join_cons by discriminate.
      rewrite <- IH. reflexivity.
Qed.

Lemma join_app (sep : bytes) (l1 l2 : list bytes) :
  l1 <> [] -> l2 <> [] ->
  json.join sep (l1 ++ l2) = json.join sep l1 ++ sep ++ json.join sep l2.
Proof.
  intros H1 H2. induction l1 as [|e l1 IH]; [contradiction|].
  destruct l1 as [|e' l1].
  - cbn [app]. rewrite join_cons by exact H2. reflexivity.
  - change ((e :: e' :: l1) ++ l2) with (e :: (e' :: l1) ++ l2).
    rewrite join_cons by discriminate.
    rewrite IH by discriminate.
    rewrite (join_cons sep e (e' :: l1)) by discriminate.
    rewrite <- !app_assoc. reflexivity.
Qed.

Lemma plain_element_inv (e : bytes) :
  plain_element e = true ->
  exists c e', e = c :: e'
    /\ Byte.eqb c path.slash = false
    /\ forallb (fun c => negb (Byte.eqb c path.slash)) e' = true
    /\ e <> "."%bs /\ e <> ".."%bs.
Proof.
  unfold plain_element. intros H.
  apply andb_prop in H as [H Hdd]. apply andb_prop in H as [H Hd].
  apply andb_prop in H as [Hne Hs].
  destruct e as [|c e']; [discriminate Hne|].
  cbn [forallb] in Hs. apply andb_prop in Hs as [Hc Hs].
  exists c, e'. split; [reflexivity|].
  split; [destruct (Byte.eqb c path.slash); [discriminate Hc|reflexivity]|].
  split; [exact Hs|].
  apply negb_true_iff, bool_decide_eq_false in Hd.
  apply negb_true_iff, bool_decide_eq_false in Hdd.
  split; assumption.
Qed.

Lemma element_run (e rest : bytes) :
  forallb (fun c => negb (Byte.eqb c path.slash)) e = true ->
  path.at_separator rest = true ->
  path.element (e ++ rest) = (e, rest).
Proof.
  intros He Hr. induction e as [|c e IH].
  - destruct rest as [|c r]; [reflexivity|].
    cbn in Hr |- *. rewrite Hr. reflexivity.
  - cbn [forallb] in He. apply andb_prop in He as [Hc He].
    cbn [app path.element].
    destruct (Byte.eqb c path.slash); [discriminate Hc|].
    rewrite IH by exact He. reflexivity.
Qed.

Lemma at_separator_inside (c : byte) (e rest : bytes) :
  Byte.eqb c path.slash = false ->
  path.at_separator ((c :: e) ++ rest) = false.
Proof. intros Hc. cbn. exact Hc. Qed.

(** One iteration of the loop of [Clean] over a plain element. *)
Lemma clean_loop_element (f : nat) (e rest out : bytes) (dd : nat) :
  plain_element e = true -> path.at_separator rest = true ->
  path.clean_loop (S f) false (e ++ rest) out dd
  = path.clean_loop f false rest
      ((if negb (length out =? 0)%nat then out ++ [path.slash] else out) ++ e)
      dd.
Proof.
  intros He Hr.
  destruct (plain_element_inv e He) as (c & e' & -> & Hc & Hs & Hnd & Hndd).
  assert (Hall : forallb (fun c => negb (Byte.eqb c path.slash)) (c :: e') = true).
  { cbn [forallb]. rewrite Hc, Hs. reflexivity. }
  cbn [path.clean_loop app]. rewrite Hc.
  assert (H1 : Byte.eqb c path.dot && path.at_separator (e' ++ rest) = false).
  { destruct (Byte.eqb c path.dot) eqn:Hd; [|reflexivity].
    apply Byte.byte_dec_bl in Hd. subst c.
    destruct e' as [|c1 e'']; [contradiction Hnd; reflexivity|].
    cbn [forallb] in Hs. apply andb_prop in Hs as [Hc1 _].
    cbn. destruct (Byte.eqb c1 path.slash); [discriminate Hc1|reflexivity]. }
  rewrite H1.
  assert (H2 : Byte.eqb c path.dot
               && match e' ++ rest with
                  | c1 :: p2 => Byte.eqb c1 path.dot && path.at_separator p2
                  | [] => false
                  end = false).
  { destruct (Byte.eqb c path.dot) eqn:Hd; [|reflexivity].
    apply Byte.byte_dec_bl in Hd. subst c.
    destruct e' as [|c1 e'']; [contradiction Hnd; reflexivity|].
    cbn [app andb].
    destruct (Byte.eqb c1 path.dot) eqn:Hd1; [|reflexivity].
    apply Byte.byte_dec_bl in Hd1. subst c1.
    destruct e'' as [|c2 e3]; [contradiction Hndd; reflexivity|].
    cbn [forallb] in Hs. apply andb_prop in Hs as [_ Hs].
    apply andb_prop in Hs as [Hc2 _].
    cbn. destruct (Byte.eqb c2 path.slash); [discriminate Hc2|reflexivity]. }
  rewrite H2. cbn [andb orb negb].
  change (c :: e' ++ rest) with ((c :: e') ++ rest).
  rewrite element_run by assumption. reflexivity.
Qed.

Lemma clean_loop_plain (es : list bytes) :
  Forall (fun e => plain_element e = true) es -> es <> [] ->
  forall (fuel : nat) (out : bytes) (dd : nat),
    (length (json.join [path.slash] es) <= fuel)%nat ->
    path.clean_loop fuel false (json.join [path.slash] es) out dd
    = (if negb (length out =? 0)%nat then out ++ [path.slash] else out)
        ++ json.join [path.slash] es.
Proof.
  induction es as [|e es IH]; [contradiction|].
  intros Hall _ fuel out dd Hfuel.
  apply Forall_cons in Hall as [He Hes].
  assert (Hlen : (1 <= length e)%nat).
  { destruct (plain_element_inv e He) as (c & e' & -> & _). cbn. lia. }
  destruct es as [|e2 es].
  - cbn [json.join] in *. destruct fuel as [|f]; [lia|].
    rewrite <- (app_nil_r e) at 1.
    rewrite clean_loop_element by (exact He || reflexivity).
    destruct f; reflexivity.
  - rewrite join_cons in * by discriminate.
    rewrite !length_app in Hfuel. cbn [length] in Hfuel.
    destruct fuel as [|f]; [lia|].
    rewrite clean_loop_element by (exact He || reflexivity).
    destruct f as [|f]; [lia|].
    cbn [app]. change (path.clean_loop (S f) false
                         (path.slash :: json.join [path.slash] (e2 :: es)) ?o ?d)
      with (path.clean_loop f false (json.join [path.slash] (e2 :: es)) o d).
    rewrite IH by (assumption || discriminate || lia).
    rewrite length_app.
    replace (length _ + length e =? 0)%nat with false
      by (symmetry; apply Nat.eqb_neq; lia).
    cbn [negb]. rewrite <- !app_assoc. reflexivity.
Qed.

Lemma Clean_plain (es : list bytes) :
  Forall (fun e => plain_element e = true) es -> es <> [] ->
  path.Clean (json.join [path.slash] es) = json.join [path.slash] es.
Proof.
  intros Hall Hne.
  assert (Hhead : exists c p, json.join [path.slash] es = c :: p
                              /\ Byte.eqb c path.slash = false).
  { destruct es as [|e es]; [contradiction|].
    apply Forall_cons in Hall as [He _].
    destruct (plain_element_inv e He) as (c & e' & -> & Hc & _).
    destruct es; cbn; eauto. }
  destruct Hhead as (c & p & Hj & Hc).
  unfold path.Clean. rewrite Hj, Hc. rewrite <- Hj.
  rewrite clean_loop_plain by (assumption || lia).
  cbn [length Nat.eqb negb app]. rewrite Hj. reflexivity.
Qed.

Lemma Join_serial (serial : bytes) :
  clean_relative serial = true ->
  path.Join ["vendors/neato/robots"%bs; serial; "messages"%bs]
  = path_with_serial serial.
Proof.
  intros Hs0. unfold clean_relative in Hs0.
  assert (Hs : Forall (fun e => plain_element e = true) (split_slash serial)).
  { apply List.Forall_forall. apply forallb_forall. exact Hs0. }
  assert (Hbuf : fold_left path.join_step
                   ["vendors/neato/robots"%bs; serial; "messages"%bs] []
                 = path_with_serial serial).
  { unfold path_with_serial. cbn [fold_left].
    cbv [path.join_step]. cbn [length Nat.ltb Nat.leb app].
    reflexivity. }
  unfold path.Join.
  replace (0 =? fold_left _ _ 0)%nat with false
    by (symmetry; apply Nat.eqb_neq; cbn [fold_left]; cbn; lia).
  rewrite Hbuf. unfold path_with_serial.
  rewrite <- (join_split_slash serial) at 1 2.
  change ("vendors/neato/robots/"%bs
            ++ json.join [path.slash] (split_slash serial) ++ "/messages"%bs)
    with (json.join [path.slash] ["vendors"%bs; "neato"%bs; "robots"%bs]
            ++ [path.slash]
            ++ json.join [path.slash] (split_slash serial)
            ++ [path.slash] ++ json.join [path.slash] ["messages"%bs]).
  rewrite <- (join_app [path.slash] (split_slash serial))
    by (apply split_slash_nonempty || discriminate).
  rewrite <- join_app
    by (discriminate || (intros H; apply app_eq_nil in H as [_ H]; discriminate H)).
  apply Clean_plain.
  - apply Forall_app. split; [repeat constructor|].
    apply Forall_app. split; [exact Hs|repeat constructor].
  - discriminate.
Qed.

Lemma escape_app (mode : url.encoding) (x y : bytes) :
  url.escape (x ++ y) mode = url.escape x mode ++ url.escape y mode.
Proof. unfold url.escape. apply flat_map_app. Qed.

Lemma messages_URL_text (r : Robot) :
  clean_relative (Serial r) = true ->
  messages_URL r
  = "https://nucleo.neatocloud.com:4443/vendors/neato/robots/"%bs
      ++ url.escape (Serial r) url.encodePath ++ "/messages"%bs.
Proof.
  intros Hs. unfold messages_URL. rewrite Join_serial by exact Hs.
  unfold url.String, url.EscapedPath, path_with_serial.
  cbn [url.Scheme url.Host url.Path url.RawQuery].
  destruct (decide _) as [Hstar|_]; [discriminate Hstar|].
  rewrite escape_app. 
  change (url.escape "vendors/neato/robots/"%bs url.encodePath)
    with "vendors/neato/robots/"%bs.
  rewrite escape_app.
  change (url.escape "/messages"%bs url.encodePath) with "/messages"%bs.
  reflexivity.
Qed.

Lemma escape_byte_alnum (mode : url.encoding) (c : byte) :
  url.alnum c = true -> url.escape_byte mode c = [c].
Proof. destruct mode; destruct c; intros H; try discriminate H; reflexivity. Qed.

Lemma escape_alnum (mode : url.encoding) (s : bytes) :
  forallb url.alnum s = true -> url.escape s mode = s.
Proof.
  unfold url.escape. induction s as [|c s IH]; [reflexivity|].
  cbn [forallb flat_map]. intros [Hc Hs]%andb_prop.
  rewrite escape_byte_alnum, IH by assumption. reflexivity.
Qed.

Lemma ToLower_ASCII (lower : bytes -> bytes) (s : bytes) :
  isASCII s = true -> strings_ToLower lower s = map lower_byte s.
Proof.
  intros Ha. unfold strings_ToLower. rewrite Ha.
  destruct (hasUpper s) eqn:Hu; [reflexivity|].
  unfold hasUpper in Hu. clear Ha. induction s as [|c l IH]; [reflexivity|].
  cbn [existsb] in Hu. apply orb_false_elim in Hu as [Hc Hl].
  cbn [map]. rewrite <- IH by exact Hl.
  unfold lower_byte. rewrite Hc. reflexivity.
Qed.

(** ** C9: the serial in the signature and in the path *)

(** C9, as the code has it.  For every robot whose serial is a relative
    path in clean form (in particular any serial without slash other
    than the empty one, [.] and [..]), the signature is computed over the
    lower-cased serial, while the path of the request URL is
    [vendors/neato/robots/<serial>/messages] with the serial as it is. *)
Theorem C9_serial_in_signature_and_path (E : Env) (r : Robot) (a : request)
        (s : State) :
  clean_relative (Serial r) = true ->
  let ts := time_Format E (time_Now E s) timeFormat in
  path.Join ["vendors/neato/robots"%bs; Serial r; "messages"%bs]
  = "vendors/neato/robots/"%bs ++ Serial r ++ "/messages"%bs
  /\ messages_URL r
     = "https://nucleo.neatocloud.com:4443/vendors/neato/robots/"%bs
         ++ url.escape (Serial r) url.encodePath ++ "/messages"%bs
  /\ (if forallb url.alnum (Serial r)
      then url.escape (Serial r) url.encodePath = Serial r else True)
  /\ sign E r a ts
     = HMAC_SHA256 (SecretKey r)
         (strings_ToLower (unicode_lower E) (Serial r)
            ++ [x0a] ++ ts ++ [x0a] ++ marshal_request a)
  /\ (if isASCII (Serial r)
      then strings_ToLower (unicode_lower E) (Serial r)
           = map lower_byte (Serial r)
      else True)
  /\ match url_Parse_error E (messages_URL r) with
     | Some e => fst (Robot_exec_request E r a s) = Err e
     | None =>
         exists req,
           fst (Robot_exec_request E r a s) = Ok req
           /\ http.URL req = messages_URL r
           /\ http.Header req !! "Authorization"%bs
              = Some [ "NEATOAPP "%bs ++ hex_Encode (sign E r a ts) ]
     end.
Proof.
  intros Hs ts.
  split; [apply Join_serial, Hs|].
  split; [apply messages_URL_text, Hs|].
  split.
  { destruct (forallb url.alnum (Serial r)) eqn:Ha; [|exact I].
    apply escape_alnum, Ha. }
  split; [unfold sign; rewrite hmac_object_spec; reflexivity|].
  split.
  { destruct (isASCII (Serial r)) eqn:Ha; [|exact I].
    apply ToLower_ASCII, Ha. }
  rewrite Robot_exec_request_run.
  destruct (url_Parse_error E (messages_URL r)); [reflexivity|].
  cbv zeta. eexists. split; [reflexivity|]. split; [reflexivity|].
  unfold authorization. apply Header_Set_same, canonical_Authorization.
Qed.

(** ** The encoder's output determines the envelope *)

(** *** Numbers and booleans *)

Lemma digits_all_digit (d : Decimal.uint) :
  Forall (fun c => is_digit c = true) (strconv.digits d).
Proof. induction d; cbn [strconv.digits]; constructor; auto. Qed.

Lemma digits_inj (d d' : Decimal.uint) :
  strconv.digits d = strconv.digits d' -> d = d'.
Proof.
  revert d'. induction d; intros d' H; destruct d'; cbn in H;
    try discriminate H; try reflexivity;
    injection H as H; f_equal; apply IHd, H.
Qed.

Lemma digit_span (d1 d2 r1 r2 : bytes) :
  Forall (fun c => is_digit c = true) d1 ->
  Forall (fun c => is_digit c = true) d2 ->
  number_stop r1 -> number_stop r2 ->
  d1 ++ r1 = d2 ++ r2 -> d1 = d2 /\ r1 = r2.
Proof.
  intros H1. revert d2. induction H1 as [|c d1 Hc H1 IH]; intros d2 H2 K1 K2 H.
  - destruct H2 as [|c' d2 Hc' H2]; [auto|].
    cbn in H. subst r1. cbn in K1. congruence.
  - destruct H2 as [|c' d2 Hc' H2].
    + cbn in H. subst r2. cbn in K2. congruence.
    + cbn in H. injection H as -> H.
      destruct (IH d2 H2 K1 K2 H) as [-> ->]. auto.
Qed.

Lemma FormatInt_pos_digits (p : positive) :
  exists c t, strconv.digits (Pos.to_uint p) = c :: t
              /\ is_digit c = true
              /\ Forall (fun c => is_digit c = true) t.
Proof.
  pose proof (digits_all_digit (Pos.to_uint p)) as Hall.
  pose proof (DecimalPos.Unsigned.to_uint_nonnil p) as Hnn.
  destruct (Pos.to_uint p) eqn:Hp; try contradiction;
    cbn [strconv.digits] in *; inversion Hall; subst; eauto.
Qed.

Lemma encodeInt_UD (a b : Z) (r1 r2 : bytes) :
  number_stop r1 -> number_stop r2 ->
  json.encodeInt a ++ r1 = json.encodeInt b ++ r2 -> a = b /\ r1 = r2.
Proof.
  intros K1 K2 H. unfold json.encodeInt, strconv.FormatInt in H.
  assert (Hpos : forall p q s1 s2, number_stop s1 -> number_stop s2 ->
             strconv.digits (Pos.to_uint p) ++ s1
             = strconv.digits (Pos.to_uint q) ++ s2 -> p = q /\ s1 = s2).
  { intros p q s1 s2 L1 L2 Hd.
    destruct (digit_span _ _ _ _ (digits_all_digit _) (digits_all_digit _)
                L1 L2 Hd) as [Hd' ->].
    apply digits_inj, DecimalPos.Unsigned.to_uint_inj in Hd'. auto. }
  assert (Hzero : forall p s1 s2, number_stop s1 -> number_stop s2 ->
             "0"%bs ++ s1 = strconv.digits (Pos.to_uint p) ++ s2 -> False).
  { intros p s1 s2 L1 L2 Hd.
    change "0"%bs with (strconv.digits (Decimal.D0 Decimal.Nil)) in Hd.
    destruct (digit_span _ _ _ _ (digits_all_digit _) (digits_all_digit _)
                L1 L2 Hd) as [Hd' _].
    apply digits_inj in Hd'.
    exact (DecimalPos.Unsigned.to_uint_nonzero p (eq_sym Hd')). }
  assert (Hminus : forall p q s1 s2,
             "-"%byte :: strconv.digits (Pos.to_uint p) ++ s1
             = strconv.digits (Pos.to_uint q) ++ s2 -> False).
  { intros p q s1 s2 Hd.
    destruct (FormatInt_pos_digits q) as (c & t & Hq & Hc & _).
    rewrite Hq in Hd. cbn in Hd. injection Hd as <- _. discriminate Hc. }
  destruct a as [|p|p], b as [|q|q].
  - cbn in H. injection H as ->. split; reflexivity.
  - exact (False_ind _ (Hzero _ _ _ K1 K2 H)).
  - cbn in H. discriminate H.
  - exact (False_ind _ (Hzero _ _ _ K2 K1 (eq_sym H))).
  - apply Hpos in H as [-> ->]; [split; reflexivity|assumption..].
  - exact (False_ind _ (Hminus _ _ _ _ (eq_sym H))).
  - cbn in H. discriminate H.
  - exact (False_ind _ (Hminus _ _ _ _ H)).
  - cbn [app] in H. injection H as H.
    apply Hpos in H as [-> ->]; [split; reflexivity|assumption..].
Qed.

Lemma encodeBool_UD (a b : bool) (r1 r2 : bytes) :
  json.encodeBool a ++ r1 = json.encodeBool b ++ r2 -> a = b /\ r1 = r2.
Proof.
  destruct a, b; cbn; intros H; try discriminate H;
    injection H as ->; split; reflexivity.
Qed.

(** *** Bytes as numbers *)

Lemma byte_to_Z_range (b : byte) : 0 <= byte_to_Z b < 256.
Proof.
  unfold byte_to_Z. pose proof (Byte.to_N_bounded b). lia.
Qed.

Lemma byte_to_Z_inj (a b : byte) : byte_to_Z a = byte_to_Z b -> a = b.
Proof.
  unfold byte_to_Z. intros H. apply N2Z.inj in H.
  pose proof (Byte.of_to_N a) as Ha. rewrite H, Byte.of_to_N in Ha.
  congruence.
Qed.

Lemma lor_mul_add (hi lo k : Z) :
  0 <= k -> 0 <= lo < 2 ^ k -> Z.lor (hi * 2 ^ k) lo = hi * 2 ^ k + lo.
Proof.
  intros Hk Hlo.
  assert (Hland : Z.land (hi * 2 ^ k) lo = 0).
  { apply Z.bits_inj'. intros n Hn.
    rewrite Z.land_spec, Z.bits_0.
    destruct (Z.lt_ge_cases n k) as [Hlt|Hge].
    - rewrite Z.mul_pow2_bits_low by lia. reflexivity.
    - rewrite <- (Z.mod_small lo (2 ^ k)) by lia.
      rewrite Z.mod_pow2_bits_high by lia. apply andb_false_r. }
  rewrite <- Z.lxor_lor by exact Hland.
  symmetry. apply Z.add_nocarry_lxor, Hland.
Qed.

Lemma land_63 (x : Z) : Z.land x 63 = x mod 64.
Proof. exact (Z.land_ones x 6 ltac:(lia)). Qed.

(** *** Base64 text *)

Lemma base64_group3 (a b c : byte) :
  Z.lor (Z.lor (Z.shiftl (byte_to_Z a) 16) (Z.shiftl (byte_to_Z b) 8))
        (byte_to_Z c)
  = byte_to_Z a * 65536 + byte_to_Z b * 256 + byte_to_Z c.
Proof.
  pose proof (byte_to_Z_range a). pose proof (byte_to_Z_range b).
  pose proof (byte_to_Z_range c).
  rewrite !Z.shiftl_mul_pow2 by lia.
  rewrite (lor_mul_add (byte_to_Z a) (byte_to_Z b * 2 ^ 8) 16) by lia.
  replace (byte_to_Z a * 2 ^ 16 + byte_to_Z b * 2 ^ 8)
    with ((byte_to_Z a * 256 + byte_to_Z b) * 2 ^ 8) by lia.
  rewrite lor_mul_add by lia. lia.
Qed.

Lemma base64_group2 (a b : byte) :
  Z.lor (Z.shiftl (byte_to_Z a) 16) (Z.shiftl (byte_to_Z b) 8)
  = byte_to_Z a * 65536 + byte_to_Z b * 256.
Proof.
  pose proof (byte_to_Z_range a). pose proof (byte_to_Z_range b).
  rewrite !Z.shiftl_mul_pow2 by lia.
  rewrite (lor_mul_add (byte_to_Z a) (byte_to_Z b * 2 ^ 8) 16) by lia. lia.
Qed.

Lemma encodeStd_position (n : nat) :
  (n < 64)%nat ->
  position (nth n base64.encodeStd x00) base64.encodeStd = Z.of_nat n
  /\ nth n base64.encodeStd x00 <> base64.StdPadding
  /\ nth n base64.encodeStd x00 <> json.quote.
Proof.
  intros Hn.
  do 64 (destruct n as [|n]; [repeat split; discriminate|]). lia.
Qed.

Lemma enc_spec (v : Z) :
  position (base64.enc v) base64.encodeStd = v mod 64
  /\ base64.enc v <> base64.StdPadding
  /\ base64.enc v <> json.quote.
Proof.
  unfold base64.enc, index. rewrite land_63.
  pose proof (Z.mod_pos_bound v 64 ltac:(lia)) as Hb.
  destruct (encodeStd_position (Z.to_nat (v mod 64)) ltac:(lia)) as (Hp & H1 & H2).
  rewrite Z2Nat.id in Hp by lia. auto.
Qed.

Lemma enc_inj (u v : Z) : base64.enc u = base64.enc v -> u mod 64 = v mod 64.
Proof.
  intros H. rewrite <- (proj1 (enc_spec u)), <- (proj1 (enc_spec v)), H.
  reflexivity.
Qed.

Lemma enc_shiftr_inj (u v k : Z) :
  0 <= k -> base64.enc (Z.shiftr u k) = base64.enc (Z.shiftr v k) ->
  (u / 2 ^ k) mod 64 = (v / 2 ^ k) mod 64.
Proof.
  intros Hk H. apply enc_inj in H.
  rewrite !Z.shiftr_div_pow2 in H by exact Hk. exact H.
Qed.

Ltac enc_absurd :=
  exfalso;
  match goal with
  | H : base64.enc ?v = base64.StdPadding |- _ =>
      exact (proj1 (proj2 (enc_spec v)) H)
  | H : base64.StdPadding = base64.enc ?v |- _ =>
      exact (proj1 (proj2 (enc_spec v)) (eq_sym H))
  | H : base64.enc ?v = json.quote |- _ =>
      exact (proj2 (proj2 (enc_spec v)) H)
  | H : json.quote = base64.enc ?v |- _ =>
      exact (proj2 (proj2 (enc_spec v)) (eq_sym H))
  | H : base64.StdPadding = json.quote |- _ => discriminate H
  | H : json.quote = base64.StdPadding |- _ => discriminate H
  end.

Ltac sextets :=
  repeat match goal with
         | H : base64.enc (Z.shiftr _ _) = base64.enc (Z.shiftr _ _) |- _ =>
             apply enc_shiftr_inj in H; [|lia]
         | H : base64.enc _ = base64.enc _ |- _ => apply enc_inj in H
         end;
  rewrite ?base64_group3, ?base64_group2, ?Z.shiftl_mul_pow2 in * by lia;
  change (2 ^ 18) with 262144 in *; change (2 ^ 16) with 65536 in *;
  change (2 ^ 12) with 4096 in *; change (2 ^ 6) with 64 in *.

Lemma base64_Encode_UD (s1 : bytes) :
  forall (s2 r1 r2 : bytes),
    base64.Encode s1 ++ json.quote :: r1 = base64.Encode s2 ++ json.quote :: r2 ->
    s1 = s2 /\ r1 = r2.
Proof.
  induction s1 as [|a|a b|a b c s1 IH] using list_ind3;
    intros [|a' [|b' [|c' s2]]] r1 r2 H;
    cbn [base64.Encode app] in H; cbv zeta in H.
  all: try (injection H as H; subst; split; reflexivity).
  all: try (injection H as H1 H; enc_absurd).
  all: try (injection H as H1 H2 H3 H; enc_absurd).
  all: try (injection H as H1 H2 H3 H4 H; enc_absurd).
  - injection H as H1 H2 ->.
    pose proof (byte_to_Z_range a). pose proof (byte_to_Z_range a').
    sextets.
    assert (byte_to_Z a = byte_to_Z a')
      by (Z.div_mod_to_equations; lia).
    split; [f_equal; apply byte_to_Z_inj; assumption|reflexivity].
  - injection H as H1 H2 H3 ->.
    pose proof (byte_to_Z_range a). pose proof (byte_to_Z_range a').
    pose proof (byte_to_Z_range b). pose proof (byte_to_Z_range b').
    sextets.
    assert (byte_to_Z a = byte_to_Z a' /\ byte_to_Z b = byte_to_Z b')
      as [Ha Hb] by (Z.div_mod_to_equations; lia).
    apply byte_to_Z_inj in Ha, Hb. subst. split; reflexivity.
  - injection H as H1 H2 H3 H4 H.
    pose proof (byte_to_Z_range a). pose proof (byte_to_Z_range a').
    pose proof (byte_to_Z_range b). pose proof (byte_to_Z_range b').
    pose proof (byte_to_Z_range c). pose proof (byte_to_Z_range c').
    sextets.
    assert (byte_to_Z a = byte_to_Z a' /\ byte_to_Z b = byte_to_Z b'
            /\ byte_to_Z c = byte_to_Z c') as (Ha & Hb & Hc)
      by (Z.div_mod_to_equations; lia).
    apply byte_to_Z_inj in Ha, Hb, Hc. subst.
    destruct (IH _ _ _ H) as [-> ->]. split; reflexivity.
Qed.

Lemma encodeByteSlice_UD (a b : option bytes) (r1 r2 : bytes) :
  json.encodeByteSlice a ++ r1 = json.encodeByteSlice b ++ r2 ->
  a = b /\ r1 = r2.
Proof.
  destruct a as [s1|], b as [s2|]; cbn [json.encodeByteSlice app];
    intros H; try discriminate H.
  - injection H as H. rewrite <- !app_assoc in H. cbn [app] in H.
    destruct (base64_Encode_UD _ _ _ _ H) as [-> ->]. split; reflexivity.
  - injection H as ->. split; reflexivity.
Qed.

(** *** Strings *)

Lemma untoken_ascii (b : byte) (t x : bytes) :
  byte_to_Z b < 128 ->
  untoken (fst (json.step (b :: t)) ++ x) = Some ([b], x)
  /\ snd (json.step (b :: t)) = 1%nat
  /\ utf8.DecodeRune (b :: t) = (byte_to_Z b, 1%nat).
Proof.
  destruct b; intros Hb; try (exfalso; cbv in Hb; discriminate Hb);
    repeat split; reflexivity.
Qed.

Lemma DecodeRune_firstn4 (s : bytes) :
  utf8.DecodeRune (firstn 4 s) = utf8.DecodeRune s.
Proof.
  destruct s as [|b [|b1 [|b2 [|b3 t]]]]; try reflexivity.
  cbn [firstn]. destruct b; reflexivity.
Qed.

Lemma high_byte_tests (b : byte) :
  128 <= byte_to_Z b ->
  Byte.eqb b json.quote = false /\ Byte.eqb b json.backslash = false
  /\ (byte_to_Z b <? 128) = false.
Proof.
  destruct b; intros Hb; try (exfalso; cbv in Hb; congruence);
    repeat split; reflexivity.
Qed.

Lemma byte_in_range (lo hi : Z) (b : byte) :
  byte_in lo hi b = true -> lo <= byte_to_Z b <= hi.
Proof. unfold byte_in. intros [H1 H2]%andb_prop. lia. Qed.

Lemma first_spec (b : byte) :
  128 <= byte_to_Z b ->
  let x := utf8.first (byte_to_Z b) in
  x = 0xF1
  \/ (x = 0x02 /\ 0xC2 <= byte_to_Z b <= 0xDF)
  \/ (x = 0x13 /\ byte_to_Z b = 0xE0)
  \/ (x = 0x03 /\ 0xE1 <= byte_to_Z b <= 0xEF)
  \/ (x = 0x23 /\ byte_to_Z b = 0xED)
  \/ (x = 0x34 /\ byte_to_Z b = 0xF0)
  \/ (x = 0x04 /\ 0xF1 <= byte_to_Z b <= 0xF3)
  \/ (x = 0x44 /\ byte_to_Z b = 0xF4).
Proof.
  intros Hb. pose proof (byte_to_Z_range b) as Hr. cbv zeta.
  unfold utf8.first.
  repeat match goal with
         | |- context [if ?c then _ else _] => destruct c eqn:?
         end;
    tauto || (repeat (first [left; lia | right]); lia).
Qed.

Lemma land_31 (x : Z) : Z.land x 31 = x mod 32.
Proof. exact (Z.land_ones x 5 ltac:(lia)). Qed.
Lemma land_15 (x : Z) : Z.land x 15 = x mod 16.
Proof. exact (Z.land_ones x 4 ltac:(lia)). Qed.
Lemma land_7 (x : Z) : Z.land x 7 = x mod 8.
Proof. exact (Z.land_ones x 3 ltac:(lia)). Qed.

Lemma rune2_value (b s1 : Z) :
  Z.lor (Z.shiftl (Z.land b 31) 6) (Z.land s1 63) = (b mod 32) * 64 + s1 mod 64.
Proof.
  rewrite land_31, land_63, Z.shiftl_mul_pow2 by lia.
  apply lor_mul_add; [lia|]. apply Z.mod_pos_bound. lia.
Qed.

Lemma rune3_value (b s1 s2 : Z) :
  Z.lor (Z.lor (Z.shiftl (Z.land b 15) 12) (Z.shiftl (Z.land s1 63) 6))
        (Z.land s2 63)
  = (b mod 16) * 4096 + (s1 mod 64) * 64 + s2 mod 64.
Proof.
  rewrite land_15, !land_63, !Z.shiftl_mul_pow2 by lia.
  pose proof (Z.mod_pos_bound s1 64 ltac:(lia)).
  pose proof (Z.mod_pos_bound s2 64 ltac:(lia)).
  rewrite (lor_mul_add (b mod 16) (s1 mod 64 * 2 ^ 6) 12) by lia.
  replace (b mod 16 * 2 ^ 12 + s1 mod 64 * 2 ^ 6)
    with ((b mod 16 * 64 + s1 mod 64) * 2 ^ 6) by lia.
  rewrite lor_mul_add by lia. lia.
Qed.

Lemma rune4_value (b s1 s2 s3 : Z) :
  Z.lor (Z.lor (Z.lor (Z.shiftl (Z.land b 7) 18) (Z.shiftl (Z.land s1 63) 12))
               (Z.shiftl (Z.land s2 63) 6))
        (Z.land s3 63)
  = (b mod 8) * 262144 + (s1 mod 64) * 4096 + (s2 mod 64) * 64 + s3 mod 64.
Proof.
  rewrite land_7, !land_63, !Z.shiftl_mul_pow2 by lia.
  pose proof (Z.mod_pos_bound s1 64 ltac:(lia)).
  pose proof (Z.mod_pos_bound s2 64 ltac:(lia)).
  pose proof (Z.mod_pos_bound s3 64 ltac:(lia)).
  rewrite (lor_mul_add (b mod 8) (s1 mod 64 * 2 ^ 12) 18) by lia.
  replace (b mod 8 * 2 ^ 18 + s1 mod 64 * 2 ^ 12)
    with ((b mod 8 * 64 + s1 mod 64) * 2 ^ 12) by lia.
  rewrite (lor_mul_add _ (s2 mod 64 * 2 ^ 6) 12) by lia.
  replace ((b mod 8 * 64 + s1 mod 64) * 2 ^ 12 + s2 mod 64 * 2 ^ 6)
    with (((b mod 8 * 64 + s1 mod 64) * 64 + s2 mod 64) * 2 ^ 6) by lia.
  rewrite lor_mul_add by lia. lia.
Qed.

Ltac table_constants :=
  repeat match goal with
         | H : context [Z.to_nat (Z.land ?k 7)] |- _ =>
             let v := eval vm_compute in (Z.to_nat (Z.land k 7)) in
             change (Z.to_nat (Z.land k 7)) with v in *
         | |- context [Z.to_nat (Z.land ?k 7)] =>
             let v := eval vm_compute in (Z.to_nat (Z.land k 7)) in
             change (Z.to_nat (Z.land k 7)) with v in *
         | H : context [utf8.acceptRanges (Z.shiftr ?k 4)] |- _ =>
             let v := eval vm_compute in (utf8.acceptRanges (Z.shiftr k 4)) in
             change (utf8.acceptRanges (Z.shiftr k 4)) with v in *
         end.

Ltac decode_leaves H :=
  repeat match type of H with
         | context [match ?t with [] => _ | _ :: _ => _ end] =>
             is_var t; destruct t
         | context [if negb ?c then _ else _] => destruct c eqn:?; cbn [negb] in H
         | context [(length _ <? _)%nat] => cbn [length Nat.ltb Nat.leb] in H
         | context [(_ <=? _)%nat] => cbn [Nat.leb] in H
         end.

Lemma DecodeRune_multibyte (b : byte) (t : bytes) (c : Z) (size : nat) :
  128 <= byte_to_Z b ->
  utf8.DecodeRune (b :: t) = (c, size) ->
  (c =? utf8.RuneError) && (size =? 1)%nat = false ->
  size = Z.to_nat (Z.land (utf8.first (byte_to_Z b)) 7)
  /\ (2 <= size <= length (b :: t))%nat
  /\ (c = 0x2028 \/ c = 0x2029 ->
      firstn size (b :: t) = [xe2; x80; byte_of_Z (c - 0x2028 + 0xA8)]).
Proof.
  intros Hb Hdec Hok. unfold utf8.DecodeRune in Hdec.
  destruct (first_spec b Hb) as [Hx|[[Hx Hr]|[[Hx Hr]|[[Hx Hr]|[[Hx Hr]|[[Hx Hr]|[[Hx Hr]|[Hx Hr]]]]]]]];
    rewrite Hx in Hdec |- *.
  all: cbn [Z.leb Z.compare Pos.compare Pos.compare_cont Z.eqb Pos.eqb] in Hdec.
  all: try (injection Hdec as <- <-; discriminate Hok).
  all: table_constants; cbv beta iota in Hdec.
  all: decode_leaves Hdec.
  all: try (injection Hdec as <- <-; discriminate Hok).
  all: injection Hdec as <- <-.
  all: split; [reflexivity|split; [cbn [length]; lia|]].
  all: repeat match goal with
         | H : byte_in _ _ _ = true |- _ => apply byte_in_range in H
         | H : utf8.cont _ = true |- _ => apply byte_in_range in H
         end.
  all: rewrite ?rune2_value, ?rune3_value, ?rune4_value.
  all: intros Hc.
  all: try (exfalso; Z.div_mod_to_equations; lia).
  all: match goal with
       | |- firstn 3 (?x :: ?y :: ?z :: _) = _ =>
           assert (x = xe2)
             by (apply byte_to_Z_inj; change (byte_to_Z xe2) with 226;
                 Z.div_mod_to_equations; lia);
           assert (y = x80)
             by (apply byte_to_Z_inj; change (byte_to_Z x80) with 128;
                 Z.div_mod_to_equations; lia);
           destruct Hc as [Hc|Hc]; rewrite Hc;
           [ assert (z = xa8)
               by (apply byte_to_Z_inj; change (byte_to_Z xa8) with 168;
                   Z.div_mod_to_equations; lia)
           | assert (z = xa9)
               by (apply byte_to_Z_inj; change (byte_to_Z xa9) with 169;
                   Z.div_mod_to_equations; lia) ];
           subst; reflexivity
       end.
Qed.

Lemma step_token (b : byte) (t : bytes) (c : Z) (size : nat) :
  utf8.DecodeRune (b :: t) = (c, size) ->
  (c =? utf8.RuneError) && (size =? 1)%nat = false ->
  (1 <= size <= length (b :: t))%nat
  /\ snd (json.step (b :: t)) = size
  /\ forall x, untoken (fst (json.step (b :: t)) ++ x)
               = Some (firstn size (b :: t), x).
Proof.
  intros Hdec Hok.
  destruct (Z.lt_ge_cases (byte_to_Z b) 128) as [Hlt|Hge].
  - destruct (untoken_ascii b t [] Hlt) as (_ & Hk & Hd).
    rewrite Hd in Hdec. injection Hdec as <- <-.
    split; [cbn [length]; lia|]. split; [exact Hk|].
    intros x. exact (proj1 (untoken_ascii b t x Hlt)).
  - destruct (DecodeRune_multibyte b t c size Hge Hdec Hok) as (Hsz & Hlen & H28).
    destruct (high_byte_tests b Hge) as (Hq & Hbs & Hlt).
    unfold json.step. unfold utf8.RuneSelf. rewrite Hlt.
    rewrite DecodeRune_firstn4, Hdec, Hok.
    split; [lia|].
    destruct ((c =? 8232) || (c =? 8233)) eqn:Hsep.
    + split; [reflexivity|]. intros x. cbn [fst].
      assert (Hc : c = 8232 \/ c = 8233) by lia.
      rewrite (H28 Hc). destruct Hc as [-> | ->]; reflexivity.
    + split; [reflexivity|]. intros x. cbn [fst].
      assert (Hl : length (firstn size (b :: t)) = size)
        by (apply firstn_length_le; lia).
      destruct size as [|k]; [lia|]. cbn [firstn app].
      unfold untoken. rewrite Hq, Hbs, Hlt. cbv zeta.
      rewrite <- Hsz.
      change (b :: firstn k t ++ x) with (firstn (S k) (b :: t) ++ x).
      rewrite firstn_app, skipn_app, Hl, Nat.sub_diag.
      rewrite firstn_firstn, Nat.min_id.
      rewrite (skipn_all2 (firstn (S k) (b :: t))) by lia.
      cbn [firstn skipn app]. rewrite app_nil_r. reflexivity.
Qed.

Lemma unloop_loop (n : nat) :
  forall (s r : bytes) (m : nat),
    (length s <= n)%nat -> utf8.valid_fuel n s = true -> (length s < m)%nat ->
    unloop m (json.loop n s ++ json.quote :: r) = Some (s, r).
Proof.
  induction n as [|n IH]; intros s r m Hn Hv Hm.
  - destruct s; [|cbn in Hn; lia]. destruct m; [lia|]. reflexivity.
  - destruct s as [|b t].
    + destruct m; [lia|]. reflexivity.
    + cbn [utf8.valid_fuel] in Hv.
      destruct (utf8.DecodeRune (b :: t)) as [c size] eqn:Hdec.
      destruct ((c =? utf8.RuneError) && (size =? 1)%nat) eqn:Hok;
        [discriminate Hv|].
      destruct (step_token b t c size Hdec Hok) as (Hsz & Hk & Htok).
      cbn [json.loop].
      destruct (json.step (b :: t)) as [out k] eqn:Hstep.
      cbn [fst snd] in Hk, Htok. subst k.
      destruct m as [|m]; [lia|].
      rewrite <- app_assoc. cbn [unloop]. rewrite Htok.
      assert (Hlen : length (skipn size (b :: t)) = (length (b :: t) - size)%nat)
        by apply length_skipn.
      rewrite IH by (assumption || lia).
      rewrite firstn_skipn. reflexivity.
Qed.

Lemma appendString_UD (a b r1 r2 : bytes) :
  utf8.Valid a = true -> utf8.Valid b = true ->
  json.appendString a ++ r1 = json.appendString b ++ r2 ->
  a = b /\ r1 = r2.
Proof.
  intros Ha Hb H. unfold json.appendString in H.
  cbn [app] in H. injection H as H. rewrite <- !app_assoc in H. cbn [app] in H.
  pose proof (unloop_loop (length a) a r1 (S (length a + length b))
                ltac:(lia) Ha ltac:(lia)) as H1.
  pose proof (unloop_loop (length b) b r2 (S (length a + length b))
                ltac:(lia) Hb ltac:(lia)) as H2.
  rewrite H in H1. rewrite H1 in H2. injection H2 as -> ->.
  split; reflexivity.
Qed.

(** *** Arrays and objects *)

Lemma join_tail (sep x z : bytes) (xs : list bytes) :
  json.join sep (x :: xs) ++ z
  = x ++ match xs with
         | [] => z
         | _ :: _ => sep ++ json.join sep xs ++ z
         end.
Proof.
  destruct xs as [|y ys]; [reflexivity|].
  cbn [json.join]. rewrite <- !app_assoc. reflexivity.
Qed.

Section Elements.

Context {A : Type} (elem : A -> bytes) (p : A -> bool).

Hypothesis elem_UD :
  forall a b r1 r2, p a = true -> p b = true ->
    number_stop r1 -> number_stop r2 ->
    elem a ++ r1 = elem b ++ r2 -> a = b /\ r1 = r2.

Hypothesis elem_head :
  forall a, p a = true -> exists c t, elem a = c :: t /\ c <> "]"%byte.

Lemma join_elems_UD (l1 : list A) :
  forall (l2 : list A) (r1 r2 : bytes),
    forallb p l1 = true -> forallb p l2 = true ->
    json.join ","%bs (map elem l1) ++ "]"%bs ++ r1
    = json.join ","%bs (map elem l2) ++ "]"%bs ++ r2 ->
    l1 = l2 /\ r1 = r2.
Proof.
  induction l1 as [|a l1 IH]; intros [|b l2] r1 r2 H1 H2 H.
  - cbn in H. injection H as ->. split; reflexivity.
  - exfalso. cbn [forallb] in H2. apply andb_prop in H2 as [Hb _].
    destruct (elem_head b Hb) as (c & t & Hc & Hne).
    cbn [map] in H. rewrite join_tail, Hc in H. cbn in H.
    injection H as H _. congruence.
  - exfalso. cbn [forallb] in H1. apply andb_prop in H1 as [Ha _].
    destruct (elem_head a Ha) as (c & t & Hc & Hne).
    cbn [map] in H. rewrite join_tail, Hc in H. cbn in H.
    injection H as H _. congruence.
  - cbn [forallb] in H1, H2.
    apply andb_prop in H1 as [Ha H1]. apply andb_prop in H2 as [Hb H2].
    cbn [map] in H. rewrite !join_tail in H.
    apply elem_UD in H as [-> H]; [|assumption|assumption|..].
    2: destruct l1; exact eq_refl.
    2: destruct l2; exact eq_refl.
    destruct l1 as [|a1 l1], l2 as [|b1 l2]; cbn [map] in H.
    + cbn in H. injection H as ->. split; reflexivity.
    + discriminate H.
    + discriminate H.
    + cbn [app] in H. injection H as H.
      destruct (IH (b1 :: l2) r1 r2 H1 H2 H) as [-> ->]. split; reflexivity.
Qed.

Lemma encodeSlice_UD (v1 v2 : option (list A)) (r1 r2 : bytes) :
  match v1 with Some l => forallb p l | None => true end = true ->
  match v2 with Some l => forallb p l | None => true end = true ->
  json.encodeSlice elem v1 ++ r1 = json.encodeSlice elem v2 ++ r2 ->
  v1 = v2 /\ r1 = r2.
Proof.
  intros H1 H2 H. destruct v1 as [l1|], v2 as [l2|];
    cbn [json.encodeSlice app] in H; try discriminate H.
  - injection H as H. rewrite <- !app_assoc in H.
    destruct (join_elems_UD l1 l2 r1 r2 H1 H2 H) as [-> ->].
    split; reflexivity.
  - injection H as ->. split; reflexivity.
Qed.

End Elements.

Lemma field_member (name v z : bytes) :
  json.field name v ++ z = member name ++ v ++ z.
Proof.
  unfold json.field, member. cbn [app]. rewrite <- !app_assoc. reflexivity.
Qed.

Lemma encodeStruct_text (fields : list bytes) (z : bytes) :
  json.encodeStruct fields ++ z
  = "{"%bs ++ json.join ","%bs fields ++ "}"%bs ++ z.
Proof. unfold json.encodeStruct. rewrite <- !app_assoc. reflexivity. Qed.

Ltac object_text H :=
  rewrite !encodeStruct_text in H;
  repeat (rewrite join_tail in H; cbv beta iota in H);
  rewrite ?field_member in H.

Ltac read_member H :=
  repeat (apply app_inv_head in H);
  first
    [ apply encodeInt_UD in H as [? H]; [|exact eq_refl|exact eq_refl]
    | apply encodeBool_UD in H as [? H]
    | apply appendString_UD in H as [? H]; [|assumption|assumption]
    | apply encodeByteSlice_UD in H as [? H] ].

Lemma marshal_event_UD (a b : event) (r1 r2 : bytes) :
  valid_event a = true -> valid_event b = true ->
  marshal_event a ++ r1 = marshal_event b ++ r2 -> a = b /\ r1 = r2.
Proof.
  destruct a as [m d st bd], b as [m' d' st' bd'].
  unfold valid_event. cbn [event_StartTime event_BoundaryID].
  intros [Va1 Va2]%andb_prop [Vb1 Vb2]%andb_prop H.
  unfold marshal_event in H.
  cbn [event_Mode event_Day event_StartTime event_BoundaryID] in H.
  object_text H.
  do 4 read_member H. apply app_inv_head in H. subst. split; reflexivity.
Qed.

Lemma appendString_head (s : bytes) :
  utf8.Valid s = true ->
  exists c t, json.appendString s = c :: t /\ c <> "]"%byte.
Proof. intros _. eexists _, _. split; [reflexivity|discriminate]. Qed.

Lemma marshal_event_head (e : event) :
  valid_event e = true ->
  exists c t, marshal_event e = c :: t /\ c <> "]"%byte.
Proof. intros _. eexists _, _. split; [reflexivity|discriminate]. Qed.

Lemma string_elem_UD (a b r1 r2 : bytes) :
  utf8.Valid a = true -> utf8.Valid b = true ->
  number_stop r1 -> number_stop r2 ->
  json.appendString a ++ r1 = json.appendString b ++ r2 -> a = b /\ r1 = r2.
Proof. intros Ha Hb _ _. apply appendString_UD; assumption. Qed.

Lemma event_elem_UD (a b : event) (r1 r2 : bytes) :
  valid_event a = true -> valid_event b = true ->
  number_stop r1 -> number_stop r2 ->
  marshal_event a ++ r1 = marshal_event b ++ r2 -> a = b /\ r1 = r2.
Proof. intros Ha Hb _ _. apply marshal_event_UD; assumption. Qed.

Ltac read_any H :=
  repeat (apply app_inv_head in H);
  first
    [ read_member H
    | apply (encodeSlice_UD json.appendString utf8.Valid
               string_elem_UD appendString_head) in H as [? H];
      [|assumption|assumption]
    | apply (encodeSlice_UD marshal_event valid_event
               event_elem_UD marshal_event_head) in H as [? H];
      [|assumption|assumption] ].

Lemma marshal_Params_UD (a b : Params) (r1 r2 : bytes) :
  valid_Params a = true -> valid_Params b = true ->
  marshal_Params a ++ r1 = marshal_Params b ++ r2 -> a = b /\ r1 = r2.
Proof.
  destruct a as [a1 a2 a3 a4 a5 a6 a7 a8 a9 a10 a11 a12 a13 a14 a15 a16 a17 a18 a19].
  destruct b as [b1 b2 b3 b4 b5 b6 b7 b8 b9 b10 b11 b12 b13 b14 b15 b16 b17 b18 b19].
  unfold valid_Params.
  cbn [Locale AvailableLocales BoundaryID Events].
  intros Va Vb H.
  apply andb_prop in Va as [Va Va4]. apply andb_prop in Va as [Va Va3].
  apply andb_prop in Va as [Va1 Va2].
  apply andb_prop in Vb as [Vb Vb4]. apply andb_prop in Vb as [Vb Vb3].
  apply andb_prop in Vb as [Vb1 Vb2].
  unfold marshal_Params in H.
  cbn [Category Mode Modifier RobotSounds DirtbinAlert AllAlerts Leds
       ButtonClicks DirtbinAlertReminderInterval FilterChangeReminderInterval
       BrushChangeReminderInterval Clock24H Locale AvailableLocales
       NavigationMode BoundaryID SpotWidth SpotHeight Events] in H.
  object_text H.
  do 19 read_any H. apply app_inv_head in H. subst. split; reflexivity.
Qed.

Lemma marshal_request_UD (a b : request) (r1 r2 : bytes) :
  valid_request a = true -> valid_request b = true ->
  marshal_request a ++ r1 = marshal_request b ++ r2 -> a = b /\ r1 = r2.
Proof.
  destruct a as [id cmd p], b as [id' cmd' p']. unfold valid_request.
  cbn [Cmd request_Params].
  intros [Va1 Va2]%andb_prop [Vb1 Vb2]%andb_prop H.
  unfold marshal_request in H. cbn [ReqID Cmd request_Params] in H.
  destruct p as [p|], p' as [p'|]; cbn [app] in H; object_text H;
    do 2 read_member H.
  - do 2 apply app_inv_head in H.
    apply marshal_Params_UD in H as [? H]; [|assumption|assumption].
    apply app_inv_head in H. subst. split; reflexivity.
  - discriminate H.
  - discriminate H.
  - apply app_inv_head in H. subst. split; reflexivity.
Qed.

(** Two envelopes with well-formed strings and the same JSON text are
    the same envelope. *)
Lemma marshal_request_inj (a b : request) :
  valid_request a = true -> valid_request b = true ->
  marshal_request a = marshal_request b -> a = b.
Proof.
  intros Ha Hb H.
  apply (marshal_request_UD a b [] []); [assumption|assumption|].
  rewrite !app_nil_r. exact H.
Qed.

(** ** C3: what the signing string depends on *)

(** C3, as the code has it.  The signing string is a function of the
    lower-cased serial, the timestamp and the envelope.  For envelopes
    whose strings are well-formed UTF-8 and the other inputs fixed: two
    timestamps give the same signing string only if they are equal, two
    envelopes only if they are equal, and two serials exactly when their
    lower-cased forms are equal; so two ASCII serials that differ only in
    letter case give the same signing string. *)
Theorem C3_signingString_sensitivity (E : Env) (r r' : Robot)
        (req req' : request) (ts ts' : bytes) :
  valid_request req = true -> valid_request req' = true ->
  (signingString E r req ts = signingString E r req ts' <-> ts = ts')
  /\ (signingString E r req ts = signingString E r req' ts <-> req = req')
  /\ (signingString E r req ts = signingString E r' req ts
      <-> strings_ToLower (unicode_lower E) (Serial r)
          = strings_ToLower (unicode_lower E) (Serial r'))
  /\ (isASCII (Serial r) = true -> isASCII (Serial r') = true ->
      map lower_byte (Serial r) = map lower_byte (Serial r') ->
      signingString E r req ts = signingString E r' req ts).
Proof.
  intros Hv Hv'. unfold signingString. cbv zeta.
  split; [|split; [|split]].
  - split; [|intros ->; reflexivity].
    intros H. apply app_inv_head in H. apply app_inv_head in H.
    apply app_inv_tail in H. exact H.
  - split; [|intros ->; reflexivity].
    intros H. do 4 apply app_inv_head in H.
    apply marshal_request_inj; assumption.
  - split; [|intros ->; reflexivity].
    intros H. apply app_inv_tail in H. exact H.
  - intros Ha Ha' Hl.
    rewrite !ToLower_ASCII by assumption. rewrite Hl. reflexivity.
Qed.

(** Outside well-formed UTF-8 the envelope is not determined: the encoder
    writes the replacement character for every invalid byte. *)
Example invalid_bytes_collide :
  marshal_request {| ReqID := None; Cmd := [xff]; request_Params := None |}
  = marshal_request {| ReqID := None; Cmd := [xfe]; request_Params := None |}.
Proof. reflexivity. Qed.

(** ** Instances at concrete inputs *)

Lemma C2_exec_checks_reqId_witness :
  let E := answering_Env (Some "wrong"%bs) in
  let result := {| Version := 1; Response_ReqID := Some "wrong"%bs;
                   Result := "ok"%bs; Telemetry := tt |} in
  (fst (Robot_exec E golden_Robot golden_request empty_State) = Ok result
   <-> string_of (Response_ReqID result) = string_of (ReqID golden_request))
  /\ (string_of (Response_ReqID result) <> string_of (ReqID golden_request)
      -> fst (Robot_exec E golden_Robot golden_request empty_State)
         = Err "conflicting ReqID value"%bs).
Proof.
  intros E result.
  apply (C2_exec_checks_reqId E golden_Robot golden_request empty_State
           (snd (Robot_exec_request E golden_Robot golden_request empty_State))
           (request_of (Robot_exec_request E golden_Robot golden_request
                          empty_State) blank_Request)
           {| http.StatusCode := 200; http.ResponseBody := [] |} result).
  - vm_compute. reflexivity.
  - reflexivity.
  - reflexivity.
Defined.

Lemma C6_Refresh_in_place_witness :
  heap one_session_State !! 1%nat = Some some_Session
  /\ fst (Refresh session_Env 1%nat one_session_State) = Ok tt
  /\ heap (snd (Refresh session_Env 1%nat one_session_State)) !! 1%nat
     = Some {| AccessToken := "ffee"%bs; CurrentTime := 9;
               client := client some_Session |}.
Proof.
  assert (H : heap one_session_State !! 1%nat = Some some_Session)
    by reflexivity.
  split; [exact H|].
  pose proof (C6_Refresh_in_place session_Env 1%nat some_Session
                one_session_State H) as (_ & _ & Hreq).
  vm_compute in Hreq. exact (proj2 (proj2 Hreq)).
Defined.

Lemma C7_bearer_on_every_call_witness :
  heap one_session_State !! 1%nat = Some some_Session
  /\ one_bearer_request session_Env 1%nat some_Session "users/me"%bs
       one_session_State (snd (GetUser session_Env 1%nat one_session_State)).
Proof.
  assert (H : heap one_session_State !! 1%nat = Some some_Session)
    by reflexivity.
  split; [exact H|].
  exact (proj1 (C7_bearer_on_every_call session_Env 1%nat some_Session
                  one_session_State [] [] H)).
Defined.

Lemma C8_NewSession_query_witness :
  let tok := hex_Encode (repeat x00 32) in
  exists req,
    sent (snd (NewSession session_Env empty_State))
    = [entry LocalClient http.zero_Client req]
    /\ http.Method req = "POST"%bs
    /\ http.URL req
       = "https://beehive.neatocloud.com/sessions?email=a%40b.com&password=secret&platform=ios&token="%bs
         ++ tok.
Proof.
  assert (Hr : rand_Reader session_Env empty_State
               = EntropyStream (fun _ => x00)) by reflexivity.
  assert (Hp : pass_Get session_Env (after_read empty_State) credentialsPassRE
               = Ok {| Username := "a@b.com"%bs; Password := "secret"%bs |})
    by reflexivity.
  pose proof (C8_NewSession_query session_Env empty_State (fun _ => x00) Hr Hp)
    as (_ & _ & _ & _ & _ & Hsent).
  exact Hsent.
Defined.

(** C4.  [FindMe(nil)] with an entropy source delivering zero bytes: the
    envelope's identifier is thirty-two zero digits, one request is sent,
    and the [reqId] member of its body is the base64 text of that
    identifier, not the identifier itself. *)
Lemma C4_FindMe_body_at_zero_entropy :
  let E := answering_Env None in
  fst (newRequest E "findMe"%bs None empty_State) = Ok golden_request
  /\ ReqID golden_request = Some "00000000000000000000000000000000"%bs
  /\ exists req,
       sent (snd (FindMe E golden_Robot None empty_State))
       = [entry LocalClient http.zero_Client req]
       /\ http.Body req
          = Some ("{"%bs ++ json.quote :: "reqId"%bs ++ json.quote :: ":"%bs
                    ++ json.quote
                    :: "MDAwMDAwMDAwMDAwMDAwMDAwMDAwMDAwMDAwMDAwMDA="%bs
                    ++ json.quote :: ","%bs ++ json.quote :: "cmd"%bs
                    ++ json.quote :: ":"%bs ++ json.quote :: "findMe"%bs
                    ++ json.quote :: "}"%bs)
       /\ http.Body req <> Some (body_with_plain_reqId golden_request).
Proof.
  intros E. split; [reflexivity|]. split; [reflexivity|].
  exists (request_of (Robot_exec_request E golden_Robot golden_request
                        (after_read empty_State)) blank_Request).
  split; [vm_compute; reflexivity|].
  split; [vm_compute; reflexivity|].
  vm_compute. discriminate.
Qed.

Lemma C9_serial_in_signature_and_path_witness :
  clean_relative (Serial golden_Robot) = true
  /\ path.Join ["vendors/neato/robots"%bs; Serial golden_Robot; "messages"%bs]
     = "vendors/neato/robots/ABC123/messages"%bs
  /\ messages_URL golden_Robot
     = "https://nucleo.neatocloud.com:4443/vendors/neato/robots/ABC123/messages"%bs
  /\ strings_ToLower (unicode_lower session_Env) (Serial golden_Robot)
     = "abc123"%bs.
Proof.
  assert (H : clean_relative (Serial golden_Robot) = true) by reflexivity.
  split; [exact H|].
  pose proof (C9_serial_in_signature_and_path session_Env golden_Robot
                golden_request empty_State H) as (Hp & Hu & _ & _ & Hl & _).
  split; [exact Hp|]. split; [exact Hu|]. exact Hl.
Defined.

(** C9 as stated fails for a serial that [path.Join] rewrites: with the
    serial [..] the path of the request URL does not contain the serial. *)
Lemma C9_dotdot_counterexample :
  path.Join ["vendors/neato/robots"%bs; Serial dotdot_Robot; "messages"%bs]
  = "vendors/neato/messages"%bs
  /\ path.Join ["vendors/neato/robots"%bs; Serial dotdot_Robot; "messages"%bs]
     <> path_with_serial (Serial dotdot_Robot)
  /\ messages_URL dotdot_Robot
     = "https://nucleo.neatocloud.com:4443/vendors/neato/messages"%bs.
Proof.
  split; [reflexivity|]. split; [|reflexivity].
  vm_compute. discriminate.
Qed.

Lemma C3_signingString_sensitivity_witness :
  valid_request golden_request = true
  /\ valid_request other_request = true
  /\ (signingString session_Env golden_Robot golden_request timeFormat
      = signingString session_Env golden_Robot other_request timeFormat
      <-> golden_request = other_request)
  /\ signingString session_Env golden_Robot golden_request timeFormat
     = signingString session_Env lowercase_Robot golden_request timeFormat.
Proof.
  assert (H1 : valid_request golden_request = true) by reflexivity.
  assert (H2 : valid_request other_request = true) by reflexivity.
  split; [exact H1|]. split; [exact H2|].
  pose proof (C3_signingString_sensitivity session_Env golden_Robot
                lowercase_Robot golden_request other_request
                timeFormat timeFormat H1 H2) as (_ & Hreq & _ & Hcase).
  split; [exact Hreq|].
  apply Hcase; reflexivity.
Defined.

(** C3 as stated fails: changing only the letter case of the serial
    leaves the signing string as it is. *)
Lemma C3_serial_case_counterexample :
  ~ (forall (E : Env) (r r' : Robot) (req : request) (ts : bytes),
        Serial r <> Serial r' ->
        signingString E r req ts <> signingString E r' req ts).
Proof.
  intros H.
  apply (H session_Env golden_Robot lowercase_Robot golden_request timeFormat).
  - discriminate.
  - reflexivity.
Qed.

(** ** More on sessions *)

(** X1. When [NewSession] succeeds, the address it returns was not in use
    before, every session that existed is unchanged, and the new session
    holds the fields decoded from the answer (the zero value where the
    answer had none) together with a zero-valued [client]; the one request
    went out through a zero-valued client as well. *)
Theorem X1_NewSession_returns_fresh_session (E : Env) (s s' : State) (p : nat) :
  NewSession E s = (Ok p, s') ->
  heap s !! p = None
  /\ (forall q, q <> p -> heap s' !! q = heap s !! q)
  /\ exists req resp,
       fst (sessions_request E s) = Ok req
       /\ client_Do E (after_read s) http.zero_Client req = Ok resp
       /\ dec_error (decode_Session E (http.ResponseBody resp)) = None
       /\ heap s' !! p
          = Some {| AccessToken :=
                      default [] (dec_access_token
                                    (decode_Session E (http.ResponseBody resp)));
                    CurrentTime :=
                      default zero_Time
                        (dec_current_time
                           (decode_Session E (http.ResponseBody resp)));
                    client := http.zero_Client |}
       /\ sent s' = sent s ++ [entry LocalClient http.zero_Client req].
Proof.
  intros H. rewrite NewSession_run in H.
  pose proof (sessions_request_state E s) as Hst.
  destruct (sessions_request E s) as [[req| |] s1]; try discriminate H.
  cbn [snd] in Hst. subst s1.
  destruct (client_Do E (after_read s) http.zero_Client req) as [resp| |] eqn:Hdo;
    try discriminate H.
  cbv zeta in H.
  destruct (dec_error (decode_Session E (http.ResponseBody resp))) eqn:Hd;
    try discriminate H.
  unfold alloc in H. cbn [heap after_send after_read sent reads] in H.
  injection H as <- <-. cbn [heap sent].
  split.
  { apply not_elem_of_dom. apply is_fresh. }
  split.
  { intros q Hq. apply lookup_insert_ne. congruence. }
  exists req, resp. split; [reflexivity|]. split; [exact Hdo|].
  split; [exact Hd|]. split; [|reflexivity].
  rewrite lookup_insert_eq. reflexivity.
Qed.

Lemma X1_NewSession_returns_fresh_session_witness :
  exists p s',
    NewSession session_Env empty_State = (Ok p, s')
    /\ heap empty_State !! p = None
    /\ heap s' !! p
       = Some {| AccessToken := "ffee"%bs; CurrentTime := 9;
                 client := http.zero_Client |}.
Proof.
  exists (fresh (dom (heap empty_State))),
    (snd (NewSession session_Env empty_State)).
  assert (H : NewSession session_Env empty_State
              = (Ok (fresh (dom (heap empty_State))),
                 snd (NewSession session_Env empty_State))) by reflexivity.
  split; [exact H|].
  destruct (X1_NewSession_returns_fresh_session session_Env empty_State _ _ H)
    as (Hf & _ & req & resp & _ & Hdo & _ & Hp & _).
  split; [exact Hf|].
  injection Hdo as <-. exact Hp.
Defined.


Lemma Session_exec_nil (E : Env) (p : nat) (method rpath : bytes) (s : State) :
  heap s !! p = None ->
  Session_exec E p method rpath s =
  match url_Parse_error E (beehive_URL rpath) with
  | Some e => (Err e, s)
  | None => (Panic, s)
  end.
Proof.
  intros Hp. unfold Session_exec, setHeaders, bind, lift, http_NewRequest,
    load, ret.
  fold (beehive_URL rpath).
  destruct (url_Parse_error E (beehive_URL rpath)); [reflexivity|].
  cbv beta iota. rewrite Hp. reflexivity.
Qed.

Lemma Session_exec_frame (E : Env) (p : nat) (method rpath : bytes) (s : State) :
  heap (snd (Session_exec E p method rpath s)) = heap s
  /\ reads (snd (Session_exec E p method rpath s)) = reads s.
Proof.
  destruct (heap s !! p) as [cur|] eqn:Hp.
  - rewrite (Session_exec_run E p cur) by exact Hp.
    destruct (url_Parse_error E (beehive_URL rpath)); split; reflexivity.
  - rewrite Session_exec_nil by exact Hp.
    destruct (url_Parse_error E (beehive_URL rpath)); split; reflexivity.
Qed.

(** X2. When the entropy source fails, or the credential provider
    returns an error, [NewSession] and [Refresh] return that error; no
    request is sent and no session changes. *)
Theorem X2_early_failure_sends_nothing (E : Env) (p : nat) (s : State) :
  match rand_Reader E s with
  | EntropyFails e =>
      stopped (NewSession E s) (Err e) s /\ stopped (Refresh E p s) (Err e) s
  | EntropyStream _ =>
      match pass_Get E (after_read s) credentialsPassRE with
      | Err e =>
          stopped (NewSession E s) (Err e) s
          /\ stopped (Refresh E p s) (Err e) s
      | _ => True
      end
  end.
Proof.
  rewrite NewSession_run, Refresh_run, sessions_request_run.
  destruct (rand_Reader E s) as [e|next].
  - repeat split.
  - cbv zeta. destruct (pass_Get E (after_read s) credentialsPassRE);
      [exact I| |exact I].
    repeat split.
Qed.

(** X3. A call of [NewSession] that returns no session leaves the
    sessions exactly as they were. *)
Theorem X3_failed_NewSession_allocates_nothing (E : Env) (s : State) :
  (forall p, fst (NewSession E s) <> Ok p) ->
  heap (snd (NewSession E s)) = heap s.
Proof.
  rewrite NewSession_run.
  pose proof (sessions_request_state E s) as Hst.
  destruct (sessions_request E s) as [[req| |] s1]; cbn [snd] in Hst; subst s1;
    try reflexivity.
  destruct (client_Do E (after_read s) http.zero_Client req); try reflexivity.
  cbv zeta.
  destruct (dec_error _); [reflexivity|].
  intros H. exfalso. unfold alloc in H. cbn [fst] in H.
  exact (H _ eq_refl).
Qed.

Lemma X3_failed_NewSession_allocates_nothing_witness :
  fst (NewSession failing_transport_Env one_session_State)
  = Err "connection refused"%bs
  /\ heap (snd (NewSession failing_transport_Env one_session_State))
     = heap one_session_State.
Proof.
  split; [reflexivity|].
  apply (X3_failed_NewSession_allocates_nothing failing_transport_Env
           one_session_State).
  intros p. discriminate.
Defined.

(** X4. For a session stored at [p], [Refresh] succeeds exactly when the
    request was built, the transport answered and the body decoded
    without error.  When decoding stops with an error, [Refresh] returns
    that error and the session keeps the fields assigned before it; when
    the transport fails, its error is returned and no session changes. *)
Theorem X4_Refresh_outcome (E : Env) (p : nat) (cur : Session) (s : State) :
  heap s !! p = Some cur ->
  (fst (Refresh E p s) = Ok tt
   <-> exists req resp,
         fst (sessions_request E s) = Ok req
         /\ client_Do E (after_read s) (client cur) req = Ok resp
         /\ dec_error (decode_Session E (http.ResponseBody resp)) = None)
  /\ (forall req resp e,
        fst (sessions_request E s) = Ok req ->
        client_Do E (after_read s) (client cur) req = Ok resp ->
        dec_error (decode_Session E (http.ResponseBody resp)) = Some e ->
        fst (Refresh E p s) = Err e
        /\ heap (snd (Refresh E p s)) !! p
           = Some (apply_decode (decode_Session E (http.ResponseBody resp)) cur))
  /\ (forall req e,
        fst (sessions_request E s) = Ok req ->
        client_Do E (after_read s) (client cur) req = Err e ->
        fst (Refresh E p s) = Err e
        /\ heap (snd (Refresh E p s)) = heap s).
Proof.
  intros Hp. rewrite Refresh_run, Hp.
  pose proof (sessions_request_state E s) as Hst.
  destruct (sessions_request E s) as [[req| |] s1]; cbn [snd] in Hst; subst s1;
    cbn [fst].
  2,3: split; [split; [discriminate|intros (? & ? & H & _); discriminate H]|];
       split; intros; discriminate.
  cbv zeta.
  split; [|split].
  - split.
    + intros H.
      destruct (client_Do E _ _ _) as [resp| |] eqn:Hdo; try discriminate H.
      exists req, resp. split; [reflexivity|]. split; [exact Hdo|].
      destruct (dec_error _); [discriminate H|reflexivity].
    + intros (req' & resp & [= <-] & Hdo & Hd). rewrite Hdo, Hd. reflexivity.
  - intros req' resp e [= <-] Hdo Hd. rewrite Hdo, Hd. cbn [fst snd heap].
    split; [reflexivity|]. apply lookup_insert_eq.
  - intros req' e [= <-] Hdo. rewrite Hdo. split; reflexivity.
Qed.

(** X5. [Refresh] on a pointer to no session sends nothing and changes
    no session: it panics at the nil dereference once the request is
    built, and returns the earlier error when building it failed. *)
Theorem X5_Refresh_on_missing_session (E : Env) (p : nat) (s : State) :
  heap s !! p = None ->
  sent (snd (Refresh E p s)) = sent s
  /\ heap (snd (Refresh E p s)) = heap s
  /\ fst (Refresh E p s)
     = match fst (sessions_request E s) with
       | Ok _ => Panic
       | Err e => Err e
       | Panic => Panic
       end.
Proof.
  intros Hp. rewrite Refresh_run, Hp.
  pose proof (sessions_request_state E s) as Hst.
  destruct (sessions_request E s) as [[req| |] s1]; cbn [snd] in Hst; subst s1;
    repeat split.
Qed.

Lemma data_call_state (E : Env) (p : nat) (robot id : bytes) (s : State) :
  snd (GetUser E p s) = snd (Session_exec E p "GET"%bs "users/me"%bs s)
  /\ snd (ListRobots E p s)
     = snd (Session_exec E p "GET"%bs "users/me/robots"%bs s)
  /\ snd (GetRobotMap E p robot id s)
     = snd (Session_exec E p "GET"%bs
              (path.Join ["users/me/robots"%bs; robot; "maps"%bs; id]) s)
  /\ snd (ListRobotMaps E p robot s)
     = snd (Session_exec E p "GET"%bs
              (path.Join ["users/me/robots"%bs; robot; "maps"%bs]) s)
  /\ snd (ListRobotPersistentMaps E p robot s)
     = snd (Session_exec E p "GET"%bs
              (path.Join ["users/me/robots"%bs; robot; "persistent_maps"%bs]) s).
Proof.
  unfold GetUser, ListRobots, GetRobotMap, ListRobotMaps,
    ListRobotPersistentMaps.
  rewrite !bind_lift_state. repeat split.
Qed.

(** X6. None of the five data-retrieval calls changes a session or reads
    from the entropy source, whatever their outcome. *)
Theorem X6_data_calls_keep_sessions (E : Env) (p : nat) (robot id : bytes)
        (s : State) :
  let kept (s' : State) := heap s' = heap s /\ reads s' = reads s in
  kept (snd (GetUser E p s))
  /\ kept (snd (ListRobots E p s))
  /\ kept (snd (GetRobotMap E p robot id s))
  /\ kept (snd (ListRobotMaps E p robot s))
  /\ kept (snd (ListRobotPersistentMaps E p robot s)).
Proof.
  cbv zeta.
  destruct (data_call_state E p robot id s) as (-> & -> & -> & -> & ->).
  repeat split; apply Session_exec_frame.
Qed.

(** ** More on [path.Join] *)

Lemma element_length (p : bytes) :
  (length (snd (path.element p)) <= length p)%nat.
Proof.
  induction p as [|c p IH]; [reflexivity|].
  cbn [path.element]. destruct (Byte.eqb c path.slash); [reflexivity|].
  destruct (path.element p) as [e rest]. cbn [snd length] in *. lia.
Qed.

Lemma element_cons (c : byte) (p : bytes) :
  Byte.eqb c path.slash = false ->
  path.element (c :: p)
  = (c :: fst (path.element p), snd (path.element p)).
Proof.
  intros Hc. cbn [path.element]. rewrite Hc.
  destruct (path.element p); reflexivity.
Qed.

(** The loop of [Clean] does not depend on its fuel once there is enough. *)
Lemma clean_loop_fuel (f1 : nat) :
  forall (f2 : nat) (rooted : bool) (p out : bytes) (dd : nat),
    (length p <= f1)%nat -> (length p <= f2)%nat ->
    path.clean_loop f1 rooted p out dd = path.clean_loop f2 rooted p out dd.
Proof.
  induction f1 as [|f1 IH]; intros f2 rooted p out dd H1 H2.
  - destruct p; [|cbn in H1; lia]. destruct f2; reflexivity.
  - destruct p as [|c p1]; [destruct f2; reflexivity|].
    destruct f2 as [|f2]; [cbn in H2; lia|].
    cbn [length] in H1, H2.
    cbn [path.clean_loop].
    destruct (Byte.eqb c path.slash) eqn:Hc; [apply IH; lia|].
    destruct (Byte.eqb c path.dot && path.at_separator p1); [apply IH; lia|].
    destruct (Byte.eqb c path.dot && _) eqn:Hdd.
    + assert (Hl : (length (tl p1) <= length p1)%nat)
        by (destruct p1; cbn; lia).
      destruct (_ <? _)%nat; [apply IH; lia|].
      destruct (negb rooted); apply IH; lia.
    + pose proof (element_length p1) as Hl.
      rewrite (element_cons c p1 Hc).
      apply IH; lia.
Qed.

Lemma element_app_slash (p q : bytes) :
  path.element (p ++ path.slash :: q)
  = (fst (path.element p), snd (path.element p) ++ path.slash :: q).
Proof.
  induction p as [|c p IH]; [reflexivity|].
  cbn [app path.element]. destruct (Byte.eqb c path.slash); [reflexivity|].
  rewrite IH. destruct (path.element p); reflexivity.
Qed.

(** A slash more after a slash, or at the end, makes no difference to the
    loop of [Clean]. *)
Lemma clean_loop_extra_slash (f : nat) :
  forall (rooted : bool) (p q out : bytes) (dd : nat),
    (length p + length q < f)%nat ->
    q = [] \/ (exists q', q = path.slash :: q') ->
    path.clean_loop f rooted (p ++ path.slash :: q) out dd
    = path.clean_loop f rooted (p ++ q) out dd.
Proof.
  induction f as [|f IH]; intros rooted p q out dd Hf Hq; [lia|].
  assert (Hsep : path.at_separator q = true).
  { destruct Hq as [->|[q' ->]]; reflexivity. }
  destruct p as [|c p1].
  - cbn [app]. cbn [path.clean_loop].
    change (Byte.eqb path.slash path.slash) with true. cbv iota.
    cbn [length] in Hf.
    apply (clean_loop_fuel f (S f)); lia.
  - cbn [app length] in *. cbn [path.clean_loop].
    destruct (Byte.eqb c path.slash) eqn:Hc; [apply IH; [lia|exact Hq]|].
    assert (Hs1 : path.at_separator (p1 ++ path.slash :: q)
                  = path.at_separator (p1 ++ q)).
    { destruct p1; [cbn [app]; rewrite Hsep; reflexivity|reflexivity]. }
    rewrite Hs1.
    destruct (Byte.eqb c path.dot && path.at_separator (p1 ++ q));
      [apply IH; [lia|exact Hq]|].
    assert (Hs2 : match p1 ++ path.slash :: q with
                  | c1 :: p2 => Byte.eqb c1 path.dot && path.at_separator p2
                  | [] => false
                  end
                  = match p1 ++ q with
                    | c1 :: p2 => Byte.eqb c1 path.dot && path.at_separator p2
                    | [] => false
                    end).
    { destruct p1 as [|c1 p2].
      - cbn [app]. destruct Hq as [->|[q' ->]]; reflexivity.
      - cbn [app]. f_equal.
        destruct p2; [cbn [app]; rewrite Hsep; reflexivity|reflexivity]. }
    rewrite Hs2.
    destruct (Byte.eqb c path.dot && _) eqn:Hdd.
    + destruct p1 as [|c1 p2].
      { cbn [app] in Hdd. destruct Hq as [->|[q' ->]];
          rewrite andb_false_r in Hdd; discriminate Hdd. }
      cbn [app tl length] in *.
      destruct (_ <? _)%nat; [apply IH; [lia|exact Hq]|].
      destruct (negb rooted); apply IH; (lia || exact Hq).
    + change (c :: p1 ++ path.slash :: q) with ((c :: p1) ++ path.slash :: q).
      rewrite element_app_slash.
      assert (He : path.element ((c :: p1) ++ q)
                   = (fst (path.element (c :: p1)),
                      snd (path.element (c :: p1)) ++ q)).
      { destruct Hq as [->|[q' ->]].
        - rewrite !app_nil_r. destruct (path.element (c :: p1)); reflexivity.
        - apply element_app_slash. }
      change (c :: p1 ++ q) with ((c :: p1) ++ q). rewrite He.
      pose proof (element_length (c :: p1)) as Hl.
      rewrite (element_cons c p1 Hc) in *. cbn [fst snd length] in *.
      pose proof (element_length p1) as Hl1.
      apply IH; [lia|exact Hq].
Qed.

Lemma Clean_extra_slash (p q : bytes) :
  p <> [] -> q = [] \/ (exists q', q = path.slash :: q') ->
  path.Clean (p ++ path.slash :: q) = path.Clean (p ++ q).
Proof.
  intros Hp Hq. destruct p as [|c p]; [contradiction|].
  unfold path.Clean. cbn [app].
  assert (H1 : forall out dd,
             path.clean_loop (length (c :: p ++ path.slash :: q)) true
               (p ++ path.slash :: q) out dd
             = path.clean_loop (length (c :: p ++ q)) true (p ++ q) out dd).
  { intros out dd. cbn [length]. rewrite !length_app. cbn [length].
    rewrite clean_loop_extra_slash by (lia || exact Hq).
    apply clean_loop_fuel; rewrite length_app; lia. }
  assert (H2 : forall out dd,
             path.clean_loop (length (c :: p ++ path.slash :: q)) false
               (c :: p ++ path.slash :: q) out dd
             = path.clean_loop (length (c :: p ++ q)) false (c :: p ++ q)
                 out dd).
  { intros out dd. cbn [length]. rewrite !length_app. cbn [length].
    change (c :: p ++ path.slash :: q) with ((c :: p) ++ path.slash :: q).
    rewrite clean_loop_extra_slash by (cbn [length]; lia || exact Hq).
    apply clean_loop_fuel; cbn [app length]; rewrite length_app; lia. }
  rewrite H1, H2. reflexivity.
Qed.

Lemma fold_join_step_nonempty (l : list bytes) (buf : bytes) :
  buf <> [] ->
  fold_left path.join_step l buf
  = buf ++ flat_map (fun e => path.slash :: e) l.
Proof.
  revert buf. induction l as [|e l IH]; intros buf Hb.
  - cbn. rewrite app_nil_r. reflexivity.
  - cbn [fold_left flat_map]. unfold path.join_step at 2.
    destruct buf as [|b buf]; [contradiction|].
    cbn [length Nat.ltb Nat.leb].
    rewrite IH by discriminate.
    rewrite <- app_assoc. reflexivity.
Qed.

Lemma fold_size_app (l : list bytes) (n : nat) :
  fold_left (fun n e => (n + length e)%nat) l n
  = (n + fold_left (fun n e => (n + length e)%nat) l 0)%nat.
Proof.
  revert n. induction l as [|e l IH]; intros n; cbn [fold_left]; [lia|].
  rewrite (IH (n + length e)%nat), (IH (0 + length e)%nat). lia.
Qed.

(** [Join] ignores empty elements. *)
Lemma Join_drops_empty (l1 l2 : list bytes) :
  path.Join (l1 ++ [] :: l2) = path.Join (l1 ++ l2).
Proof.
  unfold path.Join.
  rewrite !fold_left_app. cbn [fold_left length].
  rewrite Nat.add_0_r.
  destruct (0 =? _)%nat; [reflexivity|].
  destruct (fold_left path.join_step l1 []) as [|b buf] eqn:Hb.
  - reflexivity.
  - unfold path.join_step at 2. cbn [length Nat.ltb Nat.leb].
    rewrite !fold_join_step_nonempty
      by (discriminate || (intros H; apply app_eq_nil in H as [H _]; discriminate H)).
    rewrite <- app_assoc. cbn [app].
    change (b :: buf ++ path.slash :: ?x) with ((b :: buf) ++ path.slash :: x).
    apply Clean_extra_slash; [discriminate|].
    destruct l2 as [|e l2]; [left; reflexivity|right].
    cbn [flat_map app]. eauto.
Qed.

(** ** More on the data-retrieval calls *)

(** X7. On a pointer to no session each of the five data-retrieval calls
    stops with the state untouched: with the error of [http.NewRequest]
    when the URL is rejected, with a panic at the nil dereference
    otherwise. *)
Theorem X7_data_calls_on_missing_session (E : Env) (p : nat)
        (robot id : bytes) (s : State) :
  heap s !! p = None ->
  refused E (GetUser E p s) "users/me"%bs s
  /\ refused E (ListRobots E p s) "users/me/robots"%bs s
  /\ refused E (GetRobotMap E p robot id s)
       (path.Join ["users/me/robots"%bs; robot; "maps"%bs; id]) s
  /\ refused E (ListRobotMaps E p robot s)
       (path.Join ["users/me/robots"%bs; robot; "maps"%bs]) s
  /\ refused E (ListRobotPersistentMaps E p robot s)
       (path.Join ["users/me/robots"%bs; robot; "persistent_maps"%bs]) s.
Proof.
  intros Hp.
  unfold refused, GetUser, ListRobots, GetRobotMap, ListRobotMaps,
    ListRobotPersistentMaps, bind.
  rewrite !Session_exec_nil by exact Hp.
  repeat split;
    match goal with
    | |- context [url_Parse_error E ?u] => destruct (url_Parse_error E u)
    end; reflexivity.
Qed.

Lemma X7_data_calls_on_missing_session_witness :
  heap empty_State !! 0%nat = None
  /\ fst (GetUser session_Env 0%nat empty_State) = Panic
  /\ snd (GetUser session_Env 0%nat empty_State) = empty_State.
Proof.
  assert (H : heap empty_State !! 0%nat = None) by reflexivity.
  split; [exact H|].
  destruct (X7_data_calls_on_missing_session session_Env 0%nat [] []
              empty_State H) as ((Hs & Hr) & _).
  split; [exact Hr|exact Hs].
Defined.

(** X8. [path.Join] drops empty elements.  [GetRobotMap] with an empty
    map id sends what [ListRobotMaps] sends for the same robot; with an
    empty robot name the path has no robot segment, so that
    [ListRobotMaps] asks for [users/me/robots/maps]. *)
Theorem X8_empty_names_are_dropped (E : Env) (p : nat) (robot id : bytes)
        (s : State) :
  snd (GetRobotMap E p robot [] s) = snd (ListRobotMaps E p robot s)
  /\ snd (GetRobotMap E p [] id s)
     = snd (Session_exec E p "GET"%bs
              (path.Join ["users/me/robots"%bs; "maps"%bs; id]) s)
  /\ snd (ListRobotMaps E p [] s)
     = snd (Session_exec E p "GET"%bs "users/me/robots/maps"%bs s)
  /\ snd (ListRobotPersistentMaps E p [] s)
     = snd (Session_exec E p "GET"%bs "users/me/robots/persistent_maps"%bs s).
Proof.
  destruct (data_call_state E p robot [] s) as (_ & _ & -> & -> & _).
  destruct (data_call_state E p [] id s) as (_ & _ & -> & -> & ->).
  assert (H1 : path.Join ["users/me/robots"%bs; robot; "maps"%bs; []]
               = path.Join ["users/me/robots"%bs; robot; "maps"%bs])
    by exact (Join_drops_empty ["users/me/robots"%bs; robot; "maps"%bs] []).
  assert (H2 : path.Join ["users/me/robots"%bs; []; "maps"%bs; id]
               = path.Join ["users/me/robots"%bs; "maps"%bs; id])
    by exact (Join_drops_empty ["users/me/robots"%bs] ["maps"%bs; id]).
  split; [exact (f_equal (fun x => snd (Session_exec E p "GET"%bs x s)) H1)|].
  split; [exact (f_equal (fun x => snd (Session_exec E p "GET"%bs x s)) H2)|].
  split; reflexivity.
Qed.

(** ** Resource paths *)

Lemma join_flat_map (e : bytes) (es : list bytes) :
  e ++ flat_map (fun x => path.slash :: x) es = json.join [path.slash] (e :: es).
Proof.
  revert e. induction es as [|e2 es IH]; intros e.
  - cbn. apply app_nil_r.
  - rewrite join_cons by discriminate. cbn [flat_map].
    rewrite <- IH. reflexivity.
Qed.

Lemma clean_relative_nonempty (e : bytes) :
  clean_relative e = true -> e <> [].
Proof. intros H ->. discriminate H. Qed.

Lemma join_concat_split (es : list bytes) :
  es <> [] ->
  json.join [path.slash] (concat (map split_slash es))
  = json.join [path.slash] es.
Proof.
  induction es as [|e es IH]; [contradiction|]. intros _.
  destruct es as [|e2 es].
  - cbn [map concat]. rewrite app_nil_r. apply join_split_slash.
  - change (concat (map split_slash (e :: e2 :: es)))
      with (split_slash e ++ concat (map split_slash (e2 :: es))).
    rewrite join_app.
    + rewrite IH by discriminate. rewrite join_split_slash.
      rewrite (join_cons _ e) by discriminate. reflexivity.
    + apply split_slash_nonempty.
    + cbn [map concat]. intros H. apply app_eq_nil in H as [H _].
      exact (split_slash_nonempty _ H).
Qed.

(** [Join] of names that are relative paths in clean form puts single
    slashes between them and changes nothing else. *)
Lemma Join_clean (es : list bytes) :
  es <> [] -> Forall (fun e => clean_relative e = true) es ->
  path.Join es = json.join [path.slash] es.
Proof.
  intros Hne Hall. destruct es as [|e es]; [contradiction|].
  pose proof (Forall_inv Hall) as He.
  pose proof (clean_relative_nonempty e He) as Hen.
  unfold path.Join. cbn [fold_left].
  rewrite fold_size_app.
  replace (0 =? _)%nat with false
    by (symmetry; apply Nat.eqb_neq; destruct e; [contradiction|cbn; lia]).
  assert (Hstep : path.join_step [] e = e).
  { destruct e; [contradiction|reflexivity]. }
  rewrite Hstep, fold_join_step_nonempty by exact Hen.
  rewrite join_flat_map.
  rewrite <- (join_concat_split (e :: es)) by discriminate.
  apply Clean_plain.
  - apply List.Forall_concat. apply List.Forall_map.
    eapply List.Forall_impl; [|exact Hall].
    intros a Ha. apply List.Forall_forall. apply forallb_forall. exact Ha.
  - cbn [map concat]. intros H. apply app_eq_nil in H as [H _].
    exact (split_slash_nonempty _ H).
Qed.

Lemma Clean_nonempty (p : bytes) : path.Clean p <> [].
Proof.
  unfold path.Clean. destruct p as [|c p]; [discriminate|].
  destruct (if Byte.eqb c path.slash then _ else _); discriminate.
Qed.

Lemma Join_nonempty (e : bytes) (es : list bytes) :
  e <> [] -> path.Join (e :: es) <> [].
Proof.
  intros He. unfold path.Join. cbn [fold_left]. rewrite fold_size_app.
  replace (0 =? _)%nat with false
    by (symmetry; apply Nat.eqb_neq; destruct e; [contradiction|cbn; lia]).
  apply Clean_nonempty.
Qed.

(** ** URL texts *)

Lemma escape_byte_path_text (c : byte) :
  forallb path_text (url.escape_byte url.encodePath c) = true.
Proof. destruct c; reflexivity. Qed.

Lemma escape_path_text (s : bytes) :
  forallb path_text (url.escape s url.encodePath) = true.
Proof.
  unfold url.escape. induction s as [|c s IH]; [reflexivity|].
  cbn [flat_map]. rewrite forallb_app, escape_byte_path_text, IH. reflexivity.
Qed.

Lemma escape_byte_query_text (c : byte) :
  forallb query_text (url.escape_byte url.encodeQueryComponent c) = true.
Proof. destruct c; reflexivity. Qed.

Lemma QueryEscape_query_text (s : bytes) :
  forallb query_text (url.QueryEscape s) = true.
Proof.
  unfold url.QueryEscape, url.escape. induction s as [|c s IH]; [reflexivity|].
  cbn [flat_map]. rewrite forallb_app, escape_byte_query_text, IH. reflexivity.
Qed.

Lemma EscapedPath_path_text (u : url.URL) :
  forallb path_text (url.EscapedPath u) = true.
Proof.
  unfold url.EscapedPath. destruct (decide _); [reflexivity|].
  apply escape_path_text.
Qed.

Lemma escape_nonempty (s : bytes) (mode : url.encoding) :
  s <> [] -> url.escape s mode <> [].
Proof.
  destruct s as [|c s]; [contradiction|]. intros _.
  unfold url.escape. cbn [flat_map]. unfold url.escape_byte.
  destruct (_ && _); [discriminate|].
  destruct (url.shouldEscape c mode); discriminate.
Qed.

(** The text of a URL with scheme [https], one of the two hosts, a
    non-empty path and no query: the host is followed by a slash and by
    path characters only. *)
Lemma host_URL_text (host rpath : bytes) :
  host = beehiveHost \/ host = nucleoHost -> rpath <> [] ->
  exists rest,
    url.String {| url.Scheme := "https"%bs; url.Host := host;
                  url.Path := rpath; url.RawQuery := [] |}
    = "https://"%bs ++ host ++ "/"%bs ++ rest
    /\ forallb path_text rest = true.
Proof.
  intros Hh Hp.
  pose proof (EscapedPath_path_text
                {| url.Scheme := "https"%bs; url.Host := host;
                   url.Path := rpath; url.RawQuery := [] |}) as Ht.
  assert (Hne : url.EscapedPath
                  {| url.Scheme := "https"%bs; url.Host := host;
                     url.Path := rpath; url.RawQuery := [] |} <> []).
  { unfold url.EscapedPath. cbn [url.Path].
    destruct (decide _); [discriminate|]. apply escape_nonempty, Hp. }
  unfold url.String.
  destruct (url.EscapedPath _) as [|c rest]; [contradiction|].
  cbn [forallb] in Ht. apply andb_prop in Ht as [Hc Hrest].
  destruct Hh as [-> | ->]; cbn [url.Scheme url.Host url.Path url.RawQuery];
    (destruct (Byte.eqb c "/"%byte) eqn:Hs;
     [ apply Byte.byte_dec_bl in Hs; subst c; exists rest;
       split; [reflexivity|exact Hrest]
     | exists (c :: rest); split; [reflexivity|];
       cbn [forallb]; rewrite Hc, Hrest; reflexivity ]).
Qed.

Lemma Session_exec_one_request (E : Env) (p : nat) (cur : Session)
      (rpath : bytes) (s : State) :
  heap s !! p = Some cur ->
  one_request_to E (SessionClient p) (client cur) "GET"%bs (beehive_URL rpath)
    s (snd (Session_exec E p "GET"%bs rpath s)).
Proof.
  intros Hp. unfold one_request_to.
  rewrite (Session_exec_run E p cur) by exact Hp.
  destruct (url_Parse_error E (beehive_URL rpath)); [reflexivity|].
  cbv zeta. unfold Do. cbn [snd sent]. eexists. repeat split.
Qed.

Lemma beehive_URL_text (rpath : bytes) :
  rpath <> [] -> Byte.eqb (hd x00 rpath) "/"%byte = false -> rpath <> "*"%bs ->
  beehive_URL rpath
  = "https://beehive.neatocloud.com/"%bs ++ url.escape rpath url.encodePath.
Proof.
  intros Hne Hs Hstar. unfold beehive_URL, url.String, url.EscapedPath.
  cbn [url.Scheme url.Host url.Path url.RawQuery].
  destruct (decide _) as [H|_]; [contradiction|].
  destruct rpath as [|c r]; [contradiction|]. cbn [hd] in Hs.
  unfold url.escape. cbn [flat_map].
  assert (Hc : exists d rest, url.escape_byte url.encodePath c = d :: rest
                              /\ Byte.eqb d "/"%byte = false).
  { destruct c; try discriminate Hs; cbn; eauto. }
  destruct Hc as (d & rest & -> & Hd). cbn [app]. rewrite Hd. reflexivity.
Qed.

(** X9. For a robot name and a map id that are relative paths in clean
    form, the three calls that take them send one [GET] through the
    session's client to [users/me/robots/<robot>/maps/<id>],
    [.../<robot>/maps] and [.../<robot>/persistent_maps] on the Beehive
    host, the names percent-escaped as path text (and unchanged when
    alphanumeric). *)
Theorem X9_resource_URLs (E : Env) (p : nat) (cur : Session)
        (robot id : bytes) (s : State) :
  heap s !! p = Some cur ->
  clean_relative robot = true -> clean_relative id = true ->
  let base := "https://beehive.neatocloud.com/users/me/robots/"%bs
                ++ url.escape robot url.encodePath in
  let sent_to (u : bytes) (s' : State) :=
    one_request_to E (SessionClient p) (client cur) "GET"%bs u s s' in
  sent_to (base ++ "/maps/"%bs ++ url.escape id url.encodePath)
    (snd (GetRobotMap E p robot id s))
  /\ sent_to (base ++ "/maps"%bs) (snd (ListRobotMaps E p robot s))
  /\ sent_to (base ++ "/persistent_maps"%bs)
       (snd (ListRobotPersistentMaps E p robot s))
  /\ (forallb url.alnum robot = true -> forallb url.alnum id = true ->
      url.escape robot url.encodePath = robot
      /\ url.escape id url.encodePath = id).
Proof.
  intros Hp Hr Hi base sent_to. subst base sent_to. cbv beta.
  destruct (data_call_state E p robot id s) as (_ & _ & -> & -> & ->).
  assert (Hword : forall w, clean_relative w = true ->
                            Forall (fun e => clean_relative e = true) [w])
    by (intros; repeat constructor; assumption).
  assert (HJ : forall es : list bytes,
             Forall (fun e => clean_relative e = true) es ->
             beehive_URL (path.Join ("users/me/robots"%bs :: es))
             = "https://beehive.neatocloud.com/users/me/robots"%bs
                 ++ url.escape (flat_map (fun x => path.slash :: x) es)
                      url.encodePath).
  { intros es Hes.
    rewrite Join_clean by (discriminate || (constructor; [reflexivity|exact Hes])).
    rewrite <- join_flat_map.
    rewrite beehive_URL_text by (reflexivity || discriminate).
    rewrite escape_app. reflexivity. }
  split; [|split; [|split]].
  - pose proof (Session_exec_one_request E p cur
                  (path.Join ["users/me/robots"%bs; robot; "maps"%bs; id]) s Hp)
      as H.
    rewrite (HJ [robot; "maps"%bs; id]) in H
      by (repeat constructor; assumption).
    cbn [flat_map] in H. rewrite app_nil_r in H.
    change (path.slash :: robot ++ path.slash :: "maps"%bs ++ path.slash :: id)
      with ("/"%bs ++ robot ++ "/maps/"%bs ++ id) in H.
    rewrite !escape_app in H.
    change (url.escape "/"%bs url.encodePath) with "/"%bs in H.
    change (url.escape "/maps/"%bs url.encodePath) with "/maps/"%bs in H.
    rewrite <- !app_assoc. exact H.
  - pose proof (Session_exec_one_request E p cur
                  (path.Join ["users/me/robots"%bs; robot; "maps"%bs]) s Hp)
      as H.
    rewrite (HJ [robot; "maps"%bs]) in H by (repeat constructor; assumption).
    cbn [flat_map] in H. rewrite app_nil_r in H.
    change (path.slash :: robot ++ path.slash :: "maps"%bs)
      with ("/"%bs ++ robot ++ "/maps"%bs) in H.
    rewrite !escape_app in H.
    change (url.escape "/"%bs url.encodePath) with "/"%bs in H.
    change (url.escape "/maps"%bs url.encodePath) with "/maps"%bs in H.
    rewrite <- !app_assoc. exact H.
  - pose proof (Session_exec_one_request E p cur
                  (path.Join ["users/me/robots"%bs; robot; "persistent_maps"%bs])
                  s Hp) as H.
    rewrite (HJ [robot; "persistent_maps"%bs]) in H
      by (repeat constructor; assumption).
    cbn [flat_map] in H. rewrite app_nil_r in H.
    change (path.slash :: robot ++ path.slash :: "persistent_maps"%bs)
      with ("/"%bs ++ robot ++ "/persistent_maps"%bs) in H.
    rewrite !escape_app in H.
    change (url.escape "/"%bs url.encodePath) with "/"%bs in H.
    change (url.escape "/persistent_maps"%bs url.encodePath)
      with "/persistent_maps"%bs in H.
    rewrite <- !app_assoc. exact H.
  - intros Ha Hb. split; apply escape_alnum; assumption.
Qed.

(** ** The session query for arbitrary credentials *)

Lemma Encode_query (t u pw : bytes) :
  url.Encode (<[ "platform"%bs := [platform] ]>
             (<[ "token"%bs := [t] ]>
             (<[ "email"%bs := [u] ]>
             (<[ "password"%bs := [pw] ]> ∅))))
  = "email="%bs ++ url.QueryEscape u ++ "&password="%bs ++ url.QueryEscape pw
      ++ "&platform=ios&token="%bs ++ url.QueryEscape t.
Proof.
  unfold url.Encode.
  replace (url.sorted_entries _)
    with [ ("email"%bs, [u]); ("password"%bs, [pw]);
           ("platform"%bs, [platform]); ("token"%bs, [t]) ]
    by (vm_compute; reflexivity).
  cbn [flat_map map fst snd app json.join].
  rewrite <- !app_assoc. reflexivity.
Qed.

(** X10. Whatever user name and password the provider returns, they
    reach the query of the session request only in escaped form, made of
    unreserved characters, [%] and [+]: the URL of [NewSession] and of
    [Refresh] is the [sessions] resource with the four parameters
    [email], [password], [platform=ios] and [token], in this order. *)
Theorem X10_credentials_travel_escaped (E : Env) (s : State)
        (next : nat -> byte) (c : credentials) :
  rand_Reader E s = EntropyStream next ->
  pass_Get E (after_read s) credentialsPassRE = Ok c ->
  let tok := hex_Encode (map next (seq 0 32)) in
  let u := "https://beehive.neatocloud.com/sessions?email="%bs
             ++ url.QueryEscape (Username c)
             ++ "&password="%bs ++ url.QueryEscape (Password c)
             ++ "&platform=ios&token="%bs ++ tok in
  forallb query_text (url.QueryEscape (Username c)) = true
  /\ forallb query_text (url.QueryEscape (Password c)) = true
  /\ one_request_to E LocalClient http.zero_Client "POST"%bs u s
       (snd (NewSession E s))
  /\ (forall p cur, heap s !! p = Some cur ->
        one_request_to E (SessionClient p) (client cur) "POST"%bs u s
          (snd (Refresh E p s))).
Proof.
  intros Hr Hc tok u.
  split; [apply QueryEscape_query_text|].
  split; [apply QueryEscape_query_text|].
  assert (Hu : sessions_URL
                 (<[ "platform"%bs := [platform] ]>
                 (<[ "token"%bs := [tok] ]>
                 (<[ "email"%bs := [Username c] ]>
                 (<[ "password"%bs := [Password c] ]> ∅)))) = u).
  { rewrite (sessions_URL_text _
               (url.QueryEscape (Username c) ++ "&password="%bs
                  ++ url.QueryEscape (Password c)
                  ++ "&platform=ios&token="%bs ++ tok)).
    - reflexivity.
    - rewrite Encode_query. unfold url.QueryEscape at 3.
      rewrite escape_lower_hex by apply hex_Encode_lower. reflexivity. }
  assert (Hreq : sessions_request E s
                 = match url_Parse_error E u with
                   | Some e => (Err e, after_read s)
                   | None =>
                       (Ok (Header_Set {| http.Method := http.MethodPost;
                                          http.URL := u;
                                          http.Header := ∅;
                                          http.Body := None |}
                              "Accept"%bs nucleoAcceptHeader), after_read s)
                   end).
  { rewrite sessions_request_run, Hr. cbv zeta. rewrite Hc.
    cbn [value].
    change (hex_Encode (map next (seq 0 tokenLength))) with tok.
    rewrite Hu. reflexivity. }
  split.
  - unfold one_request_to. rewrite NewSession_run, Hreq.
    destruct (url_Parse_error E u); [reflexivity|].
    exists (Header_Set {| http.Method := http.MethodPost; http.URL := u;
                          http.Header := ∅; http.Body := None |}
              "Accept"%bs nucleoAcceptHeader).
    split; [|split; reflexivity].
    destruct (client_Do E _ _ _); try reflexivity.
    cbv zeta. destruct (dec_error _); reflexivity.
  - intros p cur Hp. unfold one_request_to. rewrite Refresh_run, Hreq, Hp.
    destruct (url_Parse_error E u); [reflexivity|].
    exists (Header_Set {| http.Method := http.MethodPost; http.URL := u;
                          http.Header := ∅; http.Body := None |}
              "Accept"%bs nucleoAcceptHeader).
    split; [|split; reflexivity].
    destruct (client_Do E _ _ _); try reflexivity.
    cbv zeta. destruct (dec_error _); reflexivity.
Qed.

(** ** Using a session *)

(** X11. A session returned by [NewSession] is there to be used: a
    following [GetUser] or [ListRobots] on it reaches the transport
    through a zero-valued client and carries the access token stored in
    the new session. *)
Theorem X11_new_session_is_usable (E : Env) (s s1 : State) (p : nat) :
  NewSession E s = (Ok p, s1) ->
  exists cur,
    heap s1 !! p = Some cur
    /\ client cur = http.zero_Client
    /\ one_bearer_request E p cur "users/me"%bs s1 (snd (GetUser E p s1))
    /\ one_bearer_request E p cur "users/me/robots"%bs s1
         (snd (ListRobots E p s1)).
Proof.
  intros H. rewrite NewSession_run in H.
  destruct (sessions_request E s) as [[req| |] s0]; try discriminate H.
  destruct (client_Do E s0 http.zero_Client req) as [resp| |];
    try discriminate H.
  cbv zeta in H.
  destruct (dec_error (decode_Session E (http.ResponseBody resp)));
    try discriminate H.
  unfold alloc in H. injection H as <- <-.
  eexists. split; [cbn [heap]; apply lookup_insert_eq|].
  split; [reflexivity|].
  match goal with
  | |- context [GetUser E ?q ?st] =>
      assert (Hp : heap st !! q
                   = Some (apply_decode
                             (decode_Session E (http.ResponseBody resp))
                             zero_Session))
        by (cbn [heap]; apply lookup_insert_eq);
      destruct (data_call_state E q [] [] st) as (-> & -> & _)
  end.
  split; apply Session_exec_sends, Hp.
Qed.

Lemma X11_new_session_is_usable_witness :
  exists p s1 cur,
    NewSession session_Env empty_State = (Ok p, s1)
    /\ heap s1 !! p = Some cur
    /\ AccessToken cur = "ffee"%bs
    /\ one_bearer_request session_Env p cur "users/me/robots"%bs s1
         (snd (ListRobots session_Env p s1)).
Proof.
  assert (H : NewSession session_Env empty_State
              = (Ok (fresh (dom (heap empty_State))),
                 snd (NewSession session_Env empty_State))) by reflexivity.
  destruct (X11_new_session_is_usable session_Env empty_State _ _ H)
    as (cur & Hp & _ & _ & Hl).
  exists (fresh (dom (heap empty_State))),
    (snd (NewSession session_Env empty_State)), cur.
  split; [exact H|]. split; [exact Hp|]. split; [|exact Hl].
  cbn [heap snd] in Hp.
  change (heap (snd (NewSession session_Env empty_State))
            !! fresh (dom (heap empty_State)))
    with (Some {| AccessToken := "ffee"%bs; CurrentTime := 9;
                  client := http.zero_Client |}) in Hp.
  injection Hp as <-. reflexivity.
Defined.

(** X12. After a successful [Refresh] the session keeps its client and
    holds the access token of the answer, or the old one when the answer
    had none; a following [GetUser] or [ListRobots] carries that token. *)
Theorem X12_refreshed_token_is_used (E : Env) (p : nat) (cur : Session)
        (s s1 : State) :
  heap s !! p = Some cur ->
  Refresh E p s = (Ok tt, s1) ->
  exists cur' req resp,
    heap s1 !! p = Some cur'
    /\ client cur' = client cur
    /\ client_Do E (after_read s) (client cur) req = Ok resp
    /\ AccessToken cur'
       = default (AccessToken cur)
           (dec_access_token (decode_Session E (http.ResponseBody resp)))
    /\ one_bearer_request E p cur' "users/me"%bs s1 (snd (GetUser E p s1))
    /\ one_bearer_request E p cur' "users/me/robots"%bs s1
         (snd (ListRobots E p s1)).
Proof.
  intros Hp H. rewrite Refresh_run, Hp in H.
  pose proof (sessions_request_state E s) as Hst.
  destruct (sessions_request E s) as [[req| |] s0]; try discriminate H.
  cbn [snd] in Hst. subst s0.
  cbv zeta in H.
  destruct (client_Do E (after_read s) (client cur) req) as [resp| |] eqn:Hdo;
    try discriminate H.
  destruct (dec_error (decode_Session E (http.ResponseBody resp)));
    try discriminate H.
  injection H as <-.
  exists (apply_decode (decode_Session E (http.ResponseBody resp)) cur),
    req, resp.
  match goal with
  | |- context [GetUser E p ?st] =>
      assert (Hp' : heap st !! p
                    = Some (apply_decode
                              (decode_Session E (http.ResponseBody resp)) cur))
        by (cbn [heap]; apply lookup_insert_eq);
      destruct (data_call_state E p [] [] st) as (-> & -> & _)
  end.
  split; [exact Hp'|]. split; [reflexivity|]. split; [exact Hdo|].
  split; [reflexivity|].
  split; apply Session_exec_sends, Hp'.
Qed.

Lemma Session_exec_stays (E : Env) (p : nat) (rpath : bytes) (s : State) :
  rpath <> [] ->
  sends_only_to "https://beehive.neatocloud.com/"%bs s
    (snd (Session_exec E p "GET"%bs rpath s)).
Proof.
  intros Hne. unfold sends_only_to.
  destruct (heap s !! p) as [cur|] eqn:Hp.
  - rewrite (Session_exec_run E p cur) by exact Hp.
    destruct (url_Parse_error E (beehive_URL rpath)); [left; reflexivity|].
    right. cbv zeta. unfold Do. cbn [snd sent].
    destruct (host_URL_text beehiveHost rpath (or_introl eq_refl) Hne)
      as (rest & Hu & Ht).
    eexists. exists rest. split; [reflexivity|]. split; [|exact Ht].
    cbn [sent_req Header_Set http.URL]. exact Hu.
  - rewrite Session_exec_nil by exact Hp.
    destruct (url_Parse_error E (beehive_URL rpath)); left; reflexivity.
Qed.

(** X13. Whatever robot name and map id are given, a data-retrieval call
    sends at most one request, and its URL is
    [https://beehive.neatocloud.com/] followed by path characters only:
    a name can change the path, but it cannot add a query or a fragment
    or reach another host. *)
Theorem X13_data_calls_stay_on_host (E : Env) (p : nat) (robot id : bytes)
        (s : State) :
  let stays (s' : State) :=
    sends_only_to "https://beehive.neatocloud.com/"%bs s s' in
  stays (snd (GetUser E p s))
  /\ stays (snd (ListRobots E p s))
  /\ stays (snd (GetRobotMap E p robot id s))
  /\ stays (snd (ListRobotMaps E p robot s))
  /\ stays (snd (ListRobotPersistentMaps E p robot s)).
Proof.
  cbv zeta.
  destruct (data_call_state E p robot id s) as (-> & -> & -> & -> & ->).
  repeat split; apply Session_exec_stays;
    (discriminate || (apply Join_nonempty; discriminate)).
Qed.

(** ** Signed commands *)

Lemma HMAC_SHA256_length (key text : bytes) :
  length (HMAC_SHA256 key text) = 32%nat.
Proof. unfold HMAC_SHA256. apply Sum256_length. Qed.

(** X14. The request that [exec] sends for a robot is a [POST] to the
    robot's messages URL whose headers are exactly [Accept], [Date] and
    [Authorization]; the authorization is [NEATOAPP] followed by the 64
    lower-case hexadecimal digits of the HMAC-SHA256, under the robot's
    secret key, of the lower-cased serial, the very text of the [Date]
    header and the very bytes of the body.  When the URL is rejected
    nothing is sent. *)
Theorem X14_signature_covers_what_is_sent (E : Env) (r : Robot) (a : request)
        (s : State) :
  match url_Parse_error E (messages_URL r) with
  | Some e =>
      fst (Robot_exec E r a s) = Err e
      /\ sent (snd (Robot_exec E r a s)) = sent s
  | None =>
      exists req body date sig,
        sent (snd (Robot_exec E r a s))
        = sent s ++ [entry LocalClient http.zero_Client req]
        /\ http.Method req = "POST"%bs
        /\ http.URL req = messages_URL r
        /\ http.Body req = Some body
        /\ body = marshal_request a
        /\ date = time_Format E (time_Now E s) timeFormat
        /\ http.Header req
           = <[ "Authorization"%bs := [ "NEATOAPP "%bs ++ hex_Encode sig ] ]>
             (<[ "Date"%bs := [date] ]>
             (<[ "Accept"%bs := [nucleoAcceptHeader] ]> ∅))
        /\ sig = HMAC_SHA256 (SecretKey r)
                   (strings_ToLower (unicode_lower E) (Serial r)
                      ++ [x0a] ++ date ++ [x0a] ++ body)
        /\ length (hex_Encode sig) = 64%nat
        /\ forallb is_lower_hex (hex_Encode sig) = true
  end.
Proof.
  rewrite Robot_exec_sent, Robot_exec_run, Robot_exec_request_run.
  destruct (url_Parse_error E (messages_URL r)); [split; reflexivity|].
  cbv zeta.
  eexists. exists (marshal_request a),
    (time_Format E (time_Now E s) timeFormat),
    (HMAC_SHA256 (SecretKey r)
       (strings_ToLower (unicode_lower E) (Serial r)
          ++ [x0a] ++ time_Format E (time_Now E s) timeFormat ++ [x0a]
          ++ marshal_request a)).
  split; [reflexivity|]. split; [reflexivity|]. split; [reflexivity|].
  split; [reflexivity|]. split; [reflexivity|]. split; [reflexivity|].
  split.
  { unfold authorization, sign. rewrite hmac_object_spec. reflexivity. }
  split; [reflexivity|].
  split; [rewrite hex_Encode_length, HMAC_SHA256_length; reflexivity|].
  apply hex_Encode_lower.
Qed.

Lemma methods_run (E : Env) :
  Forall (fun m => snd m = command E (fst m)) (methods E).
Proof. repeat constructor. Qed.

Lemma command_sent (E : Env) (name : bytes) (r : Robot) (a : option Params)
      (s : State) :
  match rand_Reader E s with
  | EntropyFails e =>
      fst (command E name r a s) = Err e
      /\ sent (snd (command E name r a s)) = sent s
  | EntropyStream next =>
      posts_envelope E r (envelope next name a) s (snd (command E name r a s))
  end.
Proof.
  rewrite command_run.
  destruct (rand_Reader E s) as [e|next]; [split; reflexivity|].
  unfold posts_envelope.
  rewrite Robot_exec_sent, Robot_exec_request_run.
  destruct (url_Parse_error E (messages_URL r)); [reflexivity|].
  cbv zeta. eexists. repeat split.
Qed.

(** X15. The nineteen command methods use nineteen different command
    names.  Each of them, given working entropy, posts one envelope with
    a fresh identifier, its own name as [cmd] (written between quotes as
    it is) and the caller's parameters; when the entropy source fails it
    returns that error and sends nothing. *)
Theorem X15_methods_send_their_command (E : Env) :
  length (methods E) = 19%nat
  /\ NoDup (map fst (methods E))
  /\ Forall
       (fun m =>
          json.appendString (fst m) = json.quote :: fst m ++ [json.quote]
          /\ forall (r : Robot) (a : option Params) (s : State),
               match rand_Reader E s with
               | EntropyFails e =>
                   fst (snd m r a s) = Err e
                   /\ sent (snd (snd m r a s)) = sent s
               | EntropyStream next =>
                   posts_envelope E r (envelope next (fst m) a) s
                     (snd (snd m r a s))
               end)
       (methods E).
Proof.
  split; [reflexivity|].
  split.
  { cbn [methods map fst]. apply (bool_decide_unpack _). vm_compute. exact I. }
  apply Forall_and. split.
  - repeat constructor.
  - pose proof (methods_run E) as Hrun.
    eapply List.Forall_impl; [|exact Hrun].
    intros [name f] Hf. cbn [fst snd] in *. subst f.
    intros r a s. apply command_sent.
Qed.

Lemma Robot_exec_frame (E : Env) (r : Robot) (a : request) (s : State) :
  heap (snd (Robot_exec E r a s)) = heap s
  /\ reads (snd (Robot_exec E r a s)) = reads s
  /\ (length (sent (snd (Robot_exec E r a s))) <= S (length (sent s)))%nat.
Proof.
  rewrite Robot_exec_sent, Robot_exec_run, Robot_exec_request_run.
  destruct (url_Parse_error E (messages_URL r));
    [repeat split; cbn; lia|].
  cbv zeta. unfold Do.
  split; [|split; [|rewrite length_app; cbn; lia]].
  - destruct (client_Do E _ _ _); try reflexivity.
    destruct (decode_Response E _); reflexivity.
  - destruct (client_Do E _ _ _); try reflexivity.
    destruct (decode_Response E _); reflexivity.
Qed.

(** X16. A command method never changes a session, reads the entropy
    source exactly once and sends at most one request, whatever its
    outcome. *)
Theorem X16_commands_leave_sessions_alone (E : Env) :
  Forall
    (fun m =>
       forall (r : Robot) (a : option Params) (s : State),
         heap (snd (snd m r a s)) = heap s
         /\ reads (snd (snd m r a s)) = S (reads s)
         /\ (length (sent (snd (snd m r a s))) <= S (length (sent s)))%nat)
    (methods E).
Proof.
  pose proof (methods_run E) as Hrun.
  eapply List.Forall_impl; [|exact Hrun].
  intros [name f] Hf. cbn [fst snd] in *. subst f.
  intros r a s. rewrite command_run.
  destruct (rand_Reader E s) as [e|next].
  - repeat split. cbn. lia.
  - match goal with
    | |- context [Robot_exec E r ?env ?st] =>
        destruct (Robot_exec_frame E r env st) as (Hh & Hr & Hs)
    end.
    rewrite Hh, Hr. repeat split. exact Hs.
Qed.

Lemma methods_In (E : Env) m :
  In m (methods E) -> snd m = command E (fst m).
Proof.
  pose proof (methods_run E) as Hrun.
  rewrite List.Forall_forall in Hrun. apply Hrun.
Qed.

(** X17. A response that a command method returns always carries the
    identifier drawn for that very call, 32 characters long; it is the
    decoded answer to the one request that was sent, whose body is the
    envelope with that identifier. *)
Theorem X17_returned_response_carries_the_fresh_id (E : Env)
        (m : bytes * (Robot -> option Params -> M (Response (ResponseData E))))
        (r : Robot) (a : option Params) (s : State)
        (result : Response (ResponseData E)) :
  In m (methods E) ->
  fst (snd m r a s) = Ok result ->
  exists next req resp,
    rand_Reader E s = EntropyStream next
    /\ string_of (Response_ReqID result) = hex_Encode (map next (seq 0 16))
    /\ length (string_of (Response_ReqID result)) = 32%nat
    /\ sent (snd (snd m r a s))
       = sent s ++ [entry LocalClient http.zero_Client req]
    /\ http.Body req = Some (marshal_request (envelope next (fst m) a))
    /\ client_Do E (after_read s) http.zero_Client req = Ok resp
    /\ decode_Response E (http.ResponseBody resp) = Ok result.
Proof.
  intros Hm H. rewrite (methods_In E m Hm) in *.
  rewrite command_run in *.
  destruct (rand_Reader E s) as [e|next]; [discriminate H|].
  exists next.
  rewrite Robot_exec_sent.
  rewrite Robot_exec_run in H.
  rewrite Robot_exec_request_run in *.
  destruct (url_Parse_error E (messages_URL r)); [discriminate H|].
  cbv zeta in *. unfold Do in H.
  match type of H with
  | context [client_Do E ?st ?c ?q] =>
      destruct (client_Do E st c q) as [resp| |] eqn:Hdo; try discriminate H;
      exists q, resp
  end.
  destruct (decode_Response E (http.ResponseBody resp)) as [res| |] eqn:Hdec;
    try discriminate H.
  cbn [fst] in H. unfold checkID in H.
  destruct (decide _) as [Hid|]; [|discriminate H].
  injection H as ->. cbn [ReqID string_of] in Hid.
  split; [reflexivity|]. split; [exact Hid|].
  split; [rewrite Hid, hex_Encode_length, map_seq_length; reflexivity|].
  split; [reflexivity|]. split; [reflexivity|].
  split; [exact Hdo|reflexivity].
Qed.

(** X18. An error returned by a command method is the error of the
    entropy source or of [http.NewRequest] (and then nothing was sent),
    or else one request was sent and the error is that of the transport,
    that of the decoder, or "conflicting ReqID value" for an answer that
    decoded to another identifier. *)
Theorem X18_errors_of_a_command (E : Env)
        (m : bytes * (Robot -> option Params -> M (Response (ResponseData E))))
        (r : Robot) (a : option Params) (s : State) (e : error) :
  In m (methods E) ->
  fst (snd m r a s) = Err e ->
  (rand_Reader E s = EntropyFails e /\ sent (snd (snd m r a s)) = sent s)
  \/ exists next,
       rand_Reader E s = EntropyStream next
       /\ ((url_Parse_error E (messages_URL r) = Some e
            /\ sent (snd (snd m r a s)) = sent s)
           \/ exists req,
                sent (snd (snd m r a s))
                = sent s ++ [entry LocalClient http.zero_Client req]
                /\ (client_Do E (after_read s) http.zero_Client req = Err e
                    \/ exists resp,
                         client_Do E (after_read s) http.zero_Client req
                         = Ok resp
                         /\ (decode_Response E (http.ResponseBody resp)
                             = Err e
                             \/ exists result,
                                  decode_Response E (http.ResponseBody resp)
                                  = Ok result
                                  /\ string_of (Response_ReqID result)
                                     <> hex_Encode (map next (seq 0 16))
                                  /\ e = "conflicting ReqID value"%bs))).
Proof.
  intros Hm H. rewrite (methods_In E m Hm) in *.
  rewrite command_run in *.
  destruct (rand_Reader E s) as [e0|next].
  { left. injection H as ->. split; reflexivity. }
  right. exists next. split; [reflexivity|].
  rewrite Robot_exec_sent.
  rewrite Robot_exec_run in H.
  rewrite Robot_exec_request_run in *.
  destruct (url_Parse_error E (messages_URL r)) as [e0|].
  { left. injection H as ->. split; reflexivity. }
  right. cbv zeta in *. unfold Do in H.
  match type of H with
  | context [client_Do E ?st ?c ?q] =>
      exists q; split; [reflexivity|];
      destruct (client_Do E st c q) as [resp| |] eqn:Hdo; try discriminate H
  end.
  2: { left. injection H as ->. reflexivity. }
  right. exists resp. split; [reflexivity|].
  destruct (decode_Response E (http.ResponseBody resp)) as [res| |] eqn:Hdec;
    try discriminate H.
  2: { left. injection H as ->. reflexivity. }
  right. exists res. split; [reflexivity|].
  cbn [fst] in H. unfold checkID in H.
  destruct (decide _) as [|Hid]; [discriminate H|].
  injection H as <-. split; [exact Hid|reflexivity].
Qed.

Lemma Robot_exec_stays (E : Env) (r : Robot) (a : request) (s : State) :
  sends_only_to "https://nucleo.neatocloud.com:4443/"%bs s
    (snd (Robot_exec E r a s)).
Proof.
  unfold sends_only_to.
  rewrite Robot_exec_sent, Robot_exec_request_run.
  destruct (url_Parse_error E (messages_URL r)); [left; reflexivity|].
  right. cbv zeta.
  assert (Hne : path.Join ["vendors/neato/robots"%bs; Serial r; "messages"%bs]
                <> []) by (apply Join_nonempty; discriminate).
  destruct (host_URL_text nucleoHost _ (or_intror eq_refl) Hne)
    as (rest & Hu & Ht).
  eexists. exists rest. split; [reflexivity|]. split; [|exact Ht].
  exact Hu.
Qed.

(** X20. Whatever the serial of the robot, a command method sends at
    most one request, and its URL is
    [https://nucleo.neatocloud.com:4443/] followed by path characters
    only: the serial cannot add a query or a fragment or reach another
    host. *)
Theorem X20_commands_stay_on_host (E : Env) :
  Forall
    (fun m =>
       forall (r : Robot) (a : option Params) (s : State),
         sends_only_to "https://nucleo.neatocloud.com:4443/"%bs s
           (snd (snd m r a s)))
    (methods E).
Proof.
  pose proof (methods_run E) as Hrun.
  eapply List.Forall_impl; [|exact Hrun].
  intros [name f] Hf. cbn [fst snd] in *. subst f.
  intros r a s. rewrite command_run.
  destruct (rand_Reader E s) as [e|next]; [left; reflexivity|].
  match goal with
  | |- context [Robot_exec E r ?env ?st] =>
      pose proof (Robot_exec_stays E r env st) as H
  end.
  exact H.
Qed.

(** X21. A robot with an empty serial posts to
    [vendors/neato/robots/messages].  A slash at the end of the serial
    does not change the URL, although, for an ASCII serial, it does
    change the signing string. *)
Theorem X21_serial_edges_in_the_path (E : Env) (r r' : Robot) (a : request)
        (ts : bytes) :
  (Serial r = [] ->
   messages_URL r
   = "https://nucleo.neatocloud.com:4443/vendors/neato/robots/messages"%bs)
  /\ (Serial r' = Serial r ++ "/"%bs ->
      messages_URL r' = messages_URL r
      /\ (isASCII (Serial r) = true ->
          signingString E r' a ts <> signingString E r a ts)).
Proof.
  split.
  { intros H. unfold messages_URL. rewrite H. reflexivity. }
  intros H. split.
  - unfold messages_URL. rewrite H.
    assert (HJ : path.Join ["vendors/neato/robots"%bs; Serial r ++ "/"%bs;
                            "messages"%bs]
                 = path.Join ["vendors/neato/robots"%bs; Serial r;
                              "messages"%bs]).
    { assert (Hbuf : forall x : bytes,
                 fold_left path.join_step
                   ["vendors/neato/robots"%bs; x; "messages"%bs] []
                 = "vendors/neato/robots/"%bs ++ x
                     ++ path.slash :: "messages"%bs).
      { intros x. cbn [fold_left]. cbv [path.join_step].
        cbn [length Nat.ltb Nat.leb app]. reflexivity. }
      assert (Hsz : forall x : bytes,
                 (0 =? fold_left (fun n e => (n + length e)%nat)
                         ["vendors/neato/robots"%bs; x; "messages"%bs] 0)%nat
                 = false).
      { intros x. apply Nat.eqb_neq. cbn [fold_left length]. lia. }
      unfold path.Join. rewrite !Hsz, !Hbuf.
      rewrite <- app_assoc.
      change ("/"%bs ++ path.slash :: "messages"%bs)
        with (path.slash :: path.slash :: "messages"%bs).
      rewrite !(app_assoc "vendors/neato/robots/"%bs).
      apply Clean_extra_slash; [|right; eexists; reflexivity].
      discriminate. }
    exact (f_equal (fun p => url.String {| url.Scheme := scheme;
                                           url.Host := nucleoHost;
                                           url.Path := p;
                                           url.RawQuery := [] |}) HJ).
  - intros Ha Heq.
    assert (Ha' : isASCII (Serial r') = true).
    { rewrite H. unfold isASCII. rewrite forallb_app. unfold isASCII in Ha.
      rewrite Ha. reflexivity. }
    apply (f_equal (@length byte)) in Heq.
    unfold signingString in Heq.
    rewrite !ToLower_ASCII in Heq by assumption.
    rewrite H in Heq. rewrite !length_app, !length_map, !length_app in Heq.
    cbn [length] in Heq. lia.
Qed.

Lemma messages_URL_Serial (r r' : Robot) :
  Serial r = Serial r' -> messages_URL r = messages_URL r'.
Proof. intros H. unfold messages_URL. rewrite H. reflexivity. Qed.

Lemma Robot_exec_same_identity (E : Env) (r r' : Robot) (a : request)
      (s : State) :
  Serial r = Serial r' -> SecretKey r = SecretKey r' ->
  Robot_exec E r a s = Robot_exec E r' a s.
Proof.
  intros Hs Hk. rewrite !Robot_exec_run, !Robot_exec_request_run.
  rewrite (messages_URL_Serial r r' Hs).
  unfold authorization, sign, signingString. rewrite Hs, Hk. reflexivity.
Qed.

(** X23. A command depends on the robot only through its [Serial] and
    its [SecretKey]: two robots that agree on these two fields get, from
    each of the nineteen methods and in every state, the same outcome and
    the same request, whatever their names, models, prefixes, dates and
    traits. *)
Theorem X23_only_serial_and_key_matter (E : Env) (r r' : Robot) :
  Serial r = Serial r' -> SecretKey r = SecretKey r' ->
  Forall
    (fun m => forall (a : option Params) (s : State),
                snd m r a s = snd m r' a s)
    (methods E).
Proof.
  intros Hs Hk. pose proof (methods_run E) as Hrun.
  eapply List.Forall_impl; [|exact Hrun].
  intros [name f] Hf. cbn [fst snd] in *. subst f.
  intros a s. rewrite !command_run.
  destruct (rand_Reader E s); [reflexivity|].
  apply Robot_exec_same_identity; assumption.
Qed.

(** ** The text of the body *)

Lemma body_byte_high (b : byte) : 128 <= byte_to_Z b -> body_byte b = true.
Proof.
  destruct b; intros Hb; try (exfalso; cbv in Hb; congruence); reflexivity.
Qed.

Lemma DecodeRune_high_bytes (b : byte) (t : bytes) (c : Z) (size : nat) :
  128 <= byte_to_Z b ->
  utf8.DecodeRune (b :: t) = (c, size) ->
  (c =? utf8.RuneError) && (size =? 1)%nat = false ->
  forallb body_byte (firstn size (b :: t)) = true.
Proof.
  intros Hb Hdec Hok. unfold utf8.DecodeRune in Hdec.
  pose proof (body_byte_high b Hb) as Hbb.
  destruct (first_spec b Hb) as [Hx|[[Hx Hr]|[[Hx Hr]|[[Hx Hr]|[[Hx Hr]|[[Hx Hr]|[[Hx Hr]|[Hx Hr]]]]]]]];
    rewrite Hx in Hdec.
  all: cbn [Z.leb Z.compare Pos.compare Pos.compare_cont Z.eqb Pos.eqb] in Hdec.
  all: try (injection Hdec as <- <-; discriminate Hok).
  all: table_constants; cbv beta iota in Hdec.
  all: decode_leaves Hdec.
  all: try (injection Hdec as <- <-; discriminate Hok).
  all: injection Hdec as <- <-.
  all: repeat match goal with
         | H : byte_in _ _ _ = true |- _ => apply byte_in_range in H
         | H : utf8.cont _ = true |- _ => apply byte_in_range in H
         end.
  all: cbn [firstn forallb]; rewrite Hbb.
  all: rewrite !body_byte_high by lia; reflexivity.
Qed.

Lemma escape_ascii_body (b : byte) :
  forallb body_byte (json.escape_ascii b) = true.
Proof. destruct b; reflexivity. Qed.

Lemma htmlSafe_body (b : byte) : json.htmlSafe b = true -> body_byte b = true.
Proof. destruct b; intros H; try discriminate H; reflexivity. Qed.

Lemma json_step_body (src : bytes) :
  forallb body_byte (fst (json.step src)) = true.
Proof.
  destruct src as [|b t]; [reflexivity|].
  unfold json.step.
  destruct (byte_to_Z b <? utf8.RuneSelf) eqn:Hlt.
  - cbn [fst]. destruct (json.htmlSafe b) eqn:Hs.
    + cbn [forallb]. rewrite htmlSafe_body by exact Hs. reflexivity.
    + apply escape_ascii_body.
  - rewrite DecodeRune_firstn4.
    destruct (utf8.DecodeRune (b :: t)) as [c size] eqn:Hdec.
    destruct ((c =? utf8.RuneError) && (size =? 1)%nat) eqn:Hok;
      [reflexivity|].
    destruct ((c =? 0x2028) || (c =? 0x2029)) eqn:Hls.
    + apply orb_prop in Hls as [Hc|Hc]; apply Z.eqb_eq in Hc; subst c;
        reflexivity.
    + cbn [fst]. apply (DecodeRune_high_bytes b t c size); try assumption.
      unfold utf8.RuneSelf in Hlt. apply Z.ltb_ge in Hlt. exact Hlt.
Qed.

Lemma json_loop_body (fuel : nat) (src : bytes) :
  forallb body_byte (json.loop fuel src) = true.
Proof.
  revert src. induction fuel as [|f IH]; intros src; [reflexivity|].
  cbn [json.loop]. destruct src as [|b t]; [reflexivity|].
  pose proof (json_step_body (b :: t)) as Hs.
  destruct (json.step (b :: t)) as [out n]. cbn [fst] in Hs.
  rewrite forallb_app, Hs, IH. reflexivity.
Qed.

Lemma appendString_body (s : bytes) :
  forallb body_byte (json.appendString s) = true.
Proof.
  unfold json.appendString. cbn [forallb].
  rewrite forallb_app, json_loop_body. reflexivity.
Qed.

Lemma base64_char_body (n : nat) :
  (n < 64)%nat -> body_byte (nth n base64.encodeStd x00) = true.
Proof. intros Hn. do 64 (destruct n as [|n]; [reflexivity|]). lia. Qed.

Lemma enc_body (v : Z) : body_byte (base64.enc v) = true.
Proof.
  unfold base64.enc, index. rewrite land_63.
  pose proof (Z.mod_pos_bound v 64 ltac:(lia)) as Hb.
  apply base64_char_body. lia.
Qed.

Lemma base64_Encode_body (s : bytes) :
  forallb body_byte (base64.Encode s) = true.
Proof.
  induction s as [|a|a b|a b c l IH] using list_ind3.
  - reflexivity.
  - cbn [base64.Encode forallb]. rewrite !enc_body. reflexivity.
  - cbn [base64.Encode forallb]. rewrite !enc_body. reflexivity.
  - cbn [base64.Encode forallb]. rewrite !enc_body, IH. reflexivity.
Qed.

Lemma encodeByteSlice_body (v : option bytes) :
  forallb body_byte (json.encodeByteSlice v) = true.
Proof.
  destruct v as [s|]; [|reflexivity].
  unfold json.encodeByteSlice. cbn [forallb].
  rewrite forallb_app, base64_Encode_body. reflexivity.
Qed.

Lemma is_digit_body (c : byte) : is_digit c = true -> body_byte c = true.
Proof. destruct c; intros H; try discriminate H; reflexivity. Qed.

Lemma encodeInt_body (v : Z) : forallb body_byte (json.encodeInt v) = true.
Proof.
  assert (Hd : forall d, forallb body_byte (strconv.digits d) = true).
  { intros d. apply forallb_forall. intros c Hc.
    pose proof (digits_all_digit d) as Hall.
    rewrite List.Forall_forall in Hall. apply is_digit_body, Hall, Hc. }
  unfold json.encodeInt, strconv.FormatInt.
  destruct v; [reflexivity|apply Hd|].
  cbn [forallb]. rewrite Hd. reflexivity.
Qed.

Lemma encodeBool_body (v : bool) : forallb body_byte (json.encodeBool v) = true.
Proof. destruct v; reflexivity. Qed.

Lemma join_body (sep : bytes) (parts : list bytes) :
  forallb body_byte sep = true ->
  Forall (fun p => forallb body_byte p = true) parts ->
  forallb body_byte (json.join sep parts) = true.
Proof.
  intros Hsep Hall. induction Hall as [|p parts Hp Hall IH]; [reflexivity|].
  destruct parts as [|q parts]; [exact Hp|].
  rewrite join_cons by discriminate.
  rewrite !forallb_app, Hp, Hsep, IH. reflexivity.
Qed.

Lemma encodeSlice_body {A} (elem : A -> bytes) (v : option (list A)) :
  (forall x, forallb body_byte (elem x) = true) ->
  forallb body_byte (json.encodeSlice elem v) = true.
Proof.
  intros He. destruct v as [l|]; [|reflexivity].
  unfold json.encodeSlice. rewrite !forallb_app.
  rewrite join_body; [reflexivity|reflexivity|].
  apply List.Forall_map. apply List.Forall_forall. intros x _. apply He.
Qed.

Lemma field_body (name value : bytes) :
  forallb body_byte name = true -> forallb body_byte value = true ->
  forallb body_byte (json.field name value) = true.
Proof.
  intros Hn Hv. unfold json.field. cbn [forallb].
  rewrite forallb_app, Hn. cbn [forallb]. rewrite Hv. reflexivity.
Qed.

Lemma encodeStruct_body (fields : list bytes) :
  Forall (fun p => forallb body_byte p = true) fields ->
  forallb body_byte (json.encodeStruct fields) = true.
Proof.
  intros Hall. unfold json.encodeStruct. rewrite !forallb_app.
  rewrite join_body by (reflexivity || exact Hall). reflexivity.
Qed.

Ltac struct_body :=
  apply encodeStruct_body;
  repeat (apply List.Forall_cons);
  try apply List.Forall_nil;
  apply field_body; try reflexivity;
  first [ apply encodeInt_body | apply encodeBool_body
        | apply appendString_body | apply encodeByteSlice_body ].

Lemma marshal_event_body (e : event) :
  forallb body_byte (marshal_event e) = true.
Proof. unfold marshal_event. struct_body. Qed.

Lemma marshal_Params_body (p : Params) :
  forallb body_byte (marshal_Params p) = true.
Proof.
  unfold marshal_Params.
  apply encodeStruct_body.
  repeat (apply List.Forall_cons); try apply List.Forall_nil;
    apply field_body; try reflexivity;
    first [ apply encodeInt_body | apply encodeBool_body
          | apply appendString_body
          | apply encodeSlice_body; intros x;
            first [apply appendString_body | apply marshal_event_body] ].
Qed.


(** ** Well-formed UTF-8 *)

Lemma DecodeRune_size (b : byte) (t : bytes) :
  (1 <= snd (utf8.DecodeRune (b :: t)) <= length (b :: t))%nat.
Proof.
  destruct (Z.lt_ge_cases (byte_to_Z b) 128) as [Hlt|Hge].
  - destruct (untoken_ascii b t [] Hlt) as (_ & _ & Hd). rewrite Hd.
    cbn [snd length]. lia.
  - destruct (utf8.DecodeRune (b :: t)) as [c size] eqn:Hdec. cbn [snd].
    destruct ((c =? utf8.RuneError) && (size =? 1)%nat) eqn:Hok.
    + apply andb_prop in Hok as [_ Hs]. apply Nat.eqb_eq in Hs. subst size.
      cbn [length]. lia.
    + destruct (DecodeRune_multibyte b t c size Hge Hdec Hok) as (_ & H & _).
      lia.
Qed.

Lemma valid_fuel_enough (f1 : nat) :
  forall (f2 : nat) (s : bytes),
    (length s <= f1)%nat -> (length s <= f2)%nat ->
    utf8.valid_fuel f1 s = utf8.valid_fuel f2 s.
Proof.
  induction f1 as [|f1 IH]; intros f2 s H1 H2.
  - destruct s; [|cbn in H1; lia]. destruct f2; reflexivity.
  - destruct s as [|b t]; [destruct f2; reflexivity|].
    destruct f2 as [|f2]; [cbn in H2; lia|].
    cbn [utf8.valid_fuel].
    pose proof (DecodeRune_size b t) as Hsz.
    destruct (utf8.DecodeRune (b :: t)) as [c size]. cbn [snd] in Hsz.
    destruct (_ && _); [reflexivity|].
    pose proof (length_skipn size (b :: t)) as Hl.
    cbn [length] in *. apply IH; lia.
Qed.

Ltac goal_ranges :=
  repeat match goal with
         | |- context [utf8.acceptRanges (Z.shiftr ?k 4)] =>
             let v := eval vm_compute in (utf8.acceptRanges (Z.shiftr k 4)) in
             change (utf8.acceptRanges (Z.shiftr k 4)) with v
         end.

(** A well-formed encoding at the head of a string is read in the same
    way whatever follows the string. *)
Lemma DecodeRune_app (b : byte) (t u : bytes) (c : Z) (size : nat) :
  utf8.DecodeRune (b :: t) = (c, size) ->
  (c =? utf8.RuneError) && (size =? 1)%nat = false ->
  utf8.DecodeRune ((b :: t) ++ u) = (c, size).
Proof.
  intros Hdec Hok.
  destruct (Z.lt_ge_cases (byte_to_Z b) 128) as [Hlt|Hb].
  - destruct (untoken_ascii b t [] Hlt) as (_ & _ & Hd).
    destruct (untoken_ascii b (t ++ u) [] Hlt) as (_ & _ & Hd').
    cbn [app]. rewrite Hd'. rewrite Hd in Hdec. exact Hdec.
  - cbn [app]. unfold utf8.DecodeRune in Hdec |- *.
    destruct (first_spec b Hb) as [Hx|[[Hx Hr]|[[Hx Hr]|[[Hx Hr]|[[Hx Hr]|[[Hx Hr]|[[Hx Hr]|[Hx Hr]]]]]]]];
      rewrite Hx in Hdec |- *.
    all: cbn [Z.leb Z.compare Pos.compare Pos.compare_cont Z.eqb Pos.eqb]
           in Hdec |- *.
    all: try (injection Hdec as <- <-; discriminate Hok).
    all: table_constants; goal_ranges; cbv beta iota in Hdec |- *.
    all: decode_leaves Hdec.
    all: try (injection Hdec as <- <-; discriminate Hok).
    all: cbn [app length Nat.ltb Nat.leb].
    all: repeat match goal with
           | H : ?x = true |- context [negb ?x] => rewrite H
           end.
    all: cbn [negb Nat.leb]; exact Hdec.
Qed.

Lemma valid_fuel_app (f1 : nat) :
  forall (f2 : nat) (s t : bytes),
    (length s <= f1)%nat ->
    utf8.valid_fuel f1 s = true -> utf8.valid_fuel f2 t = true ->
    (length t <= f2)%nat ->
    utf8.valid_fuel (f1 + f2) (s ++ t) = true.
Proof.
  induction f1 as [|f1 IH]; intros f2 s t Hl Hs Ht Hlt.
  - destruct s; [|discriminate Hs]. exact Ht.
  - destruct s as [|b s'].
    + cbn [app]. rewrite <- Ht. apply valid_fuel_enough; lia.
    + cbn [utf8.valid_fuel] in Hs.
      change (S f1 + f2)%nat with (S (f1 + f2)).
      cbn [utf8.valid_fuel]. 
      pose proof (DecodeRune_size b s') as Hsz.
      destruct (utf8.DecodeRune (b :: s')) as [c size] eqn:Hdec.
      cbn [snd] in Hsz.
      destruct ((c =? utf8.RuneError) && (size =? 1)%nat) eqn:Hok;
        [discriminate Hs|].
      change (b :: s' ++ t) with ((b :: s') ++ t).
      rewrite (DecodeRune_app b s' t c size Hdec Hok), Hok.
      rewrite skipn_app.
      replace (size - length (b :: s'))%nat with 0%nat by lia.
      cbn [skipn].
      pose proof (length_skipn size (b :: s')) as Hk.
      cbn [length] in *.
      apply IH; (assumption || lia).
Qed.

Lemma Valid_app (s t : bytes) :
  utf8.Valid s = true -> utf8.Valid t = true -> utf8.Valid (s ++ t) = true.
Proof.
  unfold utf8.Valid. intros Hs Ht. rewrite length_app.
  apply valid_fuel_app; (assumption || lia).
Qed.

Lemma Valid_ascii (s : bytes) : isASCII s = true -> utf8.Valid s = true.
Proof.
  unfold utf8.Valid, isASCII. induction s as [|b s IH]; [reflexivity|].
  cbn [forallb length utf8.valid_fuel]. intros [Hb Hs]%andb_prop.
  apply Z.ltb_lt in Hb.
  destruct (untoken_ascii b s [] Hb) as (_ & _ & Hd). rewrite Hd.
  replace ((byte_to_Z b =? utf8.RuneError) && (1 =? 1)%nat) with false.
  - cbn [skipn]. apply IH, Hs.
  - symmetry. apply andb_false_iff. left. apply Z.eqb_neq.
    unfold utf8.RuneError. lia.
Qed.

Lemma DecodeRune_own_bytes (b : byte) (t : bytes) (c : Z) (size : nat) :
  utf8.DecodeRune (b :: t) = (c, size) ->
  (c =? utf8.RuneError) && (size =? 1)%nat = false ->
  utf8.DecodeRune (firstn size (b :: t)) = (c, size).
Proof.
  intros Hdec Hok.
  destruct (Z.lt_ge_cases (byte_to_Z b) 128) as [Hlt|Hb].
  - destruct (untoken_ascii b t [] Hlt) as (_ & _ & Hd).
    rewrite Hd in Hdec. injection Hdec as <- <-.
    cbn [firstn].
    destruct (untoken_ascii b [] [] Hlt) as (_ & _ & Hd'). exact Hd'.
  - unfold utf8.DecodeRune in Hdec.
    assert (Hgoal : forall x, x = firstn size (b :: t) ->
                              utf8.DecodeRune x = (c, size));
      [|apply Hgoal; reflexivity].
    destruct (first_spec b Hb) as [Hx|[[Hx Hr]|[[Hx Hr]|[[Hx Hr]|[[Hx Hr]|[[Hx Hr]|[[Hx Hr]|[Hx Hr]]]]]]]];
      rewrite Hx in Hdec.
    all: cbn [Z.leb Z.compare Pos.compare Pos.compare_cont Z.eqb Pos.eqb]
           in Hdec.
    all: try (injection Hdec as <- <-; discriminate Hok).
    all: table_constants; cbv beta iota in Hdec.
    all: decode_leaves Hdec.
    all: try (injection Hdec as <- <-; discriminate Hok).
    all: injection Hdec as Hc <-.
    all: intros x ->; cbn [firstn]; unfold utf8.DecodeRune; rewrite Hx.
    all: cbn [Z.leb Z.compare Pos.compare Pos.compare_cont Z.eqb Pos.eqb].
    all: table_constants; goal_ranges; cbv beta iota.
    all: cbn [length Nat.ltb Nat.leb].
    all: repeat match goal with
           | H : ?x = true |- context [negb ?x] => rewrite H
           end.
    all: cbn [negb Nat.leb]; rewrite Hc; reflexivity.
Qed.

Lemma rune_Valid (b : byte) (t : bytes) (c : Z) (size : nat) :
  utf8.DecodeRune (b :: t) = (c, size) ->
  (c =? utf8.RuneError) && (size =? 1)%nat = false ->
  utf8.Valid (firstn size (b :: t)) = true.
Proof.
  intros Hdec Hok.
  pose proof (DecodeRune_size b t) as Hsz. rewrite Hdec in Hsz.
  cbn [snd] in Hsz.
  pose proof (DecodeRune_own_bytes b t c size Hdec Hok) as Hown.
  unfold utf8.Valid.
  assert (Hlen : length (firstn size (b :: t)) = size)
    by (rewrite length_firstn; lia).
  rewrite Hlen.
  destruct size as [|n]; [lia|].
  cbn [firstn] in *. cbn [utf8.valid_fuel].
  change (b :: firstn n t) with (firstn (S n) (b :: t)) in Hown |- *.
  cbn [firstn] in Hown |- *. rewrite Hown, Hok.
  replace (skipn (S n) (b :: firstn n t)) with (@nil byte).
  - destruct n; reflexivity.
  - symmetry. apply skipn_all2. cbn [length] in *. lia.
Qed.

Lemma escape_ascii_ascii (b : byte) : isASCII (json.escape_ascii b) = true.
Proof. destruct b; reflexivity. Qed.

Lemma json_step_Valid (src : bytes) :
  utf8.Valid (fst (json.step src)) = true.
Proof.
  destruct src as [|b t]; [reflexivity|].
  unfold json.step.
  destruct (byte_to_Z b <? utf8.RuneSelf) eqn:Hlt.
  - cbn [fst]. apply Valid_ascii. destruct (json.htmlSafe b).
    + unfold isASCII. cbn [forallb]. unfold utf8.RuneSelf in Hlt.
      rewrite Hlt. reflexivity.
    + apply escape_ascii_ascii.
  - rewrite DecodeRune_firstn4.
    destruct (utf8.DecodeRune (b :: t)) as [c size] eqn:Hdec.
    destruct ((c =? utf8.RuneError) && (size =? 1)%nat) eqn:Hok;
      [reflexivity|].
    destruct ((c =? 0x2028) || (c =? 0x2029)) eqn:Hls.
    + apply orb_prop in Hls as [Hc|Hc]; apply Z.eqb_eq in Hc; subst c;
        reflexivity.
    + cbn [fst]. apply (rune_Valid b t c size); assumption.
Qed.

Lemma json_loop_Valid (fuel : nat) (src : bytes) :
  utf8.Valid (json.loop fuel src) = true.
Proof.
  revert src. induction fuel as [|f IH]; intros src; [reflexivity|].
  cbn [json.loop]. destruct src as [|b t]; [reflexivity|].
  pose proof (json_step_Valid (b :: t)) as Hs.
  destruct (json.step (b :: t)) as [out n]. cbn [fst] in Hs.
  apply Valid_app; [exact Hs|apply IH].
Qed.

Lemma appendString_Valid (s : bytes) :
  utf8.Valid (json.appendString s) = true.
Proof.
  unfold json.appendString.
  change (json.quote :: ?x) with ([json.quote] ++ x).
  apply Valid_app; [reflexivity|].
  apply Valid_app; [apply json_loop_Valid|reflexivity].
Qed.

Lemma base64_char_ascii (n : nat) :
  (n < 64)%nat -> (byte_to_Z (nth n base64.encodeStd x00) <? 128) = true.
Proof. intros Hn. do 64 (destruct n as [|n]; [reflexivity|]). lia. Qed.

Lemma enc_ascii (v : Z) : (byte_to_Z (base64.enc v) <? 128) = true.
Proof.
  unfold base64.enc, index. rewrite land_63.
  pose proof (Z.mod_pos_bound v 64 ltac:(lia)) as Hb.
  apply base64_char_ascii. lia.
Qed.

Lemma base64_Encode_ascii (s : bytes) : isASCII (base64.Encode s) = true.
Proof.
  unfold isASCII.
  induction s as [|a|a b|a b c l IH] using list_ind3.
  - reflexivity.
  - cbn [base64.Encode forallb]. rewrite !enc_ascii. reflexivity.
  - cbn [base64.Encode forallb]. rewrite !enc_ascii. reflexivity.
  - cbn [base64.Encode forallb]. rewrite !enc_ascii, IH. reflexivity.
Qed.

Lemma encodeByteSlice_Valid (v : option bytes) :
  utf8.Valid (json.encodeByteSlice v) = true.
Proof.
  destruct v as [s|]; [|reflexivity].
  apply Valid_ascii. unfold json.encodeByteSlice, isASCII. cbn [forallb].
  rewrite forallb_app. fold (isASCII (base64.Encode s)).
  rewrite base64_Encode_ascii. reflexivity.
Qed.

Lemma is_digit_ascii (c : byte) :
  is_digit c = true -> (byte_to_Z c <? 128) = true.
Proof. destruct c; intros H; try discriminate H; reflexivity. Qed.

Lemma encodeInt_Valid (v : Z) : utf8.Valid (json.encodeInt v) = true.
Proof.
  assert (Hd : forall d, isASCII (strconv.digits d) = true).
  { intros d. apply forallb_forall. intros c Hc.
    pose proof (digits_all_digit d) as Hall.
    rewrite List.Forall_forall in Hall. apply is_digit_ascii, Hall, Hc. }
  apply Valid_ascii.
  unfold json.encodeInt, strconv.FormatInt.
  destruct v; [reflexivity|apply Hd|].
  unfold isASCII. cbn [forallb]. fold (isASCII (strconv.digits (Pos.to_uint p))).
  rewrite Hd. reflexivity.
Qed.

Lemma encodeBool_Valid (v : bool) : utf8.Valid (json.encodeBool v) = true.
Proof. destruct v; reflexivity. Qed.

Lemma join_Valid (sep : bytes) (parts : list bytes) :
  utf8.Valid sep = true ->
  Forall (fun p => utf8.Valid p = true) parts ->
  utf8.Valid (json.join sep parts) = true.
Proof.
  intros Hsep Hall. induction Hall as [|p parts Hp Hall IH]; [reflexivity|].
  destruct parts as [|q parts]; [exact Hp|].
  rewrite join_cons by discriminate.
  apply Valid_app; [exact Hp|]. apply Valid_app; [exact Hsep|exact IH].
Qed.

Lemma encodeSlice_Valid {A} (elem : A -> bytes) (v : option (list A)) :
  (forall x, utf8.Valid (elem x) = true) ->
  utf8.Valid (json.encodeSlice elem v) = true.
Proof.
  intros He. destruct v as [l|]; [|reflexivity].
  unfold json.encodeSlice.
  apply Valid_app; [reflexivity|]. apply Valid_app; [|reflexivity].
  apply join_Valid; [reflexivity|].
  apply List.Forall_map. apply List.Forall_forall. intros x _. apply He.
Qed.

Lemma field_Valid (name value : bytes) :
  isASCII name = true -> utf8.Valid value = true ->
  utf8.Valid (json.field name value) = true.
Proof.
  intros Hn Hv. unfold json.field.
  change (json.quote :: name ++ json.quote :: ":"%byte :: value)
    with ([json.quote] ++ name ++ [json.quote; ":"%byte] ++ value).
  apply Valid_app; [reflexivity|].
  apply Valid_app; [apply Valid_ascii, Hn|].
  apply Valid_app; [reflexivity|exact Hv].
Qed.

Lemma encodeStruct_Valid (fields : list bytes) :
  Forall (fun p => utf8.Valid p = true) fields ->
  utf8.Valid (json.encodeStruct fields) = true.
Proof.
  intros Hall. unfold json.encodeStruct.
  apply Valid_app; [reflexivity|]. apply Valid_app; [|reflexivity].
  apply join_Valid; [reflexivity|exact Hall].
Qed.

Lemma marshal_event_Valid (e : event) : utf8.Valid (marshal_event e) = true.
Proof.
  unfold marshal_event. apply encodeStruct_Valid.
  repeat (apply List.Forall_cons); try apply List.Forall_nil;
    apply field_Valid; try reflexivity;
    first [ apply encodeInt_Valid | apply appendString_Valid ].
Qed.

Lemma marshal_Params_Valid (p : Params) :
  utf8.Valid (marshal_Params p) = true.
Proof.
  unfold marshal_Params. apply encodeStruct_Valid.
  repeat (apply List.Forall_cons); try apply List.Forall_nil;
    apply field_Valid; try reflexivity;
    first [ apply encodeInt_Valid | apply encodeBool_Valid
          | apply appendString_Valid
          | apply encodeSlice_Valid; intros x;
            first [apply appendString_Valid | apply marshal_event_Valid] ].
Qed.

(** X22. The JSON text of an envelope is well-formed UTF-8, whatever
    bytes its strings hold. *)
Theorem X22_body_is_well_formed_UTF8 (a : request) :
  utf8.Valid (marshal_request a) = true.
Proof.
  unfold marshal_request. apply encodeStruct_Valid.
  apply Forall_app. split.
  - repeat (apply List.Forall_cons); try apply List.Forall_nil;
      apply field_Valid; try reflexivity;
      [apply encodeByteSlice_Valid | apply appendString_Valid].
  - destruct (request_Params a) as [p|]; [|apply List.Forall_nil].
    apply List.Forall_cons; [|apply List.Forall_nil].
    apply field_Valid; [reflexivity|apply marshal_Params_Valid].
Qed.

(** ** Further instances at concrete inputs *)

Lemma X4_Refresh_outcome_witness :
  heap one_session_State !! 1%nat = Some some_Session
  /\ fst (Refresh session_Env 1%nat one_session_State) = Ok tt
  /\ fst (Refresh half_decoded_Env 1%nat one_session_State)
     = Err "parsing time"%bs
  /\ heap (snd (Refresh half_decoded_Env 1%nat one_session_State)) !! 1%nat
     = Some {| AccessToken := "ffee"%bs; CurrentTime := 7;
               client := client some_Session |}.
Proof.
  assert (H : heap one_session_State !! 1%nat = Some some_Session)
    by reflexivity.
  split; [exact H|].
  destruct (X4_Refresh_outcome session_Env 1%nat some_Session
              one_session_State H) as (Hok & _ & _).
  destruct (X4_Refresh_outcome half_decoded_Env 1%nat some_Session
              one_session_State H) as (_ & Hdec & _).
  split.
  - apply Hok.
    exists (request_of (sessions_request session_Env one_session_State)
              blank_Request),
      {| http.StatusCode := 200; http.ResponseBody := [] |}.
    split; [vm_compute; reflexivity|]. split; reflexivity.
  - apply (Hdec (request_of (sessions_request half_decoded_Env
                               one_session_State) blank_Request)
                {| http.StatusCode := 200; http.ResponseBody := [] |}
                "parsing time"%bs).
    + vm_compute. reflexivity.
    + reflexivity.
    + reflexivity.
Defined.

Lemma X5_Refresh_on_missing_session_witness :
  heap empty_State !! 0%nat = None
  /\ fst (Refresh session_Env 0%nat empty_State) = Panic
  /\ sent (snd (Refresh session_Env 0%nat empty_State)) = [].
Proof.
  assert (H : heap empty_State !! 0%nat = None) by reflexivity.
  split; [exact H|].
  destruct (X5_Refresh_on_missing_session session_Env 0%nat empty_State H)
    as (Hs & _ & Hr).
  split; [|exact Hs].
  rewrite Hr. vm_compute. reflexivity.
Defined.

Lemma X9_resource_URLs_witness :
  heap one_session_State !! 1%nat = Some some_Session
  /\ clean_relative "OPS123"%bs = true
  /\ clean_relative "2019-01-02T03"%bs = true
  /\ one_request_to session_Env (SessionClient 1%nat) (client some_Session)
       "GET"%bs
       "https://beehive.neatocloud.com/users/me/robots/OPS123/maps/2019-01-02T03"%bs
       one_session_State
       (snd (GetRobotMap session_Env 1%nat "OPS123"%bs "2019-01-02T03"%bs
               one_session_State)).
Proof.
  assert (H : heap one_session_State !! 1%nat = Some some_Session)
    by reflexivity.
  assert (Hr : clean_relative "OPS123"%bs = true) by reflexivity.
  assert (Hi : clean_relative "2019-01-02T03"%bs = true) by reflexivity.
  split; [exact H|]. split; [exact Hr|]. split; [exact Hi|].
  exact (proj1 (X9_resource_URLs session_Env 1%nat some_Session _ _
                  one_session_State H Hr Hi)).
Defined.

Lemma X10_credentials_travel_escaped_witness :
  one_request_to session_Env LocalClient http.zero_Client "POST"%bs
    ("https://beehive.neatocloud.com/sessions?email=a%40b.com&password=secret&platform=ios&token="%bs
       ++ hex_Encode (repeat x00 32))
    empty_State (snd (NewSession session_Env empty_State)).
Proof.
  assert (Hr : rand_Reader session_Env empty_State
               = EntropyStream (fun _ => x00)) by reflexivity.
  assert (Hp : pass_Get session_Env (after_read empty_State) credentialsPassRE
               = Ok stub_credentials) by reflexivity.
  exact (proj1 (proj2 (proj2
           (X10_credentials_travel_escaped session_Env empty_State
              (fun _ => x00) stub_credentials Hr Hp)))).
Defined.

Lemma X12_refreshed_token_is_used_witness :
  exists s1 cur',
    heap one_session_State !! 1%nat = Some some_Session
    /\ Refresh session_Env 1%nat one_session_State = (Ok tt, s1)
    /\ heap s1 !! 1%nat = Some cur'
    /\ client cur' = client some_Session
    /\ one_bearer_request session_Env 1%nat cur' "users/me"%bs s1
         (snd (GetUser session_Env 1%nat s1)).
Proof.
  assert (H : heap one_session_State !! 1%nat = Some some_Session)
    by reflexivity.
  assert (Hr : Refresh session_Env 1%nat one_session_State
               = (Ok tt, snd (Refresh session_Env 1%nat one_session_State)))
    by (vm_compute; reflexivity).
  destruct (X12_refreshed_token_is_used session_Env 1%nat some_Session
              one_session_State _ H Hr)
    as (cur' & req & resp & Hp & Hc & _ & _ & Hu & _).
  exists (snd (Refresh session_Env 1%nat one_session_State)), cur'.
  split; [exact H|]. split; [exact Hr|]. split; [exact Hp|].
  split; [exact Hc|exact Hu].
Defined.

Lemma X17_returned_response_carries_the_fresh_id_witness :
  exists result,
    In ("findMe"%bs, FindMe echoing_Env) (methods echoing_Env)
    /\ fst (FindMe echoing_Env golden_Robot None empty_State) = Ok result
    /\ string_of (Response_ReqID result)
       = "00000000000000000000000000000000"%bs.
Proof.
  assert (Hm : In ("findMe"%bs, FindMe echoing_Env) (methods echoing_Env))
    by (left; reflexivity).
  assert (Hr : fst (FindMe echoing_Env golden_Robot None empty_State)
               = Ok {| Version := 1;
                       Response_ReqID := Some (hex_Encode (repeat x00 16));
                       Result := "ok"%bs; Telemetry := tt |})
    by (vm_compute; reflexivity).
  eexists. split; [exact Hm|]. split; [exact Hr|].
  destruct (X17_returned_response_carries_the_fresh_id echoing_Env
              ("findMe"%bs, FindMe echoing_Env) golden_Robot None empty_State
              _ Hm Hr) as (next & req & resp & Hn & Hid & _).
  rewrite Hid. injection Hn as <-. reflexivity.
Defined.

Lemma X18_errors_of_a_command_witness :
  In ("findMe"%bs, FindMe (answering_Env (Some "wrong"%bs)))
     (methods (answering_Env (Some "wrong"%bs)))
  /\ fst (FindMe (answering_Env (Some "wrong"%bs)) golden_Robot None
            empty_State)
     = Err "conflicting ReqID value"%bs
  /\ length (sent (snd (FindMe (answering_Env (Some "wrong"%bs)) golden_Robot
                          None empty_State))) = 1%nat.
Proof.
  pose (E := answering_Env (Some "wrong"%bs)).
  assert (Hm : In ("findMe"%bs, FindMe E) (methods E)) by (left; reflexivity).
  assert (Hr : fst (FindMe E golden_Robot None empty_State)
               = Err "conflicting ReqID value"%bs)
    by (vm_compute; reflexivity).
  split; [exact Hm|]. split; [exact Hr|].
  destruct (X18_errors_of_a_command E ("findMe"%bs, FindMe E) golden_Robot
              None empty_State _ Hm Hr)
    as [[Hf _]|(next & _ & [[Hu _]|(req & Hs & _)])].
  - discriminate Hf.
  - discriminate Hu.
  - cbn [snd] in Hs. fold E. rewrite Hs. reflexivity.
Defined.

Lemma X21_serial_edges_in_the_path_witness :
  messages_URL empty_serial_Robot
  = "https://nucleo.neatocloud.com:4443/vendors/neato/robots/messages"%bs
  /\ messages_URL trailing_slash_Robot = messages_URL golden_Robot.
Proof.
  destruct (X21_serial_edges_in_the_path (answering_Env None)
              empty_serial_Robot golden_Robot golden_request []) as (H1 & _).
  destruct (X21_serial_edges_in_the_path (answering_Env None)
              golden_Robot trailing_slash_Robot golden_request [])
    as (_ & H2).
  split; [exact (H1 eq_refl)|exact (proj1 (H2 eq_refl))].
Defined.

Lemma X23_only_serial_and_key_matter_witness :
  Name golden_Robot <> Name renamed_Robot
  /\ FindMe echoing_Env golden_Robot None empty_State
     = FindMe echoing_Env renamed_Robot None empty_State.
Proof.
  split; [discriminate|].
  pose proof (X23_only_serial_and_key_matter echoing_Env golden_Robot
                renamed_Robot eq_refl eq_refl) as H.
  exact (Forall_inv H None empty_State).
Defined.
